(** * Verification of [financial_assistant/streamlit/utilities_app.py]

    A shallow embedding of the session, cache-directory, scheduled-deletion,
    directory-browsing and output-saving helpers of the financial assistant,
    and the properties its design note states about them.

    Conventions of the embedding:
    - a Python [str] is a [string]; paths stay strings and are combined with
      [os_path_join], as in the source;
    - the file system below a path is a tree ([node]); a function that takes a
      path takes next to it the object the file system holds at that path
      ([None] when nothing exists there);
    - a call either completes or raises: [result];
    - [logger] calls append a [log_entry] to a log;
    - file-system calls may fail: the oracle [fails] says which call fails on
      which path. *)

From stdpp Require Import base option list strings pretty gmap.
From Stdlib Require Import Ascii ZArith Lia.

(** ** Exceptions, results and the log *)

Inductive syscall := Scandir | Unlink | Rmdir | Open.

Inductive exn :=
| KeyError (key : string)
| TypeError
| ValueError
| AttributeError
| FileNotFoundError (p : string)
| NotADirectoryError (p : string)
| OSError (call : syscall) (p : string)
| RecursionError.

Inductive result (A : Type) :=
| Ok (a : A)
| Raise (e : exn).
Arguments Ok {A} a.
Arguments Raise {A} e.

Definition raises {A} (r : result A) : bool :=
  match r with Ok _ => false | Raise _ => true end.

(** [try: body except Exception as e: handler]: an exception of the body is
    consumed by the handler, which works on the state the body left. *)
Definition try_except {S : Type} (body : result unit * S) (handler : exn -> S -> S)
  : result unit * S :=
  match body with
  | (Ok u, s) => (Ok u, s)
  | (Raise e, s) => (Ok tt, handler e s)
  end.

(** A computation on a state [S] that completes with a value or raises. *)
Definition Run (S A : Type) : Type := S -> result A * S.

Definition ret {S A} (a : A) : Run S A := fun st => (Ok a, st).
Definition raise {S A} (e : exn) : Run S A := fun st => (Raise e, st).
Definition bind {S A B} (m : Run S A) (k : A -> Run S B) : Run S B :=
  fun st => match m st with
            | (Ok a, st') => k a st'
            | (Raise e, st') => (Raise e, st')
            end.

Notation "x <- m ;; k" := (bind m (fun x => k))
  (at level 100, m at next level, right associativity).
Notation "m ;;; k" := (bind m (fun _ => k))
  (at level 100, right associativity).

(** [for x in xs: body(x)]. *)
Fixpoint for_each {S A} (xs : list A) (body : A -> Run S unit) : Run S unit :=
  match xs with
  | [] => ret tt
  | x :: xs' => body x ;;; for_each xs' body
  end.

(** [try: body except: handler]. *)
Definition try_bare {S A} (body : Run S A) (handler : Run S A) : Run S A :=
  fun st => match body st with
            | (Ok a, st') => (Ok a, st')
            | (Raise _, st') => handler st'
            end.

Inductive level := INFO | WARNING.

Inductive message :=
| Directory_does_not_exist (directory : string)
| Error_deleting (item_path : string) (e : exn)
| Error_processing_directory (directory : string) (e : exn)
| Cache_directory_does_not_exist (name : string)
| Error_clearing_cache_directory (name : string) (e : exn)
| Successfully_deleted_cache_directory (name : string)
| Error_deleting_cache_directory (name : string) (e : exn)
| Temporary_directory_deleted (temp_dir : string)
| Could_not_delete_temporary_directory (temp_dir : string)
| Successfully_deleted_directory (name : string)
| Could_not_delete_directory (name : string).

Record log_entry := LogEntry { lvl : level; msg : message }.

Definition logger_warning (m : message) (lg : list log_entry) : list log_entry :=
  lg ++ [LogEntry WARNING m].
Definition logger_info (m : message) (lg : list log_entry) : list log_entry :=
  lg ++ [LogEntry INFO m].


(** ** Strings and paths *)

Module Str.

Definition slash : ascii := "/"%char.

(** [s.startswith(c)] and [s.endswith(c)] for a one-character [c]. *)
Definition startswith (c : ascii) (s : string) : bool :=
  match s with
  | EmptyString => false
  | String a _ => bool_decide (a = c)
  end.

Fixpoint endswith (c : ascii) (s : string) : bool :=
  match s with
  | EmptyString => false
  | String a EmptyString => bool_decide (a = c)
  | String _ s' => endswith c s'
  end.

(** [s.split(sep)]: the list is never empty. *)
Fixpoint split (sep : ascii) (s : string) : list string :=
  match s with
  | EmptyString => [EmptyString]
  | String a s' =>
      if bool_decide (a = sep) then EmptyString :: split sep s'
      else match split sep s' with
           | [] => [String a EmptyString]
           | w :: ws => String a w :: ws
           end
  end.

(** [sep.join(parts)]. *)
Fixpoint join (sep : string) (parts : list string) : string :=
  match parts with
  | [] => EmptyString
  | [w] => w
  | w :: ws => w +:+ sep +:+ join sep ws
  end.

(** [c in s]. *)
Fixpoint contains (c : ascii) (s : string) : bool :=
  match s with
  | EmptyString => false
  | String a s' => bool_decide (a = c) || contains c s'
  end.

End Str.

(** [s.startswith(prefix)]. *)
Definition starts_with (prefix s : string) : bool := String.prefix prefix s.

(** ['/' * n]. *)
Fixpoint slashes (n : nat) : string :=
  match n with
  | O => EmptyString
  | S n' => String Str.slash (slashes n')
  end.

(** The number of leading slashes posixpath keeps: two slashes are kept,
    three or more count as one. *)
Definition initial_slashes (path : string) : nat :=
  if starts_with "/" path then
    if starts_with "//" path && negb (starts_with "///" path) then 2 else 1
  else 0.

(** [os.path.join(a, b)] of posixpath. *)
Definition os_path_join (a b : string) : string :=
  if Str.startswith Str.slash b then b
  else if bool_decide (a = EmptyString) || Str.endswith Str.slash a then a +:+ b
  else a +:+ "/" +:+ b.

(** The components pathlib keeps of a path: empty components and single dots
    are dropped, double dots are kept. *)
Definition path_components (p : string) : list string :=
  filter (fun c => c <> EmptyString /\ c <> ".") (Str.split Str.slash p).

(** [Path(p).parts]: the root, when the path is absolute, then the components. *)
Definition Path_parts (p : string) : list string :=
  match initial_slashes p with
  | O => []
  | n => [slashes n]
  end ++ path_components p.

(** [Path(p).is_relative_to(Path(other))]: the parts of [other] begin the
    parts of [p]; nothing is resolved, a double dot is a component like any
    other. An absolute path is not relative to the empty path. *)
Definition is_relative_to (p other : string) : bool :=
  bool_decide (Path_parts other `prefix_of` Path_parts p)
  && negb (Str.startswith Str.slash p && bool_decide (Path_parts other = [])).

(** [Path(p).name]: the last component, empty when there is none. *)
Definition Path_name (p : string) : string :=
  List.last (path_components p) EmptyString.

(** ** The file system below a path *)

Inductive node : Type :=
| File : node
| Dir : entries -> node
with entries : Type :=
| Nil : entries
| Entry : string -> node -> entries -> entries.

Scheme node_mut := Induction for node Sort Prop
  with entries_mut := Induction for entries Sort Prop.
Combined Scheme node_entries_ind from node_mut, entries_mut.

(** [os.listdir]: the names of a directory, in the order of the listing. *)
Fixpoint names (es : entries) : list string :=
  match es with
  | Nil => []
  | Entry name _ rest => name :: names rest
  end.

(** The entry called [name], if there is one. *)
Fixpoint child (name : string) (es : entries) : option node :=
  match es with
  | Nil => None
  | Entry n c rest => if bool_decide (n = name) then Some c else child name rest
  end.

(** The object below a node along a list of names. *)
Fixpoint descend (ns : list string) (n : node) : option node :=
  match ns with
  | [] => Some n
  | name :: ns' =>
      match n with
      | File => None
      | Dir es => match child name es with
                  | Some c => descend ns' c
                  | None => None
                  end
      end
  end.

(** The directory has an entry [name] holding [c]. *)
Fixpoint entry_in (name : string) (c : node) (es : entries) : Prop :=
  match es with
  | Nil => False
  | Entry n c' rest => (n = name /\ c' = c) \/ entry_in name c rest
  end.

Definition is_dir (n : node) : bool :=
  match n with Dir _ => true | File => false end.

(** A regular file exists somewhere in the tree. *)
Fixpoint has_file (n : node) : bool :=
  match n with
  | File => true
  | Dir es => has_file_entries es
  end
with has_file_entries (es : entries) : bool :=
  match es with
  | Nil => false
  | Entry _ c rest => has_file c || has_file_entries rest
  end.

(** Put back what a step left of an entry: nothing when it was removed. *)
Definition keep (name : string) (o : option node) (rest : entries) : entries :=
  match o with
  | Some c => Entry name c rest
  | None => rest
  end.

(** ** Clearing and deleting directories *)

Section FileSystem.

(** [fails call p]: the call [call] on path [p] raises [OSError] (a locked or
    unreadable file, a permission that is missing). *)
Variable fails : syscall -> string -> bool.

(** [shutil.rmtree(p)] on the node found at [p]: the entries are removed in
    the order of the listing, then the directory itself; the first failure
    is raised and what was not yet removed stays. *)
Fixpoint rmtree (p : string) (n : node) : result unit * option node :=
  match n with
  | File => (Raise (NotADirectoryError p), Some File)
  | Dir es =>
      if fails Scandir p then (Raise (OSError Scandir p), Some (Dir es))
      else
        match rmtree_entries p es with
        | (Ok _, es') =>
            if fails Rmdir p then (Raise (OSError Rmdir p), Some (Dir es'))
            else (Ok tt, None)
        | (Raise e, es') => (Raise e, Some (Dir es'))
        end
  end
with rmtree_entries (p : string) (es : entries) : result unit * entries :=
  match es with
  | Nil => (Ok tt, Nil)
  | Entry name c rest =>
      let fullname := os_path_join p name in
      match c with
      | File =>
          if fails Unlink fullname then (Raise (OSError Unlink fullname), es)
          else rmtree_entries p rest
      | Dir _ =>
          match rmtree fullname c with
          | (Ok _, _) => rmtree_entries p rest
          | (Raise e, remains) => (Raise e, keep name remains rest)
          end
      end
  end.

(** [shutil.rmtree(p)] on whatever is at [p]. *)
Definition shutil_rmtree (p : string) (o : option node) : result unit * option node :=
  match o with
  | None => (Raise (FileNotFoundError p), None)
  | Some n => rmtree p n
  end.

(** [clear_directory(directory, delete_subdirectories)] where [directory]
    exists and holds [n]. The recursive call of the source is of this kind:
    it is made on an [item_path] for which [os.path.isdir] just held.
    The state is the node and the log. *)
Fixpoint clear_directory_node (directory : string) (delete_subdirectories : bool)
    (n : node) (lg : list log_entry) {struct n}
  : result unit * (node * list log_entry) :=
  try_except
    (* for item in os.listdir(directory): *)
    match n with
    | File => (Raise (NotADirectoryError directory), (File, lg))
    | Dir es =>
        if fails Scandir directory then (Raise (OSError Scandir directory), (Dir es, lg))
        else
          let '(r, (es', lg')) := clear_items directory delete_subdirectories es lg in
          (r, (Dir es', lg'))
    end
    (* except Exception as e: *)
    (fun e '(n', lg') => (n', logger_warning (Error_processing_directory directory e) lg'))
with clear_items (directory : string) (delete_subdirectories : bool)
    (es : entries) (lg : list log_entry) {struct es}
  : result unit * (entries * list log_entry) :=
  match es with
  | Nil => (Ok tt, (Nil, lg))
  | Entry item c rest =>
      let item_path := os_path_join directory item in
      let '(r, (remains, lg1)) :=
        try_except
          match c with
          | File =>
              (* if os.path.isfile(item_path): os.unlink(item_path) *)
              if fails Unlink item_path
              then (Raise (OSError Unlink item_path), (Some File, lg))
              else (Ok tt, (None, lg))
          | Dir _ =>
              (* elif os.path.isdir(item_path): *)
              match clear_directory_node item_path delete_subdirectories c lg with
              | (Raise e, (c', lg')) => (Raise e, (Some c', lg'))
              | (Ok _, (c', lg')) =>
                  if delete_subdirectories
                  then let '(r', remains') := rmtree item_path c' in (r', (remains', lg'))
                  else (Ok tt, (Some c', lg'))
              end
          end
          (* except Exception as e: *)
          (fun e '(remains', lg') => (remains', logger_warning (Error_deleting item_path e) lg'))
      in
      match r with
      | Raise e => (Raise e, (keep item remains rest, lg1))
      | Ok _ =>
          let '(r2, (rest', lg2)) := clear_items directory delete_subdirectories rest lg1 in
          (r2, (keep item remains rest', lg2))
      end
  end.

(** [clear_directory(directory, delete_subdirectories)] on whatever is at
    [directory]: [os.path.exists(directory)] is the test on [o]. *)
Definition clear_directory (directory : string) (delete_subdirectories : bool)
    (o : option node) (lg : list log_entry)
  : result unit * (option node * list log_entry) :=
  match o with
  | None => (Ok tt, (None, logger_warning (Directory_does_not_exist directory) lg))
  | Some n =>
      let '(r, (n', lg')) := clear_directory_node directory delete_subdirectories n lg in
      (r, (Some n', lg'))
  end.

(** The part of the world [clear_cache] works on: the string entries of
    [streamlit.session_state], what the file system holds at the path stored
    under ['CACHE_DIR'], and the log. *)
Record world := World {
  session_state : gmap string string;
  cache : option node;
  log : list log_entry
}.

(** [streamlit.session_state[key]]. *)
Definition getitem (key : string) (w : world) : result string :=
  match session_state w !! key with
  | Some v => Ok v
  | None => Raise (KeyError key)
  end.

Definition with_cache (o : option node) (w : world) : world :=
  World (session_state w) o (log w).
Definition with_log (lg : list log_entry) (w : world) : world :=
  World (session_state w) (cache w) lg.

(** The first [try] block of [clear_cache]; [inl] is the early [return]. *)
Definition clear_cache_try (delete verbose : bool) (w : world)
  : result (unit + unit) * world :=
  match getitem "CACHE_DIR" w with
  | Raise e => (Raise e, w)
  | Ok cache_dir =>
      let w := World (<["CACHE_DIR" := cache_dir]> (session_state w)) (cache w) (log w) in
      match cache w with
      | None =>
          (Ok (inl tt),
           if verbose
           then with_log (logger_warning (Cache_directory_does_not_exist (Path_name cache_dir)) (log w)) w
           else w)
      | Some _ =>
          let '(r, (o, lg)) := clear_directory cache_dir delete (cache w) (log w) in
          (match r with Ok _ => Ok (inr tt) | Raise e => Raise e end,
           with_log lg (with_cache o w))
      end
  end.

(** [clear_cache(delete, verbose)]. Both handlers format their message with
    [streamlit.session_state["CACHE_DIR"]], which raises in its turn when
    the key is missing. *)
Definition clear_cache (delete verbose : bool) (w : world) : result unit * world :=
  let '(r, w1) := clear_cache_try delete verbose w in
  let after_try : result (unit + unit) * world :=
    match r with
    | Ok x => (Ok x, w1)
    | Raise e =>
        match getitem "CACHE_DIR" w1 with
        | Raise e' => (Raise e', w1)
        | Ok cache_dir =>
            (Ok (inr tt),
             with_log (logger_warning (Error_clearing_cache_directory (Path_name cache_dir) e) (log w1)) w1)
        end
    end in
  match after_try with
  | (Raise e, w2) => (Raise e, w2)
  | (Ok (inl _), w2) => (Ok tt, w2)
  | (Ok (inr _), w2) =>
      if delete then
        match getitem "CACHE_DIR" w2 with
        | Raise e =>
            (* raised inside the second try; its handler reads the key again *)
            (Raise e, w2)
        | Ok cache_dir =>
            match shutil_rmtree cache_dir (cache w2) with
            | (Ok _, o) =>
                let w3 := with_cache o w2 in
                (Ok tt,
                 if verbose
                 then with_log (logger_info (Successfully_deleted_cache_directory (Path_name cache_dir)) (log w3)) w3
                 else w3)
            | (Raise e, o) =>
                let w3 := with_cache o w2 in
                (Ok tt,
                 with_log (logger_warning (Error_deleting_cache_directory (Path_name cache_dir) e) (log w3)) w3)
            end
        end
      else (Ok tt, w2)
  end.

(** What a function returns, as far as a scheduler of the [schedule]
    package looks at it: [schedule.CancelJob] or anything else. *)
Inductive returned := ReturnsNone | ReturnsCancelJob.

(** [delete_temp_dir(temp_dir, verbose)] on whatever is at [temp_dir]. The
    function has no [return] statement: it returns [None] on every path. *)
Definition delete_temp_dir (temp_dir : string) (verbose : bool)
    (o : option node) (lg : list log_entry)
  : returned * (option node * list log_entry) :=
  match o with
  | Some n =>
      match rmtree temp_dir n with
      | (Ok _, remains) =>
          (ReturnsNone,
           (remains, if verbose then logger_info (Temporary_directory_deleted temp_dir) lg else lg))
      | (Raise _, remains) =>
          (ReturnsNone,
           (remains,
            if verbose then logger_warning (Could_not_delete_temporary_directory temp_dir) lg
            else lg))
      end
  | None => (ReturnsNone, (o, lg))
  end.

(** The body of the loop of [delete_all_subdirectories] for one triple
    [(root, dirs, files)] of [os.walk]: [dirs] are the entries that are
    directories; [os.path.isdir(dir_path)] holds for each when its turn
    comes, since the earlier iterations removed other entries only. *)
Fixpoint delete_dirs (root : string) (exclude : list string) (verbose : bool)
    (es : entries) (lg : list log_entry) : entries * list log_entry :=
  match es with
  | Nil => (Nil, lg)
  | Entry dir_name c rest =>
      let dir_path := os_path_join root dir_name in
      let '(remains, lg1) :=
        match c with
        | File => (Some c, lg)
        | Dir _ =>
            if bool_decide (dir_path ∉ exclude) then
              match rmtree dir_path c with
              | (Ok _, remains) =>
                  (remains,
                   if verbose
                   then logger_info (Successfully_deleted_directory (Path_name dir_path)) lg
                   else lg)
              | (Raise _, remains) =>
                  (remains,
                   if verbose
                   then logger_warning (Could_not_delete_directory (Path_name dir_path)) lg
                   else lg)
              end
            else (Some c, lg)
        end in
      let '(rest', lg2) := delete_dirs root exclude verbose rest lg1 in
      (keep dir_name remains rest', lg2)
  end.

(** The descent of [os.walk(top)] into the directories of [dirs], each
    walked by [walk_sub] in the state it has when its turn comes. A name of
    [dirs] that was removed by the loop body is gone from [es]: scanning it
    fails and [os.walk] yields nothing for it. *)
Fixpoint walk_dirs (walk_sub : string -> node -> list log_entry -> node * list log_entry)
    (top : string) (es : entries) (lg : list log_entry) : entries * list log_entry :=
  match es with
  | Nil => (Nil, lg)
  | Entry name c rest =>
      let '(c', lg1) :=
        match c with
        | File => (c, lg)
        | Dir _ => walk_sub (os_path_join top name) c lg
        end in
      let '(rest', lg2) := walk_dirs walk_sub top rest lg1 in
      (Entry name c' rest', lg2)
  end.

(** [for root, dirs, files in os.walk(top): body], top-down: the triple of
    [top] is produced from a scan of [top], the body runs, and only then is
    each directory of [dirs] scanned and walked. [fuel] bounds the depth of
    the descent. *)
Fixpoint walk (fuel : nat) (exclude : list string) (verbose : bool)
    (top : string) (n : node) (lg : list log_entry) : node * list log_entry :=
  match fuel with
  | O => (n, lg)
  | S fuel' =>
      match n with
      | File => (n, lg)
      | Dir es =>
          if fails Scandir top then (n, lg)
          else
            let '(es1, lg1) := delete_dirs top exclude verbose es lg in
            let '(es2, lg2) := walk_dirs (walk fuel' exclude verbose) top es1 lg1 in
            (Dir es2, lg2)
      end
  end.

(** [delete_all_subdirectories(directory, exclude, verbose)] on whatever is
    at [directory]. *)
Definition delete_all_subdirectories (fuel : nat) (directory : string)
    (exclude : list string) (verbose : bool) (o : option node) (lg : list log_entry)
  : option node * list log_entry :=
  match o with
  | None => (None, lg)
  | Some n => let '(n', lg') := walk fuel exclude verbose directory n lg in (Some n', lg')
  end.

End FileSystem.

(** No file-system call fails. *)
Definition no_failure : syscall -> string -> bool := fun _ _ => false.

(** The depth of a tree: the fuel a walk of it needs. *)
Fixpoint height (n : node) : nat :=
  match n with
  | File => 1
  | Dir es => S (height_entries es)
  end
with height_entries (es : entries) : nat :=
  match es with
  | Nil => 0
  | Entry _ c rest => Nat.max (height c) (height_entries rest)
  end.

(** Every directory on the way from [directory] down the names [ns], the
    last one included, has its path in [exclude]. *)
Fixpoint excluded_along (directory : string) (exclude : list string)
    (ns : list string) : bool :=
  match ns with
  | [] => true
  | name :: ns' =>
      bool_decide (os_path_join directory name ∈ exclude)
      && excluded_along (os_path_join directory name) exclude ns'
  end.

(** The path of the object reached from [directory] along the names [ns]. *)
Definition path_of (directory : string) (ns : list string) : string :=
  foldl os_path_join directory ns.

(** ** Scheduled deletion

    [schedule_temp_dir_deletion] relies on the [schedule] package. The
    package is not part of the repository; [Schedule] states the behaviour of
    the calls the source makes ([every(n).minutes.do(f, ...)], [tag],
    [get_jobs], [run_pending]) on the default scheduler: a job is periodic, it
    is run whenever the clock has reached [next_run], it is planned again one
    period later after each run, and it leaves the scheduler only when its
    function returns [CancelJob]. Time is counted in seconds. *)

Module Schedule.

(** A job made by the source: [job_func] is
    [functools.partial(delete_temp_dir, temp_dir=.., verbose=..)]. *)
Record job := Job {
  job_id : nat;
  interval : Z;
  tags : gset string;
  partial_temp_dir : string;
  partial_verbose : bool;
  last_run : option Z;
  next_run : Z
}.

(** The default scheduler, the directories the jobs work on (a temporary
    directory path and what the file system holds there), the clock and the
    log. *)
Record state := State {
  jobs : list job;
  fresh_id : nat;
  disk : gmap string node;
  now : Z;
  slog : list log_entry
}.

(** A state of the scheduler is well formed when the identities of its
    jobs were all handed out already. *)
Definition well_formed (st : state) : Prop :=
  Forall (fun j => job_id j < fresh_id st) (jobs st).

Section Scheduler.

Variable fails : syscall -> string -> bool.

(** [every(n).minutes.do(delete_temp_dir, temp_dir=.., verbose=..)] for
    [n >= 1]: the first run is planned one period from now and the job is
    appended to the jobs of the scheduler. (For [n <= 0] the releases of the
    package differ; nothing is stated about that case.) *)
Definition every_minutes_do (n : Z) (temp_dir : string) (verbose : bool)
    (st : state) : nat * state :=
  let j := Job (fresh_id st) n ∅ temp_dir verbose None (now st + 60 * n) in
  (fresh_id st,
   State (jobs st ++ [j]) (S (fresh_id st)) (disk st) (now st) (slog st)).

(** [job.tag(t)]. *)
Definition tag (id : nat) (t : string) (st : state) : state :=
  State
    (map (fun j => if bool_decide (job_id j = id)
                   then Job (job_id j) (interval j) ({[ t ]} ∪ tags j)
                          (partial_temp_dir j) (partial_verbose j)
                          (last_run j) (next_run j)
                   else j) (jobs st))
    (fresh_id st) (disk st) (now st) (slog st).

(** [schedule.get_jobs(t)]. *)
Definition get_jobs (t : string) (st : state) : list job :=
  List.filter (fun j => bool_decide (t ∈ tags j)) (jobs st).

(** [job.should_run]. *)
Definition should_run (st : state) (j : job) : bool :=
  bool_decide (next_run j <= now st)%Z.

(** [sorted(runnable_jobs)]: jobs compare by [next_run]; stable. *)
Fixpoint insert_sorted (j : job) (l : list job) : list job :=
  match l with
  | [] => [j]
  | k :: l' =>
      if bool_decide (next_run k <= next_run j)%Z then k :: insert_sorted j l'
      else j :: l
  end.
Definition sorted (l : list job) : list job :=
  foldl (fun acc j => insert_sorted j acc) [] l.

(** The call of the job function: [delete_temp_dir] on the directory of
    the job; what it returns is what the scheduler looks at. *)
Definition job_func (j : job) (st : state) : returned * state :=
  let '(ret, (o, lg)) :=
    delete_temp_dir fails (partial_temp_dir j) (partial_verbose j)
      (disk st !! partial_temp_dir j) (slog st) in
  (ret,
   State (jobs st) (fresh_id st)
     (match o with
      | Some n => <[partial_temp_dir j := n]> (disk st)
      | None => delete (partial_temp_dir j) (disk st)
      end)
     (now st) lg).

(** [job.run()] records the run and plans the next one on the job. *)
Definition ran_at (t : Z) (k : job) : job :=
  Job (job_id k) (interval k) (tags k) (partial_temp_dir k) (partial_verbose k)
    (Some t) (t + 60 * interval k).

(** [scheduler._run_job(job)]: [job.run()] calls the function, records the
    run and plans the next one; the job is cancelled only when the
    function returned [CancelJob]. *)
Definition run_job (j : job) (st : state) : state :=
  let '(ret, st1) := job_func j st in
  let jobs' :=
    match ret with
    | ReturnsCancelJob =>
        List.filter (fun k => negb (bool_decide (job_id k = job_id j))) (jobs st1)
    | ReturnsNone =>
        map (fun k => if bool_decide (job_id k = job_id j) then ran_at (now st1) k else k)
          (jobs st1)
    end in
  State jobs' (fresh_id st1) (disk st1) (now st1) (slog st1).

(** [schedule.run_pending()]. *)
Definition run_pending (st : state) : state :=
  foldl (fun s j => run_job j s) st (sorted (List.filter (should_run st) (jobs st))).

(** [time.sleep(s)]. *)
Definition sleep (s : Z) (st : state) : state :=
  State (jobs st) (fresh_id st) (disk st) (now st + s) (slog st).

(** The loop of the thread [run_scheduler]; [None] when the loop is still
    running after [fuel] rounds. *)
Fixpoint run_scheduler (fuel : nat) (temp_dir : string) (st : state) : option state :=
  match fuel with
  | O => None
  | S fuel' =>
      match get_jobs temp_dir st with
      | [] => Some st
      | _ :: _ => run_scheduler fuel' temp_dir (sleep 1 (run_pending st))
      end
  end.

(** The state after [rounds] rounds of that loop, for a loop that has not
    ended before. *)
Fixpoint rounds_of_scheduler (rounds : nat) (st : state) : state :=
  match rounds with
  | O => st
  | S r => rounds_of_scheduler r (sleep 1 (run_pending st))
  end.

(** [schedule_temp_dir_deletion(temp_dir, delay_minutes)]: the job is
    registered and tagged; the thread that is started then runs
    [run_scheduler temp_dir]. *)
Definition schedule_temp_dir_deletion (temp_dir : string) (delay_minutes : Z)
    (st : state) : state :=
  let '(id, st1) := every_minutes_do delay_minutes temp_dir false st in
  tag id temp_dir st1.

(** The directory [temp_dir] is created (again) with content [n]. *)
Definition makedirs (temp_dir : string) (n : node) (st : state) : state :=
  State (jobs st) (fresh_id st) (<[temp_dir := n]> (disk st)) (now st) (slog st).

End Scheduler.

(** A scheduler without jobs at second 1000, and the directory [/tmp/P]
    holding one file. *)
Definition idle : state :=
  State [] 0 {[ "/tmp/P" := Dir (Entry "f" File Nil) ]} 1000 [].

End Schedule.

(** ** Saving outputs *)

Module Output.

(** The Python values [save_output_callback] tells apart. A float carries
    what [str(round(x, 2))] prints; a series or a dataframe carries what
    [to_json(orient='records')] returns; another object carries the
    stripped JSON dump of its [to_dict()], when it has that method.
    The values are those on which these conversions return: an int above the
    digit limit of [str], or a frame whose [to_json] raises, is outside the
    model. *)
Local Unset Elimination Schemes.
Inductive pyval :=
| PNone
| PStr (s : string)
| PInt (z : Z)
| PFloat (printed : string)
| PList (elems : list pyval)
| PTuple (elems : list pyval)
| PDict (items : list (pyval * pyval))
| PSet (elems : list pyval)
| PSeries (json : string)
| PDataFrame (json : string)
| PObject (stripped_dict : option string).
Local Set Elimination Schemes.

Inductive pytype :=
| NoneType | str | int | float | list_ | dict | tuple | set | Series | DataFrame | object.

Definition type (v : pyval) : pytype :=
  match v with
  | PNone => NoneType
  | PStr _ => str
  | PInt _ => int
  | PFloat _ => float
  | PList _ => list_
  | PTuple _ => tuple
  | PDict _ => dict
  | PSet _ => set
  | PSeries _ => Series
  | PDataFrame _ => DataFrame
  | PObject _ => object
  end.

Global Instance pytype_eq_dec : EqDecision pytype.
Proof. solve_decision. Defined.

(** [isinstance(v, (t1, ..., tn))]. *)
Definition isinstance (v : pyval) (ts : list pytype) : bool :=
  bool_decide (type v ∈ ts).

(** The files written to, and the warnings shown with [streamlit.warning]. *)
Record state := State {
  files : gmap string string;
  shown : list string
}.

(** Computations of this module. *)
Abbreviation M := (Run state).

(** ['\n'] and ['\n\n']. *)
Definition newline : string := String (ascii_of_nat 10) EmptyString.
Definition blank_line : string := newline +:+ newline.

Section Callback.

(** [open(filename, 'a')] fails on the files for which [fails Open] holds. *)
Variable fails : syscall -> string -> bool.
(** What [str] prints for a value that is neither a string nor a number. *)
Variable str_other : pyval -> string.
(** What pandas makes of [frame + s] for a series or dataframe. *)
Variable frame_plus : pyval -> string -> result pyval.

(** [with open(filename, 'a') as text_file: text_file.write(text)]. *)
Definition append_text (filename text : string) : M unit :=
  fun st =>
    if fails Open filename then (Raise (OSError Open filename), st)
    else (Ok tt,
          State (<[filename := default EmptyString (files st !! filename) +:+ text]> (files st))
            (shown st)).

(** [with open(filename, 'a') as text_file:] with an empty use of the file. *)
Definition open_append (filename : string) : M unit := append_text filename EmptyString.

Definition streamlit_warning (text : string) : M unit :=
  fun st => (Ok tt, State (files st) (shown st ++ [text])).

(** [str(v)]. *)
Definition py_str (v : pyval) : string :=
  match v with
  | PStr s => s
  | PInt z => pretty z
  | PFloat printed => printed
  | _ => str_other v
  end.

(** [v + s] for a string [s]. *)
Definition plus_str (v : pyval) (s : string) : M pyval :=
  match v with
  | PStr x => ret (PStr (x +:+ s))
  | PSeries _ | PDataFrame _ =>
      match frame_plus v s with Ok r => ret r | Raise e => raise e end
  | _ => raise TypeError
  end.

(** [save_simple_output(response, filename)]. *)
Definition save_simple_output (response : pyval) (filename : string) : M unit :=
  (if isinstance response [str; float; int] then
     append_text filename (py_str response)
   else if isinstance response [Series; DataFrame] then
     match response with
     | PSeries json | PDataFrame json => append_text filename json
     | _ => ret tt
     end
   else
     try_bare
       match response with
       | PObject (Some stripped_string) => append_text filename stripped_string
       | _ => raise AttributeError
       end
       (streamlit_warning "Could not save the response.")) ;;;
  append_text filename blank_line.

(** The input checks of [save_output_callback]. *)
Definition check_inputs (response save_path user_request : pyval) : M unit :=
  if negb (isinstance response [str; list_; dict; tuple; Series; DataFrame])
  then raise TypeError
  else if negb (isinstance save_path [str]) then raise TypeError
  else if negb (isinstance user_request [str; NoneType]) then raise TypeError
  else ret tt.

(** The branch of [save_output_callback] for a dictionary value. *)
Definition save_dict_value (value : pyval) (filename : string) : M unit :=
  open_append filename ;;;
  if isinstance value [str; float; int] then
    v <- plus_str value newline ;; save_simple_output v filename
  else if isinstance value [list_] then
    match value with
    | PList items =>
        save_simple_output
          (PStr (Str.join ", " (map py_str items) +:+ "." +:+ newline)) filename
    | _ => ret tt
    end
  else save_simple_output value filename.

(** [save_output_callback(response, save_path, user_request)]. *)
Definition save_output_callback (response save_path user_request : pyval) : M unit :=
  check_inputs response save_path user_request ;;;
  let filename := py_str save_path in
  append_text filename blank_line ;;;
  (if negb (isinstance user_request [NoneType]) then
     append_text filename (py_str user_request) ;;;
     append_text filename blank_line
   else ret tt) ;;;
  (* if isinstance(response, set): response = list(response) *)
  let response :=
    if isinstance response [set]
    then match response with PSet elems => PList elems | _ => response end
    else response in
  (if isinstance response [str; float; int; Series; DataFrame] then
     save_simple_output response filename
   else if isinstance response [list_] then
     match response with
     | PList elems =>
         for_each elems (fun elem => v <- plus_str elem newline ;; save_simple_output v filename)
     | _ => ret tt
     end
   else if isinstance response [dict] then
     match response with
     | PDict items =>
         for_each items (fun '(key, value) => save_dict_value value filename)
     | _ => ret tt
     end
   else if isinstance response [tuple] then
     match response with
     | PTuple elems =>
         (* for elem in response: save_simple_output(response + '\n', filename) *)
         for_each elems (fun elem => v <- plus_str response newline ;; save_simple_output v filename)
     | _ => ret tt
     end
   else
     (* the test of the next branch names pandas.DataFrame0 *)
     raise AttributeError) ;;;
  append_text filename blank_line.

End Callback.

(** The state after the opening blank line and the user request have been
    appended to the file. *)
Definition preamble (filename : string) (user_request : option string) (st : state)
  : state :=
  let opened := default EmptyString (files st !! filename) +:+ blank_line in
  State
    (<[filename :=
         match user_request with
         | Some req => (opened +:+ req) +:+ blank_line
         | None => opened
         end]> (files st))
    (shown st).

(** An optional user request as a Python value. *)
Definition to_pyval (user_request : option string) : pyval :=
  match user_request with Some req => PStr req | None => PNone end.

End Output.

(** ** The session and its cache root *)

Module Session.

(** One round of the loop of [normpath] over the components. *)
Definition normpath_step (initial : nat) (new_comps : list string) (comp : string)
  : list string :=
  if bool_decide (comp = EmptyString) || bool_decide (comp = ".") then new_comps
  else if negb (bool_decide (comp = ".."))
          || (bool_decide (initial = 0) && bool_decide (new_comps = []))
          || bool_decide (List.last new_comps EmptyString = ".." /\ new_comps <> [])
  then new_comps ++ [comp]
  else List.removelast new_comps.

(** [posixpath.normpath(path)]. *)
Definition normpath (path : string) : string :=
  if bool_decide (path = EmptyString) then "."
  else
    let initial := initial_slashes path in
    let comps := foldl (normpath_step initial) [] (Str.split Str.slash path) in
    let path' := slashes initial +:+ Str.join "/" comps in
    if bool_decide (path' = EmptyString) then "." else path'.

(** [os.path.abspath(path)] in the working directory [cwd]. *)
Definition abspath (cwd path : string) : string :=
  normpath (if Str.startswith Str.slash path then path else os_path_join cwd path).

(** [session_state[key]] for a key that was set before. *)
Definition item (key : string) (session_state : gmap string string) : string :=
  default EmptyString (session_state !! key).

Section Initialize.

(** The module-level [kit_dir] and [os.getcwd()]. *)
Variable kit_dir : string.
Variable cwd : string.

(** The choice of the cache root in [initialize_session]. [new_uuid] is
    what [str(uuid4())] returns. *)
Definition set_cache_dir (new_uuid : string) (prod_mode : bool)
    (cache_dir : option string) (session_state : gmap string string)
  : gmap string string :=
  let session_state :=
    match session_state !! "SESSION_ID" with
    | Some _ => session_state
    | None => <["SESSION_ID" := new_uuid]> session_state
    end in
  match session_state !! "CACHE_DIR" with
  | Some _ => session_state
  | None =>
      match cache_dir with
      | None =>
          let session_state :=
            <["CACHE_DIR" := os_path_join kit_dir "streamlit/cache"]> session_state in
          if prod_mode then
            <["CACHE_DIR" :=
                abspath cwd
                  (os_path_join
                     (os_path_join kit_dir "../../scratch/financial_assistant/cache")
                     ("cache_" +:+ item "SESSION_ID" session_state))]> session_state
          else session_state
      | Some dir => <["CACHE_DIR" := dir]> session_state
      end
  end.

(** [session_state[key] = os.path.join(session_state[base], name)]. *)
Definition derive (key base name : string) (session_state : gmap string string)
  : gmap string string :=
  <[key := os_path_join (item base session_state) name]> session_state.

(** The string entries [initialize_session] assigns itself. The entries
    that are not strings ([prod_mode], [chat_history], [launch_time],
    [mp_events]) are left out, and so is the call
    [initialize_env_variables(prod_mode)], whose code is in another file of
    the repository: the entries that call writes are not part of the model,
    which speaks for the keys assigned here only. The clearing of the
    pandasai cache at the end does not touch the session state. *)
Definition initialize_session (new_uuid : string) (prod_mode : bool)
    (cache_dir : option string) (session_state : gmap string string)
  : gmap string string :=
  let s := set_cache_dir new_uuid prod_mode cache_dir session_state in
  let s := derive "HISTORY_PATH" "CACHE_DIR" "chat_history.txt" s in
  let s := derive "PDF_GENERATION_DIRECTORY" "CACHE_DIR" "pdf_generation" s in
  let s := derive "STOCK_QUERY_PATH" "CACHE_DIR" "stock_query.txt" s in
  let s := derive "DB_QUERY_PATH" "CACHE_DIR" "db_query.txt" s in
  let s := derive "YFINANCE_NEWS_PATH" "CACHE_DIR" "yfinance_news.txt" s in
  let s := derive "FILINGS_PATH" "CACHE_DIR" "filings.txt" s in
  let s := derive "PDF_RAG_PATH" "CACHE_DIR" "pdf_rag.txt" s in
  let s := derive "WEB_SCRAPING_PATH" "CACHE_DIR" "web_scraping.csv" s in
  let s := derive "TIME_LLM_PATH" "CACHE_DIR" "time_llm.json" s in
  let s := derive "SOURCE_DIR" "CACHE_DIR" "sources" s in
  let s := derive "DB_PATH" "SOURCE_DIR" "stock_database.db" s in
  let s := derive "YFINANCE_NEWS_TXT_PATH" "SOURCE_DIR" "yfinance_news_documents.txt" s in
  let s := derive "YFINANCE_NEWS_CSV_PATH" "SOURCE_DIR" "yfinance_news_documents.csv" s in
  let s := derive "PDF_SOURCES_DIR" "SOURCE_DIR" "pdf_sources" s in
  let s := derive "STOCK_QUERY_FIGURES_DIR" "CACHE_DIR" "stock_query_figures" s in
  let s := derive "HISTORY_FIGURES_DIR" "CACHE_DIR" "history_figures" s in
  let s := derive "DB_QUERY_FIGURES_DIR" "CACHE_DIR" "db_query_figures" s in
  <["PANDASAI_CACHE" := os_path_join cwd "cache"]> s.

(** The cache root of a new session with identifier [new_uuid]. *)
Definition cache_root (new_uuid : string) (prod_mode : bool)
    (cache_dir : option string) : option string :=
  initialize_session new_uuid prod_mode cache_dir ∅ !! "CACHE_DIR".

End Initialize.

(** The directory of the production caches, relative to [kit_dir]. *)
Definition rel : string := "../../scratch/financial_assistant/cache".

(** What [sep.join(parts + [c])] puts before [c]. *)
Definition join_before (sep : string) (parts : list string) : string :=
  match parts with
  | [] => EmptyString
  | _ => Str.join sep parts +:+ sep
  end.

(** What [os.path.join(a, b)] puts between [a] and a relative [b]. *)
Definition separator (a : string) : string :=
  if bool_decide (a = EmptyString) || Str.endswith Str.slash a then EmptyString else "/".

(** What [normpath(q + '/' + c)] puts before a last component [c] that is
    a plain name. *)
Definition norm_before (q : string) : string :=
  slashes (initial_slashes q)
  +:+ join_before "/" (foldl (normpath_step (initial_slashes q)) [] (Str.split Str.slash q)).

(** What the production cache root of a session puts before
    [cache_<SESSION_ID>]. *)
Definition root_before (kit_dir cwd : string) : string :=
  let q := os_path_join kit_dir "../../scratch/financial_assistant/cache" in
  if Str.startswith Str.slash q then norm_before q
  else norm_before ((cwd +:+ separator cwd) +:+ q).

(** The shape of [str(uuid4())]: 36 characters, each a lower-case
    hexadecimal digit or a hyphen. *)
Definition uuid_char (c : ascii) : bool :=
  let n := nat_of_ascii c in
  (Nat.leb 48 n && Nat.leb n 57) || (Nat.leb 97 n && Nat.leb n 102) || Nat.eqb n 45.

Fixpoint all_chars (p : ascii -> bool) (s : string) : bool :=
  match s with
  | EmptyString => true
  | String c s' => p c && all_chars p s'
  end.

Definition uuid_shaped (s : string) : bool :=
  Nat.eqb (String.length s) 36 && all_chars uuid_char s.

End Session.

(** ** Browsing the cache *)

Module Browse.

(** What the browser does with a path. *)
Inductive event :=
| Listed (p : string)
| Files_listed (p : string)
| Downloaded (p : string)
| Wrote (text : string).

(** [streamlit.session_state.current_path] and what was done so far. *)
Record state := State {
  current_path : string;
  trace : list event;
  blog : list string
}.

Abbreviation M := (Run state).

Inductive kind := Directory | Regular | Other.

(** [Path(p).suffix[1:]]: what follows the last dot of the name, when that
    dot is neither the first nor the last character of the name. *)
Definition format_of (filename : string) : string :=
  let pieces := Str.split "."%char (Path_name filename) in
  if bool_decide (2 <= length pieces)
     && negb (bool_decide (Str.join "." (List.removelast pieces) = EmptyString))
  then List.last pieces EmptyString
  else EmptyString.

(** A name as [os.listdir] returns it: not empty, not a dot, without a
    slash. *)
Definition plain (name : string) : bool :=
  negb (bool_decide (name = EmptyString)) && negb (bool_decide (name = "."))
  && negb (Str.contains Str.slash name).

(** The path is contained in the ancestor as the design note words it:
    it resolves to a path equal to or nested under the ancestor. Resolution
    is that of [os.path.normpath]. *)
Definition spec_path_is_contained (candidate ancestor : string) : bool :=
  is_relative_to (Session.normpath candidate) (Session.normpath ancestor).

Section Display.

(** [os.listdir(p)] with the kind of each entry, or the error it raises;
    the working directory is the one in effect after [list_directory]
    has anchored it again. *)
Variable listdir : string -> result (list (string * kind)).
(** [open(p, 'rb')] succeeds. *)
Variable readable : string -> bool.
(** [streamlit.sidebar.button(.., key=key)] returns true. *)
Variable pressed : string -> bool.

Definition record (e : event) : M unit :=
  fun st => (Ok tt, State (current_path st) (trace st ++ [e]) (blog st)).

Definition set_current_path (p : string) : M unit :=
  fun st => (Ok tt, State p (trace st) (blog st)).

Definition get_current_path : M string :=
  fun st => (Ok (current_path st), st).

Definition warn (text : string) : M unit :=
  fun st => (Ok tt, State (current_path st) (trace st) (blog st ++ [text])).

Definition names_of (k : kind -> bool) (l : list (string * kind)) : list string :=
  map fst (List.filter (fun e => k e.2) l).

(** [list_files_in_directory(directory)]. *)
Definition list_files_in_directory (directory : string) : M (list string) :=
  match listdir directory with
  | Raise e => raise e
  | Ok l =>
      record (Files_listed directory) ;;;
      ret (names_of (fun k => match k with Regular => true | _ => false end) l)
  end.

(** [list_directory(directory)]: the subdirectories, and everything else
    as files. *)
Definition list_directory (directory : string) : M (list string * list string) :=
  match listdir directory with
  | Raise e => raise e
  | Ok l =>
      record (Listed directory) ;;;
      ret (names_of (fun k => match k with Directory => true | _ => false end) l,
           names_of (fun k => match k with Directory => false | _ => true end) l)
  end.

(** [download_file(filename, key)]. *)
Definition download_file (filename : string) : M unit :=
  if bool_decide (format_of filename ∈ ["txt"; "csv"; "png"; "pdf"]) then
    if readable filename then record (Downloaded filename)
    else warn "Error reading file"
  else ret tt.

(** The loop over [enumerate(subdirectories)] from index [idx] on;
    [display] is the recursive call. *)
Fixpoint browse_subdirectories (display : string -> M unit) (path : string)
    (idx : nat) (subdirectories : list string) : M unit :=
  match subdirectories with
  | [] => ret tt
  | subdir :: rest =>
      (if pressed (subdir +:+ "_" +:+ pretty idx) then
         files_subdir <- list_files_in_directory (os_path_join path subdir) ;;
         for_each files_subdir (fun file =>
           current <- get_current_path ;;
           download_file (os_path_join (os_path_join current subdir) file)) ;;;
         current <- get_current_path ;;
         display (os_path_join current subdir)
       else ret tt) ;;;
      browse_subdirectories display path (S idx) rest
  end.

(** [display_directory_contents(path, default_path)]; [depth] is the
    room left on the call stack. *)
Fixpoint display_directory_contents (depth : nat) (default_path path : string)
  : M unit :=
  match depth with
  | O => raise RecursionError
  | S depth' =>
      path <- (if negb (is_relative_to path default_path)
               then set_current_path default_path ;;; ret default_path
               else ret path) ;;
      listing <- list_directory path ;;
      let '(subdirectories, files) := listing in
      let dir_name := Path_name path in
      let dir_name := if starts_with "cache" dir_name then "cache" else dir_name in
      browse_subdirectories (display_directory_contents depth' default_path)
        path 0 subdirectories ;;;
      (if negb (bool_decide (files = [])) && starts_with "cache" dir_name
       then for_each files (fun file => download_file (os_path_join path file))
       else ret tt) ;;;
      (if bool_decide (length (subdirectories ++ files) = 0)
       then record (Wrote "No files found")
       else ret tt)
  end.

(** The event touches a path lexically under [default_path] only. *)
Definition event_within (default_path : string) (e : event) : bool :=
  match e with
  | Listed p | Files_listed p | Downloaded p => is_relative_to p default_path
  | Wrote _ => true
  end.

(** The listing returns plain names. *)
Definition plain_names : Prop :=
  forall p l, listdir p = Ok l -> Forall (fun e => plain e.1 = true) l.

End Display.

(** Everything done so far stayed lexically under [default_path], and so
    does [current_path]. *)
Definition inv (default_path : string) (st : state) : Prop :=
  Forall (fun e => event_within default_path e = true) (trace st) /\
  is_relative_to (current_path st) default_path = true.

(** [m] keeps that invariant, and a value it returns satisfies [Q]. *)
Definition keeps (default_path : string) {A} (m : M A) (Q : A -> Prop) : Prop :=
  forall st, inv default_path st ->
    inv default_path (m st).2 /\ match (m st).1 with Ok a => Q a | Raise _ => True end.

End Browse.

(** ** What a saved output looks like *)

(** The state after [text] was appended to the file [filename]. *)
Definition appended (filename text : string) (st : Output.state) : Output.state :=
  Output.State
    (<[filename := default EmptyString (Output.files st !! filename) +:+ text]>
       (Output.files st))
    (Output.shown st).

(** The user request as it is written: followed by a blank line, or nothing
    when there is none. *)
Definition request_text (user_request : option string) : string :=
  match user_request with
  | Some req => req +:+ Output.blank_line
  | None => EmptyString
  end.

(** The elements of a list response as they are written: each followed by a
    newline and a blank line. *)
Fixpoint lines_of (texts : list string) : string :=
  match texts with
  | [] => EmptyString
  | t :: texts' => (t +:+ Output.newline +:+ Output.blank_line) +:+ lines_of texts'
  end.

(** The types [save_output_callback] accepts for its response. *)
Definition accepted : list Output.pytype :=
  [Output.str; Output.list_; Output.dict; Output.tuple; Output.Series; Output.DataFrame].

(** ** Stripped JSON dumps *)

Module Strip.

(** The characters of the class the source removes with [re.sub]: the double
    quote (34), the apostrophe (39) and the two braces (123, 125). *)
Definition stripped_chars : list ascii := map ascii_of_nat [34; 39; 123; 125]%nat.

(** [re.sub('[' + cs + ']', '', s)] for a class of plain characters. *)
Fixpoint re_sub_chars (cs : list ascii) (s : string) : string :=
  match s with
  | EmptyString => EmptyString
  | String a s' =>
      if bool_decide (a ∈ cs) then re_sub_chars cs s'
      else String a (re_sub_chars cs s')
  end.

(** The characters [str.strip()] removes, among the code points below 256. *)
Definition isspace (c : ascii) : bool :=
  let n := nat_of_ascii c in
  (Nat.leb 9 n && Nat.leb n 13) || (Nat.leb 28 n && Nat.leb n 32)
  || Nat.eqb n 133 || Nat.eqb n 160.

(** [line.strip()] is the empty string, which counts as false. *)
Definition strip_is_empty (line : string) : bool := Session.all_chars isspace line.

Definition newline_char : ascii := ascii_of_nat 10.

(** The two steps of [dump_stripped_json] after the dump. *)
Definition strip_json (json_string : string) : string :=
  let stripped_string := re_sub_chars stripped_chars json_string in
  Str.join (String newline_char EmptyString)
    (filter (fun line => strip_is_empty line = false)
       (Str.split newline_char stripped_string)).

Section Dump.

(** The data to dump and [json.dumps(data, indent=indent)] on it. *)
Context {data : Type}.
Variable json_dumps : data -> Z -> string.

(** [dump_stripped_json(data, indent)]. *)
Definition dump_stripped_json (d : data) (indent : Z) : string :=
  let json_string := json_dumps d indent in
  strip_json json_string.

End Dump.

End Strip.

(** ** The layout of an initialised session *)

Module Layout.

(** The keys [initialize_session] derives from [CACHE_DIR], each with the
    name it joins to the cache root. *)
Definition cache_entries : list (string * string) :=
  [("HISTORY_PATH", "chat_history.txt");
   ("PDF_GENERATION_DIRECTORY", "pdf_generation");
   ("STOCK_QUERY_PATH", "stock_query.txt");
   ("DB_QUERY_PATH", "db_query.txt");
   ("YFINANCE_NEWS_PATH", "yfinance_news.txt");
   ("FILINGS_PATH", "filings.txt");
   ("PDF_RAG_PATH", "pdf_rag.txt");
   ("WEB_SCRAPING_PATH", "web_scraping.csv");
   ("TIME_LLM_PATH", "time_llm.json");
   ("SOURCE_DIR", "sources");
   ("STOCK_QUERY_FIGURES_DIR", "stock_query_figures");
   ("HISTORY_FIGURES_DIR", "history_figures");
   ("DB_QUERY_FIGURES_DIR", "db_query_figures")].

(** The keys it derives from [SOURCE_DIR]. *)
Definition source_entries : list (string * string) :=
  [("DB_PATH", "stock_database.db");
   ("YFINANCE_NEWS_TXT_PATH", "yfinance_news_documents.txt");
   ("YFINANCE_NEWS_CSV_PATH", "yfinance_news_documents.csv");
   ("PDF_SOURCES_DIR", "pdf_sources")].

Fixpoint assoc (k : string) (l : list (string * string)) : option string :=
  match l with
  | [] => None
  | (k', v) :: l' => if decide (k = k') then Some v else assoc k l'
  end.

(** The entry under [k] once the paths have been derived in the session
    state [c], whose cache root is chosen already. *)
Definition layout (cwd : string) (c : gmap string string) (k : string) : option string :=
  let root := Session.item "CACHE_DIR" c in
  match assoc k cache_entries with
  | Some name => Some (os_path_join root name)
  | None =>
      match assoc k source_entries with
      | Some name => Some (os_path_join (os_path_join root "sources") name)
      | None =>
          if decide (k = "PANDASAI_CACHE") then Some (os_path_join cwd "cache")
          else c !! k
      end
  end.

(** The keys of the derived paths. *)
Definition derived_keys : list string := map fst (cache_entries ++ source_entries).

(** The cache root and the paths derived from it. *)
Definition path_keys : list string := "CACHE_DIR" :: derived_keys.

End Layout.

(** ** What [display_directory_contents] works on *)

(** The path and the state after the containment check at the head of
    [display_directory_contents]. *)
Definition checked_path (default_path path : string) : string :=
  if is_relative_to path default_path then path else default_path.

Definition checked_state (default_path path : string) (st : Browse.state) : Browse.state :=
  if is_relative_to path default_path then st
  else Browse.State default_path (Browse.trace st) (Browse.blog st).

(** The state after [e] was recorded. *)
Definition recorded (events : list Browse.event) (st : Browse.state) : Browse.state :=
  Browse.State (Browse.current_path st) (Browse.trace st ++ events) (Browse.blog st).

Definition is_directory (k : Browse.kind) : bool :=
  match k with Browse.Directory => true | _ => false end.

Definition is_regular (k : Browse.kind) : bool :=
  match k with Browse.Regular => true | _ => false end.

(** ** The SEC-EDGAR details *)

Module Sec.

(** What [submit_sec_edgar_details] can put on the page. *)
Inductive widget :=
| Markdown
| Text_input (key : string)
| Button (key : string)
| Success
| Warning.

(** [os.environ], whose values are strings, and the page so far. *)
Record state := State {
  environ : gmap string string;
  shown : list widget
}.

Abbreviation M := (Run state).

(** A Python value that is a string or [None]. *)
Definition is_None (v : option string) : bool :=
  match v with None => true | Some _ => false end.

Definition key : string := "sidebar-sec-edgar".

Section Submit.

(** What [streamlit.text_input(.., None, key=key)] returns: the text typed
    into the widget, [None] when there is none; and whether
    [streamlit.button(.., key=key)] returns true. *)
Variable text_input : string -> option string.
Variable button : string -> bool.

Definition show (w : widget) : M unit :=
  fun st => (Ok tt, State (environ st) (shown st ++ [w])).

(** [os.getenv(name)]. *)
Definition getenv (name : string) : M (option string) :=
  fun st => (Ok (environ st !! name), st).

(** [os.environ[name]]: the string, or [KeyError]. *)
Definition environ_getitem (name : string) : M (option string) :=
  fun st =>
    match environ st !! name with
    | Some v => (Ok (Some v), st)
    | None => (Raise (KeyError name), st)
    end.

(** [os.environ[name] = value]: the value must be a string. *)
Definition environ_setitem (name : string) (value : option string) : M unit :=
  fun st =>
    match value with
    | Some v => (Ok tt, State (<[name := v]> (environ st)) (shown st))
    | None => (Raise TypeError, st)
    end.

(** [submit_sec_edgar_details()]. *)
Definition submit_sec_edgar_details : M unit :=
  organization <- getenv "SEC_API_ORGANIZATION" ;;
  email <- getenv "SEC_API_EMAIL" ;;
  (if is_None organization || is_None email then show Markdown else ret tt) ;;;
  organization <- getenv "SEC_API_ORGANIZATION" ;;
  (if is_None organization then
     show (Text_input (key +:+ "-organization")) ;;;
     environ_setitem "SEC_API_ORGANIZATION" (text_input (key +:+ "-organization"))
   else ret tt) ;;;
  email <- environ_getitem "SEC_API_EMAIL" ;;
  (if is_None email then
     show (Text_input (key +:+ "-email")) ;;;
     environ_setitem "SEC_API_EMAIL" (text_input (key +:+ "-email"))
   else ret tt) ;;;
  organization <- getenv "SEC_API_ORGANIZATION" ;;
  missing <- (if is_None organization then ret true
              else email <- environ_getitem "SEC_API_EMAIL" ;; ret (is_None email)) ;;
  if missing : bool then
    show (Button (key +:+ "-button")) ;;;
    if button (key +:+ "-button") then
      organization <- getenv "SEC_API_ORGANIZATION" ;;
      complete <- (if negb (is_None organization)
                   then email <- environ_getitem "SEC_API_EMAIL" ;;
                        ret (negb (is_None email))
                   else ret false) ;;
      if complete : bool then show Success else ret tt
    else show Warning
  else ret tt.

End Submit.

End Sec.

(** ** Scenarios of the design note *)

(** Root [/cache_A] holding [sources/doc1.txt] and [figures/chart.png]. *)
Definition cache_A : node :=
  Dir (Entry "sources" (Dir (Entry "doc1.txt" File Nil))
      (Entry "figures" (Dir (Entry "chart.png" File Nil)) Nil)).

Definition cache_A_world : world :=
  World {[ "CACHE_DIR" := "/cache_A" ]} (Some cache_A) [].

(** A directory with three files, the first of which cannot be removed. *)
Definition three_files : entries :=
  Entry "locked.txt" File (Entry "a.txt" File (Entry "b.csv" File Nil)).

Definition locked_file : syscall -> string -> bool :=
  fun call p =>
    match call with
    | Unlink => bool_decide (p = "/tmp/d/locked.txt")
    | _ => false
    end.

(** Root [/r] holding [a/b]. *)
Definition nested_tree : node :=
  Dir (Entry "a" (Dir (Entry "b" (Dir Nil) Nil)) Nil).

(** Two session identifiers as [str(uuid4())] returns them. *)
Definition session_1 : string := "123e4567-e89b-42d3-a456-426614174000".
Definition session_2 : string := "9b2f0c1a-77aa-4e0d-8c55-0123456789ab".

(** A file system with the cache [/cache] and a directory [/secret] next to
    it, as [os.listdir] shows it; [/etc] holds nothing the browser may list. *)
Definition cache_and_secret (p : string) : result (list (string * Browse.kind)) :=
  if bool_decide (p = "/cache")
  then Ok [("sources", Browse.Directory); ("chat_history.txt", Browse.Regular)]
  else if bool_decide (p = "/cache/sources") then Ok [("doc1.txt", Browse.Regular)]
  else if bool_decide (p = "/cache/../secret") then Ok [("keys", Browse.Directory)]
  else if bool_decide (p = "/cache/../secret/keys") then Ok [("id.txt", Browse.Regular)]
  else Raise (FileNotFoundError p).

(** Every file can be read and every button is pressed. *)
Definition always : string -> bool := fun _ => true.

(** Root [/r] holding [a/b/c], [a/b/f], [x] and the file [g.txt]. *)
Definition files_and_dirs : node :=
  Dir (Entry "a" (Dir (Entry "b" (Dir (Entry "c" (Dir Nil) (Entry "f" File Nil))) Nil))
      (Entry "x" (Dir Nil) (Entry "g.txt" File Nil))).

(** A file system on which no file can be opened. *)
Definition read_only : syscall -> string -> bool :=
  fun call _ => match call with Open => true | _ => false end.

(** [str] of a value that is neither a string nor a number, left abstract in
    the scenarios, and pandas' [+] as the identity on the frame. *)
Definition no_text : Output.pyval -> string := fun _ => EmptyString.
Definition same_frame : Output.pyval -> string -> result Output.pyval :=
  fun v _ => Ok v.

(** A cache with a subdirectory, a file, a socket and an empty directory. *)
Definition small_cache (p : string) : result (list (string * Browse.kind)) :=
  if bool_decide (p = "/cache")
  then Ok [("sources", Browse.Directory); ("empty", Browse.Directory);
           ("notes.txt", Browse.Regular); ("socket", Browse.Other)]
  else if bool_decide (p = "/cache/sources") then Ok [("doc1.txt", Browse.Regular)]
  else if bool_decide (p = "/cache/empty") then Ok []
  else Raise (FileNotFoundError p).

(** No file can be read and no button is pressed. *)
Definition never : string -> bool := fun _ => false.

(** The user typed an organization and an email address and pressed the
    button. *)
Definition typed_details (key : string) : option string :=
  if bool_decide (key = "sidebar-sec-edgar-organization") then Some "ACME"
  else if bool_decide (key = "sidebar-sec-edgar-email") then Some "user@acme.com"
  else None.

(** * Properties of the directory helpers *)

(** ** When no call fails *)

Lemma rmtree_no_failure :
  (forall n p, is_dir n = true -> rmtree no_failure p n = (Ok tt, None)) /\
  (forall es p, rmtree_entries no_failure p es = (Ok tt, Nil)).
Proof.
  apply node_entries_ind; simpl; intros.
  - discriminate.
  - now rewrite H.
  - reflexivity.
  - destruct n as [|es0]; [apply H0|].
    rewrite H by reflexivity. apply H0.
Qed.

Lemma clear_all_no_failure :
  (forall n d lg, is_dir n = true ->
     clear_directory_node no_failure d true n lg = (Ok tt, (Dir Nil, lg))) /\
  (forall es d lg, clear_items no_failure d true es lg = (Ok tt, (Nil, lg))).
Proof.
  apply node_entries_ind; simpl; intros.
  - discriminate.
  - now rewrite H.
  - reflexivity.
  - destruct n as [|es0]; simpl.
    + now rewrite H0.
    + pose proof (H (os_path_join d s) lg eq_refl) as Hc.
      simpl in Hc. rewrite Hc. simpl.
      now rewrite H0.
Qed.

Lemma clear_files_no_failure :
  (forall n d lg, is_dir n = true ->
     exists es', clear_directory_node no_failure d false n lg = (Ok tt, (Dir es', lg))
                 /\ has_file_entries es' = false) /\
  (forall es d lg,
     exists es', clear_items no_failure d false es lg = (Ok tt, (es', lg))
                 /\ has_file_entries es' = false).
Proof.
  apply node_entries_ind; simpl; intros.
  - discriminate.
  - destruct (H d lg) as (es' & -> & Hf). simpl. eauto.
  - eauto.
  - destruct n as [|es0]; simpl.
    + destruct (H0 d lg) as (es' & -> & Hf). simpl. eauto.
    + destruct (H (os_path_join d s) lg eq_refl) as (es1 & Hc & Hf1).
      simpl in Hc. rewrite Hc. simpl.
      destruct (H0 d lg) as (es' & -> & Hf). simpl.
      exists (Entry s (Dir es1) es'). simpl. rewrite Hf1, Hf. auto.
Qed.

(** ** [clear_cache] *)

Lemma getitem_cache_dir (w : world) (root : string) :
  session_state w !! "CACHE_DIR" = Some root -> getitem "CACHE_DIR" w = Ok root.
Proof. unfold getitem. now intros ->. Qed.

Lemma clear_cache_delete_no_failure (w : world) (root : string) (es : entries) (verbose : bool) :
  session_state w !! "CACHE_DIR" = Some root ->
  cache w = Some (Dir es) ->
  (clear_cache no_failure true verbose w).1 = Ok tt /\
  cache (clear_cache no_failure true verbose w).2 = None.
Proof.
  intros Hkey Hdir. unfold clear_cache, clear_cache_try.
  rewrite (getitem_cache_dir _ _ Hkey). cbn [cache session_state log].
  rewrite Hdir. unfold clear_directory, with_log, with_cache.
  pose proof (proj1 clear_all_no_failure (Dir es) root (log w) eq_refl) as Hc.
  rewrite Hc. cbn [with_log with_cache cache session_state log].
  unfold getitem. cbn [session_state]. rewrite (insert_id _ _ _ Hkey), Hkey.
  cbn. destruct verbose; auto.
Qed.

Lemma clear_cache_keep_no_failure (w : world) (root : string) (es : entries) (verbose : bool) :
  session_state w !! "CACHE_DIR" = Some root ->
  cache w = Some (Dir es) ->
  (clear_cache no_failure false verbose w).1 = Ok tt /\
  exists es', cache (clear_cache no_failure false verbose w).2 = Some (Dir es')
              /\ has_file_entries es' = false.
Proof.
  intros Hkey Hdir. unfold clear_cache, clear_cache_try.
  rewrite (getitem_cache_dir _ _ Hkey). cbn [cache session_state log].
  rewrite Hdir. unfold clear_directory.
  destruct (proj1 clear_files_no_failure (Dir es) root (log w) eq_refl) as (es' & Hc & Hf).
  rewrite Hc. cbn. eauto.
Qed.

(** C4. When no file-system call fails and the cache root is a directory:
    after [clear_cache(delete=True)] the root is absent; after
    [clear_cache(delete=False)] the root is still a directory and no regular
    file is left anywhere below it. In the scenario ([/cache_A] with
    [sources/doc1.txt] and [figures/chart.png]) [clear_cache(delete=False)]
    leaves the root with its two subdirectories emptied, and
    [clear_cache(delete=True)] afterwards completes without an exception and
    leaves the root absent. *)
Theorem clear_cache_root_after (w : world) (root : string) (es : entries) (verbose : bool)
    (Hkey : session_state w !! "CACHE_DIR" = Some root)
    (Hdir : cache w = Some (Dir es)) :
  ((clear_cache no_failure true verbose w).1 = Ok tt /\
   cache (clear_cache no_failure true verbose w).2 = None) /\
  ((clear_cache no_failure false verbose w).1 = Ok tt /\
   exists es', cache (clear_cache no_failure false verbose w).2 = Some (Dir es')
               /\ has_file_entries es' = false) /\
  (let first := clear_cache no_failure false false cache_A_world in
   let second := clear_cache no_failure true false first.2 in
   first.1 = Ok tt /\
   cache first.2 = Some (Dir (Entry "sources" (Dir Nil) (Entry "figures" (Dir Nil) Nil))) /\
   has_file_entries (Entry "sources" (Dir Nil) (Entry "figures" (Dir Nil) Nil)) = false /\
   second.1 = Ok tt /\
   cache second.2 = None).
Proof.
  split; [now apply (clear_cache_delete_no_failure w root es)|].
  split; [now apply (clear_cache_keep_no_failure w root es)|].
  vm_compute. repeat split.
Qed.

Lemma clear_cache_root_after_witness :
  ((clear_cache no_failure true false cache_A_world).1 = Ok tt /\
   cache (clear_cache no_failure true false cache_A_world).2 = None) /\
  ((clear_cache no_failure false false cache_A_world).1 = Ok tt /\
   exists es', cache (clear_cache no_failure false false cache_A_world).2 = Some (Dir es')
               /\ has_file_entries es' = false) /\
  (let first := clear_cache no_failure false false cache_A_world in
   let second := clear_cache no_failure true false first.2 in
   first.1 = Ok tt /\
   cache first.2 = Some (Dir (Entry "sources" (Dir Nil) (Entry "figures" (Dir Nil) Nil))) /\
   has_file_entries (Entry "sources" (Dir Nil) (Entry "figures" (Dir Nil) Nil)) = false /\
   second.1 = Ok tt /\
   cache second.2 = None).
Proof.
  apply (clear_cache_root_after cache_A_world "/cache_A"
           (Entry "sources" (Dir (Entry "doc1.txt" File Nil))
              (Entry "figures" (Dir (Entry "chart.png" File Nil)) Nil)) false).
  - reflexivity.
  - reflexivity.
Defined.

(** ** Failures are caught and logged *)




Lemma try_except_ok {S : Type} (body : result unit * S) (handler : exn -> S -> S) :
  (try_except body handler).1 = Ok tt.
Proof. destruct body as [[[]|e] s]; reflexivity. Qed.

Section Failures.

Variable fails : syscall -> string -> bool.


Lemma clear_directory_node_ok (d : string) (ds : bool) (n : node) (lg : list log_entry) :
  (clear_directory_node fails d ds n lg).1 = Ok tt.
Proof. destruct n; apply try_except_ok. Qed.

Lemma clear_directory_ok (d : string) (ds : bool) (o : option node) (lg : list log_entry) :
  (clear_directory fails d ds o lg).1 = Ok tt.
Proof.
  destruct o as [n|]; simpl; [|reflexivity].
  pose proof (clear_directory_node_ok d ds n lg) as H.
  destruct (clear_directory_node fails d ds n lg) as [r [n' lg']]. exact H.
Qed.


End Failures.







(** ** [clear_directory]: one failure does not stop the others *)

Section Isolation.

Variable fails : syscall -> string -> bool.

Lemma rmtree_leaves_dir (p : string) (n n' : node) (r : result unit) :
  rmtree fails p n = (r, Some n') -> is_dir n = true -> is_dir n' = true.
Proof.
  destruct n as [|es]; simpl; [discriminate|]. intros H _.
  destruct (fails Scandir p); [now inversion H|].
  destruct (rmtree_entries fails p es) as [[u|e] es'].
  - destruct (fails Rmdir p); now inversion H.
  - now inversion H.
Qed.

Lemma clear_directory_node_dir (d : string) (ds : bool) (n : node) (lg : list log_entry) :
  is_dir (clear_directory_node fails d ds n lg).2.1 = is_dir n.
Proof.
  destruct n as [|es]; simpl; [reflexivity|].
  destruct (fails Scandir d); simpl; [reflexivity|].
  destruct (clear_items fails d ds es lg) as [[u|e] [es' lg']]; reflexivity.
Qed.

Lemma clear_keeps_log :
  (forall n d ds lg e,
     e ∈ lg -> e ∈ (clear_directory_node fails d ds n lg).2.2) /\
  (forall es d ds lg e,
     e ∈ lg -> e ∈ (clear_items fails d ds es lg).2.2).
Proof.
  apply node_entries_ind.
  - intros d ds lg e He. simpl. unfold logger_warning. set_solver.
  - intros es IH d ds lg e He. simpl.
    destruct (fails Scandir d); simpl; [unfold logger_warning; set_solver|].
    specialize (IH d ds lg e He).
    destruct (clear_items fails d ds es lg) as [[u|x] [es' lg']]; simpl in *;
      [exact IH|unfold logger_warning; set_solver].
  - intros d ds lg e He. exact He.
  - intros name c IHc rest IHrest d ds lg e He.
    cbn [clear_items]. set (item_path := os_path_join d name).
    destruct c as [|es0].
    + destruct (fails Unlink item_path); simpl.
      * specialize (IHrest d ds (logger_warning (Error_deleting item_path (OSError Unlink item_path)) lg) e).
        destruct (clear_items fails d ds rest _) as [r2 [rest' lg2]]; simpl in *.
        apply IHrest. unfold logger_warning. set_solver.
      * specialize (IHrest d ds lg e He).
        destruct (clear_items fails d ds rest lg) as [r2 [rest' lg2]]; exact IHrest.
    + specialize (IHc item_path ds lg e He).
      pose proof (clear_directory_node_ok fails item_path ds (Dir es0) lg) as Hok.
      destruct (clear_directory_node fails item_path ds (Dir es0) lg) as [r [c' lg']].
      simpl in Hok, IHc. subst r.
      destruct ds.
      * destruct (rmtree fails item_path c') as [[u|x] o]; simpl.
        -- specialize (IHrest d true lg' e IHc).
           destruct (clear_items fails d true rest lg') as [r2 [rest' lg2]]; exact IHrest.
        -- specialize (IHrest d true (logger_warning (Error_deleting item_path x) lg') e).
           destruct (clear_items fails d true rest _) as [r2 [rest' lg2]]; simpl in *.
           apply IHrest. unfold logger_warning. set_solver.
      * simpl. specialize (IHrest d false lg' e IHc).
        destruct (clear_items fails d false rest lg') as [r2 [rest' lg2]]; exact IHrest.
Qed.

End Isolation.

Section IsolationFiles.

Variable fails : syscall -> string -> bool.

Lemma entry_in_keep_dir (name item : string) (o : option node) (rest : entries) :
  (forall c, o = Some c -> is_dir c = true) ->
  entry_in name File (keep item o rest) <-> entry_in name File rest.
Proof.
  intros Hdir. destruct o as [c|]; simpl; [|reflexivity].
  specialize (Hdir c eq_refl). destruct c; [discriminate|].
  split; [intros [[_ [=]]|H]; exact H|auto].
Qed.

(** The regular files left in the directory are those whose removal failed,
    and each of them has its warning in the log. *)
Lemma clear_items_files (d : string) (ds : bool) (es : entries) :
  forall lg,
    let res := clear_items fails d ds es lg in
    (forall name,
       entry_in name File res.2.1 <->
       entry_in name File es /\ fails Unlink (os_path_join d name) = true) /\
    (forall name,
       entry_in name File es -> fails Unlink (os_path_join d name) = true ->
       LogEntry WARNING
         (Error_deleting (os_path_join d name) (OSError Unlink (os_path_join d name)))
         ∈ res.2.2).
Proof.
  induction es as [|item c rest IH]; [simpl; intros; tauto|].
  intros lg. cbn [clear_items]. set (item_path := os_path_join d item).
  destruct c as [|es0].
  - (* a regular file *)
    destruct (fails Unlink item_path) eqn:Hf; simpl.
    + specialize (IH (logger_warning (Error_deleting item_path (OSError Unlink item_path)) lg)).
      pose proof (proj2 (clear_keeps_log fails) rest d ds
                    (logger_warning (Error_deleting item_path (OSError Unlink item_path)) lg))
        as Hkeep.
      destruct (clear_items fails d ds rest _) as [r2 [rest' lg2]]; simpl in *.
      destruct IH as [IHa IHb]. split.
      * intros name. rewrite IHa. split.
        -- intros [[-> _]|[H1 H2]]; auto.
        -- intros [[[-> _]|H1] H2]; auto.
      * intros name [[-> _]|H1] H2; [|now apply IHb].
        apply Hkeep. unfold logger_warning.
        apply elem_of_app. right. now apply list_elem_of_singleton.
    + specialize (IH lg).
      destruct (clear_items fails d ds rest lg) as [r2 [rest' lg2]]; simpl in *.
      destruct IH as [IHa IHb]. split.
      * intros name. rewrite IHa. split.
        -- intros [H1 H2]; auto.
        -- intros [[[-> _]|H1] H2]; [|auto]. unfold item_path in Hf. congruence.
      * intros name [[-> _]|H1] H2; [|now apply IHb].
        unfold item_path in Hf. congruence.
  - (* a subdirectory *)
    pose proof (clear_directory_node_ok fails item_path ds (Dir es0) lg) as Hok.
    pose proof (clear_directory_node_dir fails item_path ds (Dir es0) lg) as Hd.
    destruct (clear_directory_node fails item_path ds (Dir es0) lg) as [r [c' lg']].
    simpl in Hok, Hd. subst r.
    assert (forall o lg1,
              (forall c1, o = Some c1 -> is_dir c1 = true) ->
              let res := clear_items fails d ds rest lg1 in
              (forall name,
                 entry_in name File (keep item o res.2.1) <->
                 (item = name /\ Dir es0 = File \/ entry_in name File rest) /\
                 fails Unlink (os_path_join d name) = true) /\
              (forall name,
                 item = name /\ Dir es0 = File \/ entry_in name File rest ->
                 fails Unlink (os_path_join d name) = true ->
                 LogEntry WARNING
                   (Error_deleting (os_path_join d name)
                      (OSError Unlink (os_path_join d name))) ∈ res.2.2)) as Hstep.
    { intros o lg1 Ho. specialize (IH lg1). cbv zeta in IH |- *.
      destruct IH as [IHa IHb]. split.
      - intros name. rewrite (entry_in_keep_dir name item o _ Ho), IHa.
        split; [intros [H1 H2]; auto|intros [[[_ [=]]|H1] H2]; auto].
      - intros name [[_ [=]]|H1] H2. now apply IHb. }
    destruct ds.
    + destruct (rmtree fails item_path c') as [[u|x] o] eqn:Hrm; simpl.
      * specialize (Hstep o lg').
        destruct (clear_items fails d true rest lg') as [r2 [rest' lg2]]; simpl in *.
        apply Hstep. intros c1 ->. now apply (rmtree_leaves_dir fails _ _ _ _ Hrm).
      * specialize (Hstep o (logger_warning (Error_deleting item_path x) lg')).
        destruct (clear_items fails d true rest _) as [r2 [rest' lg2]]; simpl in *.
        apply Hstep. intros c1 ->. now apply (rmtree_leaves_dir fails _ _ _ _ Hrm).
    + simpl. specialize (Hstep (Some c') lg').
      destruct (clear_items fails d false rest lg') as [r2 [rest' lg2]]; simpl in *.
      apply Hstep. now intros c1 [= <-].
Qed.

End IsolationFiles.

(** C9. In a directory that can be listed, [clear_directory] completes
    whatever removals fail, and every regular file of the directory is removed
    except those whose own removal fails: the files left are exactly the ones
    [os.unlink] failed on, and each failure is logged as a warning of its
    own. *)
Theorem clear_directory_isolates_failures (fails : syscall -> string -> bool)
    (directory : string) (delete_subdirectories : bool) (es : entries)
    (lg : list log_entry)
    (Hscan : fails Scandir directory = false) :
  let res := clear_directory fails directory delete_subdirectories (Some (Dir es)) lg in
  res.1 = Ok tt /\
  exists es',
    res.2.1 = Some (Dir es') /\
    (forall name,
       entry_in name File es' <->
       entry_in name File es /\ fails Unlink (os_path_join directory name) = true) /\
    (forall name,
       entry_in name File es -> fails Unlink (os_path_join directory name) = true ->
       LogEntry WARNING
         (Error_deleting (os_path_join directory name)
            (OSError Unlink (os_path_join directory name))) ∈ res.2.2).
Proof.
  intros res. split; [apply clear_directory_ok|].
  subst res. unfold clear_directory. simpl. rewrite Hscan.
  pose proof (clear_items_files fails directory delete_subdirectories es lg) as H.
  cbv zeta in H.
  destruct (clear_items fails directory delete_subdirectories es lg) as [[u|e] [es' lg']];
    simpl in *; exists es'; (split; [reflexivity|]).
  - exact H.
  - destruct H as [Ha Hb]. split; [exact Ha|].
    intros name H1 H2. unfold logger_warning.
    apply elem_of_app. left. exact (Hb name H1 H2).
Qed.

Lemma clear_directory_isolates_failures_witness :
  let res := clear_directory locked_file "/tmp/d" false (Some (Dir three_files)) [] in
  res.1 = Ok tt /\
  exists es',
    res.2.1 = Some (Dir es') /\
    (forall name,
       entry_in name File es' <->
       entry_in name File three_files /\ locked_file Unlink (os_path_join "/tmp/d" name) = true) /\
    (forall name,
       entry_in name File three_files -> locked_file Unlink (os_path_join "/tmp/d" name) = true ->
       LogEntry WARNING
         (Error_deleting (os_path_join "/tmp/d" name)
            (OSError Unlink (os_path_join "/tmp/d" name))) ∈ res.2.2).
Proof.
  exact (clear_directory_isolates_failures locked_file "/tmp/d" false three_files []
           eq_refl).
Defined.

Example clear_directory_three_files :
  (clear_directory locked_file "/tmp/d" false (Some (Dir three_files)) []).2.1
  = Some (Dir (Entry "locked.txt" File Nil)).
Proof. reflexivity. Qed.

(** ** [delete_all_subdirectories] *)

Section Walk.

Variable fails : syscall -> string -> bool.
Variable exclude : list string.
Variable verbose : bool.

Lemma walk_is_dir (fuel : nat) (top : string) (n : node) (lg : list log_entry) :
  is_dir (walk fails fuel exclude verbose top n lg).1 = is_dir n.
Proof.
  destruct fuel as [|k]; [reflexivity|]. destruct n as [|es]; [reflexivity|].
  simpl. destruct (fails Scandir top); [reflexivity|].
  destruct (delete_dirs fails top exclude verbose es lg) as [es1 lg1].
  destruct (walk_dirs _ top es1 lg1) as [es2 lg2]. reflexivity.
Qed.

Lemma child_keep (name item : string) (o : option node) (rest : entries) :
  child name (keep item o rest) =
  match o with
  | Some c => if bool_decide (item = name) then Some c else child name rest
  | None => child name rest
  end.
Proof. destruct o; reflexivity. Qed.

(** An entry that is a file, or a directory with its path in [exclude], is
    not touched by the loop body. *)
Lemma delete_dirs_child_excluded (root : string) (es : entries) :
  forall lg name c0,
    child name es = Some c0 ->
    (is_dir c0 = true -> os_path_join root name ∈ exclude) ->
    child name (delete_dirs fails root exclude verbose es lg).1 = Some c0.
Proof.
  induction es as [|item c rest IH]; intros lg name c0; simpl; [discriminate|].
  intros Hchild Hex.
  set (step := match c with File => _ | Dir _ => _ end).
  assert (Hstep : item = name -> step.1 = Some c).
  { intros ->. case_bool_decide; [|congruence].
    injection Hchild as ->. subst step. destruct c0 as [|es0]; [reflexivity|].
    case_bool_decide as Hn; [|reflexivity]. exfalso. apply Hn, Hex. reflexivity. }
  destruct step as [remains lg1]. simpl in Hstep.
  specialize (IH lg1 name c0).
  destruct (delete_dirs fails root exclude verbose rest lg1) as [rest' lg2].
  simpl in *. rewrite child_keep.
  case_bool_decide as Hn.
  - rewrite (Hstep Hn) in *. exact Hchild.
  - destruct remains; now apply IH.
Qed.

(** The descent keeps the names and replaces each directory by its walk. *)
Lemma walk_dirs_child
    (walk_sub : string -> node -> list log_entry -> node * list log_entry)
    (top : string) (es : entries) :
  forall lg name,
    exists lg_i,
      child name (walk_dirs walk_sub top es lg).1 =
      match child name es with
      | Some File => Some File
      | Some (Dir es0) => Some (walk_sub (os_path_join top name) (Dir es0) lg_i).1
      | None => None
      end.
Proof.
  induction es as [|item c rest IH]; intros lg name; simpl; [now exists lg|].
  set (step := match c with File => _ | Dir _ => _ end).
  assert (Hstep : exists lg_i, step.1 = match c with
                                        | File => File
                                        | Dir es0 => (walk_sub (os_path_join top item) (Dir es0) lg_i).1
                                        end).
  { subst step. destruct c; exists lg; reflexivity. }
  destruct step as [c' lg1]. simpl in Hstep. destruct Hstep as [lg_i Hc'].
  destruct (IH lg1 name) as [lg_j Hrest].
  destruct (walk_dirs walk_sub top rest lg1) as [rest' lg2]. simpl in *.
  case_bool_decide as Hn.
  - subst item. exists lg_i. rewrite Hc'. destruct c; reflexivity.
  - exists lg_j. exact Hrest.
Qed.

(** An excluded directory reached through excluded directories only is
    still there after the walk, whatever fails. *)
Lemma walk_keeps_excluded (ns : list string) :
  forall fuel directory n lg c,
    descend ns n = Some c -> is_dir c = true ->
    excluded_along directory exclude ns = true ->
    exists c', descend ns (walk fails fuel exclude verbose directory n lg).1 = Some c'
               /\ is_dir c' = true.
Proof.
  induction ns as [|name ns' IH]; intros fuel directory n lg c Hd Hc Hex.
  - simpl in Hd. injection Hd as <-. simpl. eexists. split; [reflexivity|].
    now rewrite walk_is_dir.
  - destruct fuel as [|k]; [simpl (walk _ _ _ _ _ _ _).1; eauto|].
    destruct n as [|es]; [discriminate|].
    simpl in Hd. destruct (child name es) as [c0|] eqn:Hchild; [|discriminate].
    simpl in Hex. apply andb_prop in Hex as [Hin Hex'].
    apply bool_decide_eq_true in Hin.
    simpl. destruct (fails Scandir directory).
    { simpl. rewrite Hchild. eauto. }
    pose proof (delete_dirs_child_excluded directory es lg name c0 Hchild (fun _ => Hin)) as H1.
    destruct (delete_dirs fails directory exclude verbose es lg) as [es1 lg1].
    simpl in H1.
    destruct (walk_dirs_child (walk fails k exclude verbose) directory es1 lg1 name)
      as [lg_i H2].
    destruct (walk_dirs _ directory es1 lg1) as [es2 lg2]. simpl in *.
    rewrite H2, H1.
    destruct c0 as [|es0].
    + destruct ns'; [|discriminate]. simpl in Hd. injection Hd as <-. discriminate.
    + now apply (IH k _ (Dir es0) lg_i c).
Qed.

End Walk.

Section WalkRemoves.

Variable exclude : list string.
Variable verbose : bool.

Lemma entry_in_height (name : string) (c : node) (es : entries) :
  entry_in name c es -> height c <= height_entries es.
Proof.
  induction es as [|item c0 rest IH]; simpl; [tauto|].
  intros [[_ ->]|H]; [lia|]. specialize (IH H). lia.
Qed.

(** When nothing fails, a directory left by the loop body has its path in
    [exclude]. *)
Lemma delete_dirs_child_left (root : string) (es : entries) :
  forall lg name c1,
    child name (delete_dirs no_failure root exclude verbose es lg).1 = Some c1 ->
    is_dir c1 = true ->
    os_path_join root name ∈ exclude /\ entry_in name c1 es.
Proof.
  induction es as [|item c rest IH]; intros lg name c1; simpl; [discriminate|].
  destruct c as [|es0].
  - specialize (IH lg name c1).
    destruct (delete_dirs no_failure root exclude verbose rest lg) as [rest' lg2].
    simpl in *. case_bool_decide as Hn.
    + intros [= <-]. discriminate.
    + intros H1 H2. destruct (IH H1 H2). auto.
  - case_bool_decide as Hex.
    + pose proof (proj1 rmtree_no_failure (Dir es0) (os_path_join root item) eq_refl) as Hrm.
      rewrite Hrm.
      match goal with
      | |- context [delete_dirs no_failure root exclude verbose rest ?l] =>
          specialize (IH l name c1);
          destruct (delete_dirs no_failure root exclude verbose rest l) as [rest' lg2]
      end.
      simpl in *. intros H1 H2. destruct (IH H1 H2). auto.
    + specialize (IH lg name c1).
      destruct (delete_dirs no_failure root exclude verbose rest lg) as [rest' lg2].
      simpl in *. case_bool_decide as Hn.
      * intros [= <-] _. subst item. split; [|auto].
        destruct (decide (os_path_join root name ∈ exclude)); [assumption|contradiction].
      * intros H1 H2. destruct (IH H1 H2). auto.
Qed.

(** When nothing fails and the fuel covers the depth of the tree, every
    directory left below the root is excluded, and so is every directory
    above it up to the root. *)
Lemma walk_leaves_excluded (fuel : nat) :
  forall directory n lg ns c',
    height n <= fuel -> ns <> [] ->
    descend ns (walk no_failure fuel exclude verbose directory n lg).1 = Some c' ->
    is_dir c' = true ->
    excluded_along directory exclude ns = true.
Proof.
  induction fuel as [|k IH]; intros directory n lg ns c' Hh Hns Hd Hc.
  - destruct n; simpl in Hh; lia.
  - destruct ns as [|name ns']; [congruence|].
    destruct n as [|es]; [discriminate|].
    simpl in Hh, Hd.
    pose proof (delete_dirs_child_left directory es lg name) as H1.
    destruct (delete_dirs no_failure directory exclude verbose es lg) as [es1 lg1].
    destruct (walk_dirs_child (walk no_failure k exclude verbose) directory es1 lg1 name)
      as [lg_i H2].
    destruct (walk_dirs _ directory es1 lg1) as [es2 lg2]. simpl in *.
    rewrite H2 in Hd.
    destruct (child name es1) as [[|es0]|] eqn:Hchild; [| |discriminate].
    + destruct ns'; [|discriminate]. simpl in Hd. injection Hd as <-. discriminate.
    + destruct (H1 (Dir es0) eq_refl eq_refl) as [Hin Hentry].
      rewrite bool_decide_eq_true_2 by exact Hin. simpl.
      destruct ns' as [|name' ns'']; [reflexivity|].
      apply (IH _ (Dir es0) lg_i _ c'); auto; try discriminate.
      pose proof (entry_in_height _ _ _ Hentry). lia.
Qed.

End WalkRemoves.

(** C3, as amended. [delete_all_subdirectories] never applies the removal to
    a path of [exclude], but an excluded directory goes with a directory above
    it that is not excluded. So: a directory X of [exclude] survives, whatever
    fails, when every directory between the root and X is in [exclude] too;
    and when nothing fails, every directory left below the root is in
    [exclude] with all the directories between the root and it: the
    subdirectories that are not excluded are removed, and what they hold with
    them. *)
Theorem delete_all_subdirectories_exclusion (fails : syscall -> string -> bool)
    (fuel : nat) (directory : string) (exclude : list string) (verbose : bool)
    (n : node) (lg : list log_entry) (Hfuel : height n <= fuel) :
  (exists n', (delete_all_subdirectories fails fuel directory exclude verbose (Some n) lg).1
              = Some n' /\
     forall ns c,
       descend ns n = Some c -> is_dir c = true ->
       excluded_along directory exclude ns = true ->
       exists c', descend ns n' = Some c' /\ is_dir c' = true) /\
  (exists n', (delete_all_subdirectories no_failure fuel directory exclude verbose (Some n) lg).1
              = Some n' /\
     forall ns c',
       ns <> [] -> descend ns n' = Some c' -> is_dir c' = true ->
       excluded_along directory exclude ns = true).
Proof.
  split.
  - exists (walk fails fuel exclude verbose directory n lg).1. split.
    + simpl. now destruct (walk fails fuel exclude verbose directory n lg).
    + intros ns c. apply walk_keeps_excluded.
  - exists (walk no_failure fuel exclude verbose directory n lg).1. split.
    + simpl. now destruct (walk no_failure fuel exclude verbose directory n lg).
    + intros ns c' Hns Hd Hc. now apply (walk_leaves_excluded exclude verbose fuel directory n lg ns c').
Qed.

Lemma delete_all_subdirectories_exclusion_witness :
  (exists n', (delete_all_subdirectories locked_file 3 "/r" ["/r/a"; "/r/a/b"] false
                 (Some nested_tree) []).1 = Some n' /\
     forall ns c,
       descend ns nested_tree = Some c -> is_dir c = true ->
       excluded_along "/r" ["/r/a"; "/r/a/b"] ns = true ->
       exists c', descend ns n' = Some c' /\ is_dir c' = true) /\
  (exists n', (delete_all_subdirectories no_failure 3 "/r" ["/r/a"; "/r/a/b"] false
                 (Some nested_tree) []).1 = Some n' /\
     forall ns c',
       ns <> [] -> descend ns n' = Some c' -> is_dir c' = true ->
       excluded_along "/r" ["/r/a"; "/r/a/b"] ns = true).
Proof.
  apply (delete_all_subdirectories_exclusion locked_file 3 "/r" ["/r/a"; "/r/a/b"] false
           nested_tree []).
  vm_compute. lia.
Defined.

(** C3 as stated fails: with [/r/a/b] excluded and [/r/a] not, the removal of
    [/r/a] takes [/r/a/b] with it. *)
Lemma nested_excluded_directory_removed :
  path_of "/r" ["a"; "b"] = "/r/a/b" /\
  "/r/a/b" ∈ ["/r/a/b"] /\
  descend ["a"; "b"] nested_tree = Some (Dir Nil) /\
  (delete_all_subdirectories no_failure 3 "/r" ["/r/a/b"] false (Some nested_tree) []).1
  = Some (Dir Nil).
Proof.
  split; [reflexivity|]. split; [apply list_elem_of_singleton; reflexivity|].
  split; reflexivity.
Qed.

Example excluded_chain_is_kept :
  delete_all_subdirectories no_failure 3 "/r" ["/r/a"; "/r/a/b"] false (Some nested_tree) []
  = (Some nested_tree, []).
Proof. vm_compute. reflexivity. Qed.

(** * Properties of the scheduled deletion *)

Module ScheduleFacts.
Import Schedule.

Section Facts.

Variable fails : syscall -> string -> bool.

Lemma get_jobs_tags (t : string) (st st' : state) :
  map tags (jobs st') = map tags (jobs st) ->
  length (get_jobs t st') = length (get_jobs t st).
Proof.
  unfold get_jobs. generalize (jobs st) (jobs st'). clear.
  intros l. induction l as [|j l IH]; intros [|j' l']; simpl; try discriminate; auto.
  intros [= Hj Hl]. rewrite Hj. destruct (bool_decide (t ∈ tags j)); simpl; auto.
Qed.

Lemma delete_temp_dir_returns_none (temp_dir : string) (verbose : bool)
    (o : option node) (lg : list log_entry) :
  (delete_temp_dir fails temp_dir verbose o lg).1 = ReturnsNone.
Proof.
  unfold delete_temp_dir. destruct o as [n|]; [|reflexivity].
  destruct (rmtree fails temp_dir n) as [[u|e] remains]; reflexivity.
Qed.

(** [delete_temp_dir] never returns [CancelJob], so a run keeps every job
    of the scheduler. *)
Lemma run_job_tags (j : job) (st : state) :
  map tags (jobs (run_job fails j st)) = map tags (jobs st).
Proof.
  unfold run_job, job_func.
  pose proof (delete_temp_dir_returns_none (partial_temp_dir j) (partial_verbose j)
                (disk st !! partial_temp_dir j) (slog st)) as Hret.
  destruct (delete_temp_dir fails _ _ _ _) as [ret [o lg]]. simpl in Hret. subst ret.
  simpl. rewrite map_map. apply map_ext. intros k.
  destruct (bool_decide (job_id k = job_id j)); reflexivity.
Qed.

Lemma run_pending_tags (st : state) :
  map tags (jobs (run_pending fails st)) = map tags (jobs st).
Proof.
  unfold run_pending.
  generalize (sorted (List.filter (should_run st) (jobs st))). intros l.
  revert st. induction l as [|j l IH]; intros st; simpl; [reflexivity|].
  rewrite IH. apply run_job_tags.
Qed.

Lemma round_keeps_jobs (t : string) (st : state) :
  length (get_jobs t (sleep 1 (run_pending fails st))) = length (get_jobs t st).
Proof. apply get_jobs_tags. simpl. apply run_pending_tags. Qed.

(** Once a job carries the tag, the loop of the thread never ends. *)
Lemma run_scheduler_never_ends (fuel : nat) :
  forall t st, get_jobs t st <> [] -> run_scheduler fails fuel t st = None.
Proof.
  induction fuel as [|k IH]; intros t st Hjobs; simpl; [reflexivity|].
  destruct (get_jobs t st) as [|j l] eqn:Hg; [congruence|].
  apply IH. intros Hnil.
  pose proof (round_keeps_jobs t st) as Hlen.
  rewrite Hnil, Hg in Hlen. discriminate.
Qed.

Lemma schedule_adds_tagged_job (temp_dir : string) (delay_minutes : Z) (st : state) :
  exists j, tags j = {[ temp_dir ]} ∪ ∅ /\
            List.In j (jobs (schedule_temp_dir_deletion temp_dir delay_minutes st)).
Proof.
  unfold schedule_temp_dir_deletion, every_minutes_do, tag. simpl.
  eexists. split; [|rewrite map_app; apply in_or_app; right; simpl; left;
                    rewrite bool_decide_eq_true_2 by reflexivity; reflexivity].
  reflexivity.
Qed.

Lemma schedule_get_jobs_nonempty (temp_dir : string) (delay_minutes : Z) (st : state) :
  get_jobs temp_dir (schedule_temp_dir_deletion temp_dir delay_minutes st) <> [].
Proof.
  destruct (schedule_adds_tagged_job temp_dir delay_minutes st) as (j & Htags & Hin).
  unfold get_jobs. intros Hnil.
  assert (Hj : List.In j (List.filter (fun j => bool_decide (temp_dir ∈ tags j))
                (jobs (schedule_temp_dir_deletion temp_dir delay_minutes st)))).
  { apply filter_In. split; [exact Hin|]. apply bool_decide_eq_true_2.
    rewrite Htags. apply elem_of_union. left. now apply elem_of_singleton. }
  rewrite Hnil in Hj. exact Hj.
Qed.

Lemma schedule_get_jobs_length (temp_dir : string) (delay_minutes : Z) (st : state) :
  well_formed st ->
  length (get_jobs temp_dir (schedule_temp_dir_deletion temp_dir delay_minutes st))
  = S (length (get_jobs temp_dir st)).
Proof.
  unfold well_formed, schedule_temp_dir_deletion, every_minutes_do, tag, get_jobs.
  cbn [jobs fresh_id]. intros Hwf.
  rewrite map_app, List.filter_app, length_app.
  cbn [map List.filter job_id].
  rewrite (bool_decide_eq_true_2 (fresh_id st = fresh_id st)) by reflexivity.
  cbn [tags].
  rewrite (bool_decide_eq_true_2 (temp_dir ∈ {[temp_dir]} ∪ ∅));
    [|apply elem_of_union; left; now apply elem_of_singleton].
  cbn [length]. rewrite Nat.add_1_r. f_equal.
  induction Hwf as [|j l Hj Hl IH]; [reflexivity|].
  cbn [map List.filter].
  rewrite (bool_decide_eq_false_2 (job_id j = fresh_id st)) by lia.
  destruct (bool_decide (temp_dir ∈ tags j)); cbn [length]; rewrite IH; reflexivity.
Qed.

End Facts.

End ScheduleFacts.

(** C1. The job registered by [schedule_temp_dir_deletion] is never removed
    from the scheduler ([delete_temp_dir] returns [None], never [CancelJob]),
    so the loop of its thread never ends, whatever the number of rounds it is
    given; and the job fires again after every period. With a delay of one
    minute on [/tmp/P], registered at second 1000: the directory is still
    there after 60 rounds, the 61st round (second 1060) removes it, the job is
    still registered, it runs again at second 1120, and a directory created
    again at that path after the first firing is removed by the second. *)
Theorem scheduled_deletion_keeps_firing (fails : syscall -> string -> bool)
    (temp_dir : string) (delay_minutes : Z) (st : Schedule.state)
    (Hdelay : (0 < delay_minutes)%Z) :
  (forall fuel,
     Schedule.run_scheduler fails fuel temp_dir
       (Schedule.schedule_temp_dir_deletion temp_dir delay_minutes st) = None) /\
  (let st1 := Schedule.schedule_temp_dir_deletion "/tmp/P" 1 Schedule.idle in
   let st2 := Schedule.rounds_of_scheduler no_failure 61 st1 in
   let st3 := Schedule.rounds_of_scheduler no_failure 60 st2 in
   let st3' := Schedule.rounds_of_scheduler no_failure 60
                 (Schedule.makedirs "/tmp/P" (Dir Nil) st2) in
   Schedule.disk (Schedule.rounds_of_scheduler no_failure 60 st1) !! "/tmp/P"
   = Some (Dir (Entry "f" File Nil)) /\
   Schedule.disk st2 !! "/tmp/P" = None /\
   map Schedule.last_run (Schedule.get_jobs "/tmp/P" st2) = [Some 1060%Z] /\
   map Schedule.next_run (Schedule.get_jobs "/tmp/P" st2) = [1120%Z] /\
   map Schedule.last_run (Schedule.get_jobs "/tmp/P" st3) = [Some 1120%Z] /\
   Schedule.disk (Schedule.makedirs "/tmp/P" (Dir Nil) st2) !! "/tmp/P" = Some (Dir Nil) /\
   Schedule.disk st3' !! "/tmp/P" = None).
Proof.
  split.
  - intros fuel. apply ScheduleFacts.run_scheduler_never_ends.
    apply ScheduleFacts.schedule_get_jobs_nonempty.
  - vm_compute. repeat split.
Qed.

Lemma scheduled_deletion_keeps_firing_witness :
  (forall fuel,
     Schedule.run_scheduler no_failure fuel "/tmp/P"
       (Schedule.schedule_temp_dir_deletion "/tmp/P" 1 Schedule.idle) = None) /\
  (let st1 := Schedule.schedule_temp_dir_deletion "/tmp/P" 1 Schedule.idle in
   let st2 := Schedule.rounds_of_scheduler no_failure 61 st1 in
   let st3 := Schedule.rounds_of_scheduler no_failure 60 st2 in
   let st3' := Schedule.rounds_of_scheduler no_failure 60
                 (Schedule.makedirs "/tmp/P" (Dir Nil) st2) in
   Schedule.disk (Schedule.rounds_of_scheduler no_failure 60 st1) !! "/tmp/P"
   = Some (Dir (Entry "f" File Nil)) /\
   Schedule.disk st2 !! "/tmp/P" = None /\
   map Schedule.last_run (Schedule.get_jobs "/tmp/P" st2) = [Some 1060%Z] /\
   map Schedule.next_run (Schedule.get_jobs "/tmp/P" st2) = [1120%Z] /\
   map Schedule.last_run (Schedule.get_jobs "/tmp/P" st3) = [Some 1120%Z] /\
   Schedule.disk (Schedule.makedirs "/tmp/P" (Dir Nil) st2) !! "/tmp/P" = Some (Dir Nil) /\
   Schedule.disk st3' !! "/tmp/P" = None).
Proof.
  apply (scheduled_deletion_keeps_firing no_failure "/tmp/P" 1 Schedule.idle).
  lia.
Defined.

(** C2, as amended. Every call of [schedule_temp_dir_deletion] registers one
    more job carrying the path as its tag, whatever jobs the path has already:
    the tag makes the jobs of a path retrievable, it does not prevent a second
    one. *)
Theorem schedule_registers_one_more_job (temp_dir : string) (delay_minutes : Z)
    (st : Schedule.state)
    (Hdelay : (0 < delay_minutes)%Z)
    (Hwf : Schedule.well_formed st) :
  length (Schedule.get_jobs temp_dir
            (Schedule.schedule_temp_dir_deletion temp_dir delay_minutes st))
  = S (length (Schedule.get_jobs temp_dir st)).
Proof. now apply ScheduleFacts.schedule_get_jobs_length. Qed.

Lemma schedule_registers_one_more_job_witness :
  length (Schedule.get_jobs "/tmp/P"
            (Schedule.schedule_temp_dir_deletion "/tmp/P" 5
               (Schedule.schedule_temp_dir_deletion "/tmp/P" 5 Schedule.idle)))
  = S (length (Schedule.get_jobs "/tmp/P"
                 (Schedule.schedule_temp_dir_deletion "/tmp/P" 5 Schedule.idle))).
Proof.
  apply (schedule_registers_one_more_job "/tmp/P" 5
           (Schedule.schedule_temp_dir_deletion "/tmp/P" 5 Schedule.idle)).
  - lia.
  - repeat constructor.
Defined.

(** C2 as stated fails: two calls with the same path leave two jobs for it. *)
Lemma same_path_scheduled_twice :
  length (Schedule.get_jobs "/tmp/P"
            (Schedule.schedule_temp_dir_deletion "/tmp/P" 5
               (Schedule.schedule_temp_dir_deletion "/tmp/P" 5 Schedule.idle))) = 2.
Proof. vm_compute. reflexivity. Qed.

(** * Properties of the output-saving helper *)

Module OutputFacts.
Import Output.

Section Facts.

Variable fails : syscall -> string -> bool.
Variable str_other : pyval -> string.
Variable frame_plus : pyval -> string -> result pyval.

Lemma check_inputs_set (elems : list pyval) (save_path user_request : pyval) (st : state) :
  check_inputs (PSet elems) save_path user_request st = (Raise TypeError, st).
Proof. reflexivity. Qed.

Lemma check_inputs_passed (response save_path user_request : pyval) (st st' : state) :
  check_inputs response save_path user_request st = (Ok tt, st') ->
  isinstance response [str; list_; dict; tuple; Series; DataFrame] = true.
Proof.
  unfold check_inputs.
  destruct (isinstance response [str; list_; dict; tuple; Series; DataFrame]);
    [reflexivity|discriminate].
Qed.

Lemma accepted_is_not_set (response : pyval) :
  isinstance response [str; list_; dict; tuple; Series; DataFrame] = true ->
  isinstance response [set] = false.
Proof. destruct response; simpl; intros H; first [reflexivity | discriminate H]. Qed.

Lemma tuple_response_raises (e : pyval) (elems : list pyval) (filename : string)
    (user_request : option string) (st : state) :
  fails Open filename = false ->
  save_output_callback fails str_other frame_plus (PTuple (e :: elems)) (PStr filename)
    (to_pyval user_request) st
  = (Raise TypeError, preamble filename user_request st).
Proof.
  intros Hopen.
  unfold save_output_callback, preamble, bind, check_inputs, append_text.
  destruct user_request as [req|]; simpl; rewrite Hopen; simpl.
  - rewrite !lookup_insert_eq. simpl. rewrite !insert_insert_eq. reflexivity.
  - reflexivity.
Qed.

Lemma raises_bind_r {A B} (m : M A) (k : A -> M B) (st : state) :
  (forall a st', raises (k a st').1 = true) -> raises (bind m k st).1 = true.
Proof.
  intros Hk. unfold bind. destruct (m st) as [[a|x] st']; [apply Hk|reflexivity].
Qed.

Lemma raises_bind_l {A B} (m : M A) (k : A -> M B) (st : state) :
  raises (m st).1 = true -> raises (bind m k st).1 = true.
Proof.
  unfold bind. destruct (m st) as [[a|x] st']; [discriminate|reflexivity].
Qed.

Lemma tuple_response_never_completes (e : pyval) (elems : list pyval)
    (save_path user_request : pyval) (st : state) :
  raises (save_output_callback fails str_other frame_plus (PTuple (e :: elems))
            save_path user_request st).1 = true.
Proof.
  unfold save_output_callback.
  apply raises_bind_r. intros _ st1.
  apply raises_bind_r. intros _ st2.
  apply raises_bind_r. intros _ st3.
  apply raises_bind_l. reflexivity.
Qed.

End Facts.

End OutputFacts.

(** C8. The tuple branch of [save_output_callback] is defective. Its loop
    passes [response + '\n'] to [save_simple_output] where the branch for a
    list passes [elem + '\n']: the loop variable is not used, and a tuple
    added to a string raises [TypeError]. So for a tuple with at least one
    element nothing of the response is written, neither an element nor the
    whole tuple: when the file can be opened, the exception reaches the
    caller after the opening blank line and the user request were appended,
    and before the closing blank line; in every case the call ends with an
    exception. *)
Theorem tuple_response_raises_type_error (fails : syscall -> string -> bool)
    (str_other : Output.pyval -> string)
    (frame_plus : Output.pyval -> string -> result Output.pyval)
    (e : Output.pyval) (elems : list Output.pyval) (filename : string)
    (user_request : option string) (st : Output.state)
    (Hopen : fails Open filename = false) :
  Output.save_output_callback fails str_other frame_plus (Output.PTuple (e :: elems))
    (Output.PStr filename) (Output.to_pyval user_request) st
  = (Raise TypeError, Output.preamble filename user_request st) /\
  (forall save_path request st',
     raises (Output.save_output_callback fails str_other frame_plus
               (Output.PTuple (e :: elems)) save_path request st').1 = true).
Proof.
  split.
  - now apply OutputFacts.tuple_response_raises.
  - intros. apply OutputFacts.tuple_response_never_completes.
Qed.

Lemma tuple_response_raises_type_error_witness :
  Output.save_output_callback no_failure (fun _ => EmptyString) (fun _ _ => Raise TypeError)
    (Output.PTuple [Output.PStr "a"; Output.PStr "b"])
    (Output.PStr "out.txt") (Output.to_pyval (Some "request")) (Output.State ∅ [])
  = (Raise TypeError, Output.preamble "out.txt" (Some "request") (Output.State ∅ [])) /\
  (forall save_path request st',
     raises (Output.save_output_callback no_failure (fun _ => EmptyString)
               (fun _ _ => Raise TypeError)
               (Output.PTuple [Output.PStr "a"; Output.PStr "b"]) save_path request st').1
     = true).
Proof.
  apply (tuple_response_raises_type_error no_failure (fun _ => EmptyString)
           (fun _ _ => Raise TypeError) (Output.PStr "a") [Output.PStr "b"] "out.txt"
           (Some "request") (Output.State ∅ [])).
  reflexivity.
Defined.

(** The failing input of C8: for the tuple [("a", "b")] the file receives
    the opening blank line only, neither the tuple nor an element, and the
    call raises. *)
Lemma tuple_response_not_written :
  Output.save_output_callback no_failure (fun _ => EmptyString) (fun _ _ => Raise TypeError)
    (Output.PTuple [Output.PStr "a"; Output.PStr "b"])
    (Output.PStr "out.txt") Output.PNone (Output.State ∅ [])
  = (Raise TypeError, Output.State {[ "out.txt" := Output.blank_line ]} []).
Proof. vm_compute. reflexivity. Qed.

(** C10. For a set response [save_output_callback] raises [TypeError] at its
    input check, before anything is written; a response that passes the check
    is never a set, so the conversion of a set to a list further down is never
    taken. *)
Theorem set_response_rejected (fails : syscall -> string -> bool)
    (str_other : Output.pyval -> string)
    (frame_plus : Output.pyval -> string -> result Output.pyval)
    (elems : list Output.pyval) (save_path user_request : Output.pyval)
    (st : Output.state) :
  Output.check_inputs (Output.PSet elems) save_path user_request st = (Raise TypeError, st) /\
  Output.save_output_callback fails str_other frame_plus (Output.PSet elems)
    save_path user_request st = (Raise TypeError, st) /\
  (forall response path request st0 st',
     Output.check_inputs response path request st0 = (Ok tt, st') ->
     Output.isinstance response [Output.set] = false).
Proof.
  split; [reflexivity|]. split; [reflexivity|].
  intros response path request st0 st' Hcheck.
  apply OutputFacts.accepted_is_not_set.
  exact (OutputFacts.check_inputs_passed response path request st0 st' Hcheck).
Qed.

(** * Properties of the session cache root *)

Module StrFacts.

Lemma app_cons (x : ascii) (s t : string) : String x s +:+ t = String x (s +:+ t).
Proof. reflexivity. Qed.

Lemma app_nil_l (s : string) : EmptyString +:+ s = s.
Proof. reflexivity. Qed.

Lemma app_nil_r (s : string) : s +:+ EmptyString = s.
Proof. induction s as [|a s IH]; [reflexivity|]. now rewrite app_cons, IH. Qed.

Lemma app_assoc (a b c : string) : (a +:+ b) +:+ c = a +:+ (b +:+ c).
Proof. induction a as [|x a IH]; [reflexivity|]. now rewrite !app_cons, IH. Qed.

Lemma length_app (a b : string) :
  String.length (a +:+ b) = String.length a + String.length b.
Proof. induction a as [|x a IH]; [reflexivity|]. rewrite app_cons. simpl. now rewrite IH. Qed.

Lemma app_inv_head (p a b : string) : p +:+ a = p +:+ b -> a = b.
Proof.
  induction p as [|x p IH]; [auto|]. rewrite !app_cons. intros [= H]. auto.
Qed.

Lemma split_nonempty (sep : ascii) (s : string) : Str.split sep s <> [].
Proof.
  destruct s as [|a s]; simpl; [discriminate|].
  destruct (bool_decide (a = sep)); [discriminate|].
  destruct (Str.split sep s); discriminate.
Qed.

(** [(a + sep + b).split(sep) = a.split(sep) + b.split(sep)]. *)
Lemma split_app_sep (sep : ascii) (a b : string) :
  Str.split sep (a +:+ String sep b) = Str.split sep a ++ Str.split sep b.
Proof.
  induction a as [|x a IH]; [rewrite app_nil_l|rewrite app_cons]; simpl.
  - rewrite bool_decide_eq_true_2 by reflexivity. reflexivity.
  - destruct (bool_decide (x = sep)); [now rewrite IH|].
    rewrite IH. pose proof (split_nonempty sep a) as Hne.
    destruct (Str.split sep a) as [|w ws]; [congruence|reflexivity].
Qed.

Lemma split_no_sep (sep : ascii) (s : string) :
  Str.contains sep s = false -> Str.split sep s = [s].
Proof.
  induction s as [|x s IH]; simpl; [reflexivity|].
  intros H. apply orb_false_elim in H as [Hx Hs].
  rewrite Hx, (IH Hs). reflexivity.
Qed.

Lemma join_snoc (sep : string) (parts : list string) (c : string) :
  Str.join sep (parts ++ [c]) = Session.join_before sep parts +:+ c.
Proof.
  induction parts as [|w ws IH]; [reflexivity|].
  destruct ws as [|w' ws'].
  - simpl. now rewrite !app_assoc.
  - change (Str.join sep ((w :: w' :: ws') ++ [c]))
      with (w +:+ sep +:+ Str.join sep ((w' :: ws') ++ [c])).
    rewrite IH. unfold Session.join_before.
    change (Str.join sep (w :: w' :: ws')) with (w +:+ sep +:+ Str.join sep (w' :: ws')).
    now rewrite !app_assoc.
Qed.

Lemma prefix_empty (s : string) : String.prefix EmptyString s = true.
Proof. destruct s; reflexivity. Qed.

Lemma prefix_short (p a b : string) :
  String.length p <= String.length a ->
  String.prefix p (a +:+ b) = String.prefix p a.
Proof.
  revert a. induction p as [|x p IH]; intros a Hlen; [now rewrite !prefix_empty|].
  destruct a as [|y a]; simpl in Hlen; [lia|]. rewrite app_cons. simpl.
  destruct (ascii_dec x y); [|reflexivity]. apply IH. lia.
Qed.

Lemma prefix_app_head (p a b : string) :
  String.prefix (p +:+ a) (p +:+ b) = String.prefix a b.
Proof.
  induction p as [|x p IH]; [reflexivity|]. rewrite !app_cons. simpl.
  destruct (ascii_dec x x); [exact IH|congruence].
Qed.

Lemma prefix_same_length (a b : string) :
  String.prefix a b = true -> String.length a = String.length b -> a = b.
Proof.
  revert b. induction a as [|x a IH]; intros [|y b]; simpl; try discriminate; auto.
  destruct (ascii_dec x y) as [->|]; [|discriminate].
  intros Hp [= Hl]. now rewrite (IH b Hp Hl).
Qed.

Lemma endswith_app (c : ascii) (a b : string) :
  b <> EmptyString -> Str.endswith c (a +:+ b) = Str.endswith c b.
Proof.
  intros Hb. induction a as [|x a IH]; [reflexivity|].
  rewrite app_cons.
  destruct (a +:+ b) as [|y s] eqn:Hab.
  - destruct a; [rewrite app_nil_l in Hab; congruence|rewrite app_cons in Hab; discriminate].
  - simpl in *. exact IH.
Qed.

Lemma contains_app (c : ascii) (a b : string) :
  Str.contains c (a +:+ b) = Str.contains c a || Str.contains c b.
Proof.
  induction a as [|x a IH]; [reflexivity|]. rewrite app_cons. simpl.
  rewrite IH. now rewrite orb_assoc.
Qed.

Lemma os_path_join_relative (a b : string) :
  Str.startswith Str.slash b = false ->
  os_path_join a b = (a +:+ Session.separator a) +:+ b.
Proof.
  intros Hb. unfold os_path_join, Session.separator. rewrite Hb.
  destruct (bool_decide (a = EmptyString) || Str.endswith Str.slash a).
  - now rewrite app_nil_r.
  - now rewrite app_assoc.
Qed.

End StrFacts.

Module SessionFacts.
Import Session StrFacts.

Lemma app_eq_nil_r (a b : string) : a +:+ b = EmptyString -> b = EmptyString.
Proof. destruct a; [auto|]. rewrite app_cons. discriminate. Qed.

Lemma startswith_app (c : ascii) (a b : string) :
  a <> EmptyString -> Str.startswith c (a +:+ b) = Str.startswith c a.
Proof. destruct a; [congruence|]. reflexivity. Qed.

Lemma normpath_step_plain (initial : nat) (stack : list string) (c : string) :
  c <> EmptyString -> c <> "." -> c <> ".." ->
  normpath_step initial stack c = stack ++ [c].
Proof.
  intros H1 H2 H3. unfold normpath_step.
  rewrite (bool_decide_eq_false_2 (c = EmptyString)) by exact H1.
  rewrite (bool_decide_eq_false_2 (c = ".")) by exact H2.
  rewrite (bool_decide_eq_false_2 (c = "..")) by exact H3.
  reflexivity.
Qed.

Lemma initial_slashes_app (a b : string) :
  3 <= String.length a -> initial_slashes (a +:+ b) = initial_slashes a.
Proof.
  intros Hlen. unfold initial_slashes, starts_with.
  rewrite !prefix_short by (simpl; lia). reflexivity.
Qed.

(** Normalising a path that ends in a plain name keeps the name. *)
Lemma normpath_last_component (q c : string) :
  3 <= String.length q ->
  Str.contains Str.slash c = false -> c <> EmptyString -> c <> "." -> c <> ".." ->
  normpath (q +:+ String Str.slash c) = norm_before q +:+ c.
Proof.
  intros Hlen Hc H1 H2 H3. unfold normpath, norm_before.
  rewrite bool_decide_eq_false_2
    by (intros Hnil; apply app_eq_nil_r in Hnil; discriminate).
  rewrite (initial_slashes_app q _ Hlen).
  rewrite split_app_sep, (split_no_sep _ _ Hc), foldl_snoc.
  rewrite (normpath_step_plain _ _ _ H1 H2 H3), join_snoc.
  rewrite <- app_assoc.
  rewrite bool_decide_eq_false_2; [reflexivity|].
  intros Hnil. apply app_eq_nil_r in Hnil. contradiction.
Qed.

Lemma join_rel_length (kit_dir : string) : 3 <= String.length (os_path_join kit_dir rel).
Proof.
  rewrite (os_path_join_relative kit_dir rel eq_refl), length_app.
  change (String.length rel) with 39. lia.
Qed.

Lemma join_rel_open (kit_dir : string) :
  separator (os_path_join kit_dir rel) = "/".
Proof.
  unfold separator.
  rewrite (os_path_join_relative kit_dir rel eq_refl).
  rewrite (endswith_app _ _ rel) by discriminate.
  rewrite bool_decide_eq_false_2; [reflexivity|].
  intros Hnil. apply app_eq_nil_r in Hnil. discriminate.
Qed.

(** The production cache root is a fixed string followed by [cache_] and
    the session identifier. *)
Lemma prod_cache_dir (kit_dir cwd id : string) :
  Str.contains Str.slash id = false ->
  abspath cwd (os_path_join (os_path_join kit_dir rel) ("cache_" +:+ id))
  = root_before kit_dir cwd +:+ "cache_" +:+ id.
Proof.
  intros Hid.
  set (q := os_path_join kit_dir rel).
  set (c := "cache_" +:+ id).
  assert (Hc : Str.contains Str.slash c = false).
  { unfold c. rewrite contains_app, Hid. reflexivity. }
  assert (Hq : q <> EmptyString).
  { intros Hnil. pose proof (join_rel_length kit_dir) as Hl. fold q in Hl.
    rewrite Hnil in Hl. simpl in Hl. lia. }
  assert (Hjoin : os_path_join q c = q +:+ String Str.slash c).
  { rewrite (os_path_join_relative q c eq_refl). unfold q at 2.
    rewrite join_rel_open. fold q. now rewrite app_assoc. }
  unfold abspath, root_before. fold rel. fold q. rewrite Hjoin.
  rewrite (startswith_app _ q _ Hq).
  destruct (Str.startswith Str.slash q) eqn:Habs.
  - apply normpath_last_component; try discriminate; auto.
    apply join_rel_length.
  - rewrite os_path_join_relative
      by (rewrite (startswith_app _ q _ Hq); exact Habs).
    rewrite <- app_assoc.
    apply normpath_last_component; try discriminate; auto.
    rewrite length_app. pose proof (join_rel_length kit_dir) as Hl. fold q in Hl. lia.
Qed.

Lemma derive_lookup_other (key base name k : string) (s : gmap string string) :
  key <> k -> derive key base name s !! k = s !! k.
Proof. intros Hne. unfold derive. now rewrite lookup_insert_ne. Qed.

(** The derived paths leave the cache root as it was chosen. *)
Lemma cache_root_chosen (kit_dir cwd id : string) (prod_mode : bool)
    (cache_dir : option string) :
  cache_root kit_dir cwd id prod_mode cache_dir
  = set_cache_dir kit_dir cwd id prod_mode cache_dir ∅ !! "CACHE_DIR".
Proof.
  unfold cache_root, initialize_session.
  rewrite lookup_insert_ne by discriminate.
  rewrite !derive_lookup_other by discriminate.
  reflexivity.
Qed.

Lemma cache_root_prod (kit_dir cwd id : string) :
  cache_root kit_dir cwd id true None
  = Some (abspath cwd (os_path_join (os_path_join kit_dir rel) ("cache_" +:+ id))).
Proof.
  rewrite cache_root_chosen. unfold set_cache_dir, item.
  rewrite lookup_empty. rewrite (lookup_insert_ne ∅ "SESSION_ID" "CACHE_DIR") by discriminate.
  rewrite lookup_empty. rewrite lookup_insert_eq.
  rewrite lookup_insert_ne by discriminate. rewrite lookup_insert_eq.
  reflexivity.
Qed.

Lemma cache_root_default (kit_dir cwd id : string) :
  cache_root kit_dir cwd id false None = Some (os_path_join kit_dir "streamlit/cache").
Proof.
  rewrite cache_root_chosen. unfold set_cache_dir, item.
  rewrite lookup_empty. rewrite (lookup_insert_ne ∅ "SESSION_ID" "CACHE_DIR") by discriminate.
  rewrite lookup_empty. rewrite lookup_insert_eq. reflexivity.
Qed.

Lemma cache_root_explicit (kit_dir cwd id dir : string) (prod_mode : bool) :
  cache_root kit_dir cwd id prod_mode (Some dir) = Some dir.
Proof.
  rewrite cache_root_chosen. unfold set_cache_dir, item.
  rewrite lookup_empty. rewrite (lookup_insert_ne ∅ "SESSION_ID" "CACHE_DIR") by discriminate.
  rewrite lookup_empty. rewrite lookup_insert_eq. reflexivity.
Qed.

Lemma all_chars_no_slash (s : string) :
  all_chars uuid_char s = true -> Str.contains Str.slash s = false.
Proof.
  induction s as [|a s IH]; simpl; [reflexivity|].
  intros H. apply andb_prop in H as [Ha Hs]. rewrite (IH Hs), orb_false_r.
  apply bool_decide_eq_false_2. intros ->. discriminate Ha.
Qed.

Lemma uuid_shaped_facts (s : string) :
  uuid_shaped s = true -> String.length s = 36 /\ Str.contains Str.slash s = false.
Proof.
  unfold uuid_shaped. intros H. apply andb_prop in H as [Hl Hc].
  split; [now apply Nat.eqb_eq|now apply all_chars_no_slash].
Qed.

End SessionFacts.

(** C7, as amended. In production mode and without an explicit cache
    directory, the cache roots [initialize_session] derives for two new
    sessions with different identifiers (identifiers as [str(uuid4())] makes
    them) are different, and neither is a prefix of the other: each is one
    common string followed by [cache_] and the identifier. Outside production
    mode, or with an explicit cache directory, the root does not depend on
    the identifier. *)
Theorem production_cache_roots_distinct (kit_dir cwd : string) (id1 id2 : string)
    (Hid1 : Session.uuid_shaped id1 = true)
    (Hid2 : Session.uuid_shaped id2 = true)
    (Hne : id1 <> id2) :
  (exists r1 r2,
     Session.cache_root kit_dir cwd id1 true None = Some r1 /\
     Session.cache_root kit_dir cwd id2 true None = Some r2 /\
     r1 = Session.root_before kit_dir cwd +:+ "cache_" +:+ id1 /\
     r2 = Session.root_before kit_dir cwd +:+ "cache_" +:+ id2 /\
     r1 <> r2 /\
     String.prefix r1 r2 = false /\
     String.prefix r2 r1 = false) /\
  Session.cache_root kit_dir cwd id1 false None = Session.cache_root kit_dir cwd id2 false None /\
  (forall dir prod_mode,
     Session.cache_root kit_dir cwd id1 prod_mode (Some dir)
     = Session.cache_root kit_dir cwd id2 prod_mode (Some dir)).
Proof.
  destruct (SessionFacts.uuid_shaped_facts id1 Hid1) as [Hl1 Hs1].
  destruct (SessionFacts.uuid_shaped_facts id2 Hid2) as [Hl2 Hs2].
  split; [|split].
  - exists (Session.root_before kit_dir cwd +:+ "cache_" +:+ id1),
           (Session.root_before kit_dir cwd +:+ "cache_" +:+ id2).
    rewrite !SessionFacts.cache_root_prod, !SessionFacts.prod_cache_dir by assumption.
    repeat split.
    + intros Heq. apply StrFacts.app_inv_head in Heq.
      apply (StrFacts.app_inv_head "cache_") in Heq. contradiction.
    + rewrite StrFacts.prefix_app_head, (StrFacts.prefix_app_head "cache_").
      destruct (String.prefix id1 id2) eqn:Hp; [|reflexivity].
      exfalso. apply Hne. apply StrFacts.prefix_same_length; [exact Hp|congruence].
    + rewrite StrFacts.prefix_app_head, (StrFacts.prefix_app_head "cache_").
      destruct (String.prefix id2 id1) eqn:Hp; [|reflexivity].
      exfalso. apply Hne. symmetry.
      apply StrFacts.prefix_same_length; [exact Hp|congruence].
  - now rewrite !SessionFacts.cache_root_default.
  - intros dir prod_mode. now rewrite !SessionFacts.cache_root_explicit.
Qed.

Lemma production_cache_roots_distinct_witness :
  (exists r1 r2,
     Session.cache_root "/app/kit/financial_assistant" "/home/user" session_1 true None = Some r1 /\
     Session.cache_root "/app/kit/financial_assistant" "/home/user" session_2 true None = Some r2 /\
     r1 = Session.root_before "/app/kit/financial_assistant" "/home/user" +:+ "cache_" +:+ session_1 /\
     r2 = Session.root_before "/app/kit/financial_assistant" "/home/user" +:+ "cache_" +:+ session_2 /\
     r1 <> r2 /\
     String.prefix r1 r2 = false /\
     String.prefix r2 r1 = false) /\
  Session.cache_root "/app/kit/financial_assistant" "/home/user" session_1 false None
  = Session.cache_root "/app/kit/financial_assistant" "/home/user" session_2 false None /\
  (forall dir prod_mode,
     Session.cache_root "/app/kit/financial_assistant" "/home/user" session_1 prod_mode (Some dir)
     = Session.cache_root "/app/kit/financial_assistant" "/home/user" session_2 prod_mode (Some dir)).
Proof.
  apply (production_cache_roots_distinct "/app/kit/financial_assistant" "/home/user"
           session_1 session_2).
  - reflexivity.
  - reflexivity.
  - discriminate.
Defined.

Example production_cache_root_of_session_1 :
  Session.cache_root "/app/kit/financial_assistant" "/home/user" session_1 true None
  = Some "/app/scratch/financial_assistant/cache/cache_123e4567-e89b-42d3-a456-426614174000".
Proof. vm_compute. reflexivity. Qed.

(** C7 as stated fails: outside production mode two sessions with different
    identifiers get the same cache root. *)
Lemma default_cache_root_shared :
  session_1 <> session_2 /\
  Session.cache_root "/app/kit/financial_assistant" "/home/user" session_1 false None
  = Some "/app/kit/financial_assistant/streamlit/cache" /\
  Session.cache_root "/app/kit/financial_assistant" "/home/user" session_2 false None
  = Some "/app/kit/financial_assistant/streamlit/cache".
Proof. split; [discriminate|]. split; vm_compute; reflexivity. Qed.

(** * Properties of the cache browser *)

Module PathFacts.
Import StrFacts.

Lemma prefix_cons (a b : ascii) (s t : string) :
  String.prefix (String a s) (String b t)
  = if ascii_dec a b then String.prefix s t else false.
Proof. reflexivity. Qed.

Lemma slashes_S (n : nat) : slashes (S n) = String Str.slash (slashes n).
Proof. reflexivity. Qed.

Lemma prefix_slashes_relative (n : nat) (x : string) :
  Str.startswith Str.slash x = false -> String.prefix (slashes (S n)) x = false.
Proof.
  destruct x as [|b x]; [reflexivity|]. intros Hx.
  apply bool_decide_eq_false_1 in Hx.
  rewrite slashes_S, prefix_cons. destruct (ascii_dec Str.slash b); [congruence|reflexivity].
Qed.

(** A pattern of slashes begins [p + x] as it begins [p], when [x] does not
    start with a slash or [p] does not end with one. *)
Lemma prefix_slashes_app (n : nat) :
  forall p x,
    Str.startswith Str.slash x = false \/ (p <> EmptyString /\ Str.endswith Str.slash p = false) ->
    String.prefix (slashes (S n)) (p +:+ x) = String.prefix (slashes (S n)) p.
Proof.
  induction n as [|n IH]; intros p x Hcond.
  - destruct p as [|a p].
    + destruct Hcond as [Hx|[Hp _]]; [|congruence].
      rewrite app_nil_l. now rewrite (prefix_slashes_relative 0 x Hx).
    + rewrite app_cons, slashes_S, !prefix_cons.
      destruct (ascii_dec Str.slash a); [|reflexivity].
      change (slashes 0) with EmptyString. now rewrite !prefix_empty.
  - destruct p as [|a p].
    + destruct Hcond as [Hx|[Hp _]]; [|congruence].
      rewrite app_nil_l. now rewrite (prefix_slashes_relative (S n) x Hx).
    + rewrite app_cons, (slashes_S (S n)), !prefix_cons.
      destruct (ascii_dec Str.slash a) as [Ha|Ha]; [|reflexivity].
      apply IH. destruct Hcond as [Hx|[_ He]]; [now left|].
      destruct p as [|b p].
      * apply bool_decide_eq_false_1 in He. congruence.
      * right. split; [discriminate|exact He].
Qed.

Lemma separator_cases (p : string) :
  (Session.separator p = EmptyString /\ (p = EmptyString \/ Str.endswith Str.slash p = true)) \/
  (Session.separator p = "/" /\ p <> EmptyString /\ Str.endswith Str.slash p = false).
Proof.
  unfold Session.separator. case_bool_decide as Hp; simpl.
  - left. auto.
  - destruct (Str.endswith Str.slash p); [left|right]; auto.
Qed.

Lemma plain_facts (name : string) :
  Browse.plain name = true ->
  name <> EmptyString /\ name <> "." /\ Str.contains Str.slash name = false
  /\ Str.startswith Str.slash name = false.
Proof.
  unfold Browse.plain. intros H.
  apply andb_prop in H as [H Hs]. apply andb_prop in H as [H1 H2].
  apply negb_true_iff in H1, H2, Hs.
  apply bool_decide_eq_false_1 in H1, H2.
  repeat split; auto.
  destruct name as [|a s]; [reflexivity|]. simpl in *.
  apply orb_false_elim in Hs as [Ha _]. exact Ha.
Qed.

Lemma initial_slashes_join (p name : string) :
  Browse.plain name = true ->
  initial_slashes (os_path_join p name) = initial_slashes p.
Proof.
  intros Hplain. destruct (plain_facts name Hplain) as (_ & _ & _ & Hstart).
  rewrite (os_path_join_relative p name Hstart), app_assoc.
  assert (Hcond : Str.startswith Str.slash (Session.separator p +:+ name) = false
                  \/ (p <> EmptyString /\ Str.endswith Str.slash p = false)).
  { destruct (separator_cases p) as [[-> _]|[_ H]]; [left; exact Hstart|right; exact H]. }
  unfold initial_slashes, starts_with.
  change "///" with (slashes 3). change "//" with (slashes 2). change "/" with (slashes 1).
  now rewrite !prefix_slashes_app by exact Hcond.
Qed.

Lemma endswith_split (c : ascii) (p : string) :
  Str.endswith c p = true -> exists p', p = p' +:+ String c EmptyString.
Proof.
  induction p as [|a p IH]; [discriminate|].
  destruct p as [|b p].
  - simpl. intros H. apply bool_decide_eq_true_1 in H. subst a. now exists EmptyString.
  - intros H. destruct (IH H) as [p' Hp']. exists (String a p').
    now rewrite app_cons, <- Hp'.
Qed.

Lemma path_components_join (p name : string) :
  Browse.plain name = true ->
  path_components (os_path_join p name) = path_components p ++ [name].
Proof.
  intros Hplain. destruct (plain_facts name Hplain) as (Hne & Hdot & Hslash & Hstart).
  assert (Hname : filter (fun c => c <> EmptyString /\ c <> ".") [name] = [name]).
  { rewrite filter_cons_True by auto. reflexivity. }
  assert (Hempty : filter (fun c : string => c <> EmptyString /\ c <> ".") [EmptyString] = []).
  { rewrite filter_cons_False by (intros [H _]; now apply H). reflexivity. }
  rewrite (os_path_join_relative p name Hstart). unfold path_components.
  destruct (separator_cases p) as [[-> [->|Hend]]|[-> _]].
  - rewrite !app_nil_l, (split_no_sep _ _ Hslash). simpl Str.split.
    rewrite Hempty. exact Hname.
  - destruct (endswith_split _ _ Hend) as [p' ->].
    rewrite app_nil_r, app_assoc.
    change (String Str.slash EmptyString +:+ name) with (String Str.slash name).
    rewrite !split_app_sep, (split_no_sep _ _ Hslash), !filter_app, Hname.
    simpl (Str.split Str.slash EmptyString). rewrite Hempty, List.app_nil_r. reflexivity.
  - rewrite app_assoc.
    change ("/" +:+ name) with (String Str.slash name).
    rewrite split_app_sep, (split_no_sep _ _ Hslash), filter_app, Hname. reflexivity.
Qed.

Lemma Path_parts_join (p name : string) :
  Browse.plain name = true ->
  Path_parts (os_path_join p name) = Path_parts p ++ [name].
Proof.
  intros Hplain. unfold Path_parts.
  rewrite (initial_slashes_join p name Hplain), (path_components_join p name Hplain).
  now rewrite List.app_assoc.
Qed.

Lemma startswith_join (p name : string) :
  Browse.plain name = true ->
  Str.startswith Str.slash (os_path_join p name) = Str.startswith Str.slash p.
Proof.
  intros Hplain. destruct (plain_facts name Hplain) as (_ & _ & _ & Hstart).
  rewrite (os_path_join_relative p name Hstart).
  destruct p as [|a p]; [|reflexivity].
  unfold Session.separator. simpl. rewrite !app_nil_l. exact Hstart.
Qed.

(** Joining a plain name keeps a path lexically under its ancestor. *)
Lemma is_relative_to_join (p other name : string) :
  is_relative_to p other = true -> Browse.plain name = true ->
  is_relative_to (os_path_join p name) other = true.
Proof.
  unfold is_relative_to. intros H Hplain.
  apply andb_prop in H as [Hpre Habs].
  apply bool_decide_eq_true_1 in Hpre.
  rewrite (Path_parts_join p name Hplain), (startswith_join p name Hplain), Habs.
  rewrite bool_decide_eq_true_2; [reflexivity|]. now apply prefix_app_r.
Qed.

Lemma is_relative_to_refl (p : string) : is_relative_to p p = true.
Proof.
  unfold is_relative_to. rewrite bool_decide_eq_true_2 by reflexivity. simpl.
  apply negb_true_iff.
  destruct (Str.startswith Str.slash p) eqn:Hs; [|reflexivity]. simpl.
  apply bool_decide_eq_false_2. unfold Path_parts, initial_slashes, starts_with.
  destruct p as [|a p]; [discriminate|].
  apply bool_decide_eq_true_1 in Hs. subst a.
  change "/" with (slashes 1). rewrite slashes_S, prefix_cons.
  destruct (ascii_dec Str.slash Str.slash); [|congruence].
  change (slashes 0) with EmptyString. rewrite prefix_empty.
  destruct (_ && _); discriminate.
Qed.

End PathFacts.

Module BrowseFacts.
Import Browse.

Section Invariant.

Variable listdir : string -> result (list (string * kind)).
Variable readable : string -> bool.
Variable pressed : string -> bool.
Variable default_path : string.
Hypothesis Hplain : plain_names listdir.

Local Abbreviation inv := (Browse.inv default_path).
Local Abbreviation keeps := (Browse.keeps default_path).

Lemma keeps_ret {A} (a : A) (Q : A -> Prop) : Q a -> keeps (ret a) Q.
Proof. intros Ha st Hst. split; [exact Hst|exact Ha]. Qed.

Lemma keeps_raise {A} (e : exn) (Q : A -> Prop) : keeps (raise e) Q.
Proof. intros st Hst. split; [exact Hst|exact I]. Qed.

Lemma keeps_bind {A B} (m : M A) (k : A -> M B) (Q : A -> Prop) (R : B -> Prop) :
  keeps m Q -> (forall a, Q a -> keeps (k a) R) -> keeps (bind m k) R.
Proof.
  intros Hm Hk st Hst. unfold bind.
  destruct (Hm st Hst) as [Hinv Hq].
  destruct (m st) as [[a|e] st']; simpl in *; [|auto].
  exact (Hk a Hq st' Hinv).
Qed.

Lemma keeps_weaken {A} (m : M A) (Q R : A -> Prop) :
  keeps m Q -> (forall a, Q a -> R a) -> keeps m R.
Proof.
  intros Hm HQR st Hst. destruct (Hm st Hst) as [Hinv Hq]. split; [exact Hinv|].
  destruct (m st).1; auto.
Qed.

Lemma keeps_for_each {A} (xs : list A) (body : A -> M unit) (P : A -> Prop) :
  Forall P xs -> (forall x, P x -> keeps (body x) (fun _ => True)) ->
  keeps (for_each xs body) (fun _ => True).
Proof.
  intros Hxs Hbody. induction Hxs as [|x xs Hx Hxs IH]; simpl.
  - now apply keeps_ret.
  - apply (keeps_bind _ _ (fun _ => True)); [now apply Hbody|]. intros _ _. exact IH.
Qed.

Lemma keeps_record (e : event) :
  event_within default_path e = true -> keeps (record e) (fun _ => True).
Proof.
  intros He st [Htrace Hcur]. split; [|exact I]. split; [|exact Hcur].
  simpl. apply Forall_app. split; [exact Htrace|]. now constructor.
Qed.

Lemma keeps_warn (text : string) : keeps (warn text) (fun _ => True).
Proof. intros st Hst. split; [exact Hst|exact I]. Qed.

Lemma keeps_get_current_path :
  keeps get_current_path (fun p => is_relative_to p default_path = true).
Proof. intros st Hst. split; [exact Hst|exact (proj2 Hst)]. Qed.

Lemma keeps_set_current_path (p : string) :
  is_relative_to p default_path = true -> keeps (set_current_path p) (fun _ => True).
Proof. intros Hp st [Htrace _]. split; [|exact I]. split; [exact Htrace|exact Hp]. Qed.

Lemma names_of_plain (k : kind -> bool) (l : list (string * kind)) :
  Forall (fun e => plain e.1 = true) l ->
  Forall (fun name => plain name = true) (names_of k l).
Proof.
  unfold names_of. induction 1 as [|e l He Hl IH]; simpl; [constructor|].
  destruct (k e.2); simpl; [constructor|]; auto.
Qed.

Lemma keeps_list_files_in_directory (directory : string) :
  is_relative_to directory default_path = true ->
  keeps (list_files_in_directory listdir directory)
    (Forall (fun name => plain name = true)).
Proof.
  intros Hdir. unfold list_files_in_directory.
  destruct (listdir directory) as [l|e] eqn:Hl; [|apply keeps_raise].
  apply (keeps_bind _ _ (fun _ => True)); [now apply keeps_record|].
  intros _ _. apply keeps_ret. apply names_of_plain. exact (Hplain _ _ Hl).
Qed.

Lemma keeps_list_directory (directory : string) :
  is_relative_to directory default_path = true ->
  keeps (list_directory listdir directory)
    (fun r => Forall (fun name => plain name = true) r.1 /\
              Forall (fun name => plain name = true) r.2).
Proof.
  intros Hdir. unfold list_directory.
  destruct (listdir directory) as [l|e] eqn:Hl; [|apply keeps_raise].
  apply (keeps_bind _ _ (fun _ => True)); [now apply keeps_record|].
  intros _ _. apply keeps_ret. simpl.
  split; apply names_of_plain; exact (Hplain _ _ Hl).
Qed.

Lemma keeps_download_file (filename : string) :
  is_relative_to filename default_path = true ->
  keeps (download_file readable filename) (fun _ => True).
Proof.
  intros Hf. unfold download_file.
  destruct (bool_decide _); [|now apply keeps_ret].
  destruct (readable filename); [now apply keeps_record|apply keeps_warn].
Qed.

Lemma keeps_browse_subdirectories (display : string -> M unit) (path : string) :
  (forall p, keeps (display p) (fun _ => True)) ->
  is_relative_to path default_path = true ->
  forall subdirectories idx,
    Forall (fun name => plain name = true) subdirectories ->
    keeps (browse_subdirectories listdir readable pressed display path idx subdirectories)
      (fun _ => True).
Proof.
  intros Hdisplay Hpath subdirectories.
  induction subdirectories as [|subdir rest IH]; intros idx Hnames; simpl.
  - now apply keeps_ret.
  - inversion Hnames as [|? ? Hsub Hrest]; subst.
    apply (keeps_bind _ _ (fun _ => True)); [|intros _ _; now apply IH].
    destruct (pressed _); [|now apply keeps_ret].
    apply (keeps_bind _ _ (Forall (fun name => plain name = true))).
    { apply keeps_list_files_in_directory. now apply PathFacts.is_relative_to_join. }
    intros files Hfiles.
    apply (keeps_bind _ _ (fun _ => True)).
    { apply (keeps_for_each _ _ (fun name => plain name = true)); [exact Hfiles|].
      intros file Hfile.
      apply (keeps_bind _ _ (fun p => is_relative_to p default_path = true));
        [apply keeps_get_current_path|].
      intros current Hcurrent. apply keeps_download_file.
      now repeat apply PathFacts.is_relative_to_join. }
    intros _ _.
    apply (keeps_bind _ _ (fun p => is_relative_to p default_path = true));
      [apply keeps_get_current_path|].
    intros current Hcurrent. apply Hdisplay.
Qed.

(** Whatever the path it is called with, a call that starts from the
    invariant keeps it. *)
Lemma keeps_display (depth : nat) :
  forall path,
    keeps (display_directory_contents listdir readable pressed depth default_path path)
      (fun _ => True).
Proof.
  induction depth as [|depth IH]; intros path; simpl; [apply keeps_raise|].
  apply (keeps_bind _ _ (fun p => is_relative_to p default_path = true)).
  { destruct (is_relative_to path default_path) eqn:Hrel; simpl.
    - now apply keeps_ret.
    - apply (keeps_bind _ _ (fun _ => True)).
      + apply keeps_set_current_path, PathFacts.is_relative_to_refl.
      + intros _ _. apply keeps_ret, PathFacts.is_relative_to_refl. }
  intros path' Hpath'.
  apply (keeps_bind _ _ _ _ (keeps_list_directory path' Hpath')).
  intros [subdirectories files] [Hsubs Hfiles]. simpl in Hsubs, Hfiles.
  apply (keeps_bind _ _ (fun _ => True)).
  { now apply keeps_browse_subdirectories. }
  intros _ _.
  apply (keeps_bind _ _ (fun _ => True)).
  { destruct (_ && _); [|now apply keeps_ret].
    apply (keeps_for_each _ _ (fun name => plain name = true)); [exact Hfiles|].
    intros file Hfile. apply keeps_download_file.
    now apply PathFacts.is_relative_to_join. }
  intros _ _. destruct (bool_decide _); [now apply keeps_record|now apply keeps_ret].
Qed.

(** A path that is not lexically under [default_path] is replaced by it,
    and [current_path] with it, before anything is listed. *)
Lemma display_replaces (depth : nat) (path : string) (st : state) :
  is_relative_to path default_path = false ->
  display_directory_contents listdir readable pressed (S depth) default_path path st
  = display_directory_contents listdir readable pressed (S depth) default_path default_path
      (State default_path (trace st) (blog st)).
Proof.
  intros Hrel. simpl.
  rewrite Hrel, PathFacts.is_relative_to_refl. reflexivity.
Qed.

End Invariant.

End BrowseFacts.

(** C6, as amended. The containment check of [display_directory_contents] is
    lexical: a candidate path whose parts do not extend those of the default
    path is replaced by the default path, and [current_path] with it, before
    anything is listed; double dots and links are not resolved. When the
    listing returns plain names, and [current_path] is lexically under the
    default path whenever the candidate is, every path the call lists,
    downloads or recurses into is lexically under the default path. *)
Theorem display_stays_lexically_under_default
    (listdir : string -> result (list (string * Browse.kind)))
    (readable pressed : string -> bool) (default_path : string) (depth : nat)
    (path : string) (st : Browse.state)
    (Hplain : Browse.plain_names listdir)
    (Htrace : Forall (fun e => Browse.event_within default_path e = true) (Browse.trace st))
    (Hcurrent : is_relative_to path default_path = true ->
                is_relative_to (Browse.current_path st) default_path = true) :
  Forall (fun e => Browse.event_within default_path e = true)
    (Browse.trace
       (Browse.display_directory_contents listdir readable pressed depth default_path path st).2)
  /\
  (is_relative_to path default_path = false ->
   Browse.display_directory_contents listdir readable pressed (S depth) default_path path st
   = Browse.display_directory_contents listdir readable pressed (S depth) default_path
       default_path (Browse.State default_path (Browse.trace st) (Browse.blog st))).
Proof.
  split; [|now apply BrowseFacts.display_replaces].
  destruct depth as [|depth]; [exact Htrace|].
  destruct (is_relative_to path default_path) eqn:Hrel.
  - apply (BrowseFacts.keeps_display listdir readable pressed default_path Hplain
             (S depth) path st).
    split; [exact Htrace|now apply Hcurrent].
  - rewrite (BrowseFacts.display_replaces listdir readable pressed default_path depth path st Hrel).
    apply (BrowseFacts.keeps_display listdir readable pressed default_path Hplain
             (S depth) default_path).
    split; [exact Htrace|apply PathFacts.is_relative_to_refl].
Qed.

Lemma cache_and_secret_plain : Browse.plain_names cache_and_secret.
Proof.
  intros p l. unfold cache_and_secret.
  repeat case_bool_decide; intros [= <-]; repeat constructor.
Qed.

Lemma display_stays_lexically_under_default_witness :
  Forall (fun e => Browse.event_within "/cache" e = true)
    (Browse.trace
       (Browse.display_directory_contents cache_and_secret always always 5 "/cache" "/etc"
          (Browse.State "/etc" [] [])).2)
  /\
  (is_relative_to "/etc" "/cache" = false ->
   Browse.display_directory_contents cache_and_secret always always 6 "/cache" "/etc"
     (Browse.State "/etc" [] [])
   = Browse.display_directory_contents cache_and_secret always always 6 "/cache" "/cache"
       (Browse.State "/cache" [] [])).
Proof.
  apply (display_stays_lexically_under_default cache_and_secret always always "/cache" 5
           "/etc" (Browse.State "/etc" [] [])).
  - exact cache_and_secret_plain.
  - constructor.
  - intros H. vm_compute in H. discriminate H.
Defined.

Example display_of_the_cache :
  Browse.trace
    (Browse.display_directory_contents cache_and_secret always always 5 "/cache" "/cache"
       (Browse.State "/cache" [] [])).2
  = [Browse.Listed "/cache"; Browse.Files_listed "/cache/sources";
     Browse.Downloaded "/cache/sources/doc1.txt"; Browse.Listed "/cache/sources";
     Browse.Downloaded "/cache/chat_history.txt"].
Proof. vm_compute. reflexivity. Qed.

(** C6 as stated fails. The candidate [/cache/../secret] passes the check
    although it resolves to [/secret], outside [/cache], and its content is
    listed and downloaded; and with [current_path] at [/etc] the files of a
    subdirectory of the cache are downloaded from under [/etc]. *)
Lemma browsing_leaves_the_default_path :
  is_relative_to "/cache/../secret" "/cache" = true /\
  Session.normpath "/cache/../secret" = "/secret" /\
  Browse.spec_path_is_contained "/cache/../secret" "/cache" = false /\
  Browse.trace
    (Browse.display_directory_contents cache_and_secret always always 5 "/cache"
       "/cache/../secret" (Browse.State "/cache/../secret" [] [])).2
  = [Browse.Listed "/cache/../secret"; Browse.Files_listed "/cache/../secret/keys";
     Browse.Downloaded "/cache/../secret/keys/id.txt";
     Browse.Listed "/cache/../secret/keys"] /\
  Browse.trace
    (Browse.display_directory_contents cache_and_secret always always 5 "/cache"
       "/cache" (Browse.State "/etc" [] [])).2
  = [Browse.Listed "/cache"; Browse.Files_listed "/cache/sources";
     Browse.Downloaded "/etc/sources/doc1.txt"; Browse.Listed "/cache";
     Browse.Files_listed "/cache/sources"; Browse.Downloaded "/cache/sources/doc1.txt";
     Browse.Listed "/cache/sources"; Browse.Downloaded "/cache/chat_history.txt";
     Browse.Downloaded "/cache/chat_history.txt"] /\
  is_relative_to "/etc/sources/doc1.txt" "/cache" = false.
Proof. vm_compute. repeat split. Qed.

(** * Further properties of the directory helpers *)

(** X1. [clear_directory] completes for every state of the file system and
    whatever calls fail; it keeps every line the log had; on a directory that
    does not exist it changes nothing and logs one warning. *)
Theorem clear_directory_completes (fails : syscall -> string -> bool)
    (directory : string) (delete_subdirectories : bool) (o : option node)
    (lg : list log_entry) :
  let res := clear_directory fails directory delete_subdirectories o lg in
  res.1 = Ok tt /\
  (forall e, e ∈ lg -> e ∈ res.2.2) /\
  clear_directory fails directory delete_subdirectories None lg
  = (Ok tt, (None, logger_warning (Directory_does_not_exist directory) lg)).
Proof.
  split; [apply clear_directory_ok|]. split.
  - intros e He. destruct o as [n|]; simpl.
    + pose proof (proj1 (clear_keeps_log fails) n directory delete_subdirectories lg e He) as H.
      destruct (clear_directory_node fails directory delete_subdirectories n lg) as [r [n' lg']].
      exact H.
    + unfold logger_warning. apply elem_of_app. now left.
  - reflexivity.
Qed.

Section KeepsDirectories.

Variable fails : syscall -> string -> bool.

Lemma clear_directory_node_of_dir (d : string) (ds : bool) (es : entries)
    (lg : list log_entry) :
  (clear_directory_node fails d ds (Dir es) lg).2.1
  = if fails Scandir d then Dir es else Dir (clear_items fails d ds es lg).2.1.
Proof.
  simpl. destruct (fails Scandir d); [reflexivity|].
  destruct (clear_items fails d ds es lg) as [[u|e] [es' lg']]; reflexivity.
Qed.

(** Without [delete_subdirectories] a subdirectory stays in place; it holds
    what its own clearing left. *)
Lemma clear_items_keeps_dir (d : string) (es : entries) :
  forall lg name es0,
    child name es = Some (Dir es0) ->
    exists lg0,
      child name (clear_items fails d false es lg).2.1
      = Some (clear_directory_node fails (os_path_join d name) false (Dir es0) lg0).2.1.
Proof.
  induction es as [|item c rest IH]; intros lg name es0; [discriminate|].
  cbn [child clear_items]. set (item_path := os_path_join d item).
  destruct c as [|es1].
  - case_bool_decide as Hn; [discriminate|]. intros Hchild.
    destruct (fails Unlink item_path); simpl.
    + destruct (IH (logger_warning (Error_deleting item_path (OSError Unlink item_path)) lg)
                  name es0 Hchild) as [lg0 H0].
      destruct (clear_items fails d false rest _) as [r2 [rest' lg2]]; simpl in *.
      rewrite bool_decide_eq_false_2 by exact Hn. eauto.
    + destruct (IH lg name es0 Hchild) as [lg0 H0].
      destruct (clear_items fails d false rest lg) as [r2 [rest' lg2]]; simpl in *. eauto.
  - pose proof (clear_directory_node_ok fails item_path false (Dir es1) lg) as Hok.
    destruct (clear_directory_node fails item_path false (Dir es1) lg) as [r [c' lg']] eqn:Hc.
    simpl in Hok. subst r. simpl.
    case_bool_decide as Hn.
    + intros [= ->]. subst item. exists lg.
      unfold item_path in Hc. simpl in Hc. rewrite Hc.
      destruct (clear_items fails d false rest lg') as [r2 [rest' lg2]].
      cbn [fst snd keep child]. now rewrite bool_decide_eq_true_2 by reflexivity.
    + intros Hchild. destruct (IH lg' name es0 Hchild) as [lg0 H0].
      destruct (clear_items fails d false rest lg') as [r2 [rest' lg2]]; simpl in *.
      rewrite bool_decide_eq_false_2 by exact Hn. eauto.
Qed.

Lemma clear_keeps_directories (ns : list string) :
  forall d n lg c,
    is_dir n = true ->
    descend ns n = Some c -> is_dir c = true ->
    exists c', descend ns (clear_directory_node fails d false n lg).2.1 = Some c'
               /\ is_dir c' = true.
Proof.
  induction ns as [|name ns' IH]; intros d n lg c Hn Hd Hc.
  - simpl. eexists. split; [reflexivity|]. now rewrite clear_directory_node_dir.
  - destruct n as [|es]; [discriminate|].
    simpl in Hd. destruct (child name es) as [c0|] eqn:Hchild; [|discriminate].
    assert (Hc0 : exists es0, c0 = Dir es0).
    { destruct c0 as [|es0]; [|eauto].
      destruct ns'; [injection Hd as <-; discriminate|discriminate]. }
    destruct Hc0 as [es0 ->].
    rewrite clear_directory_node_of_dir.
    destruct (fails Scandir d).
    + simpl. rewrite Hchild. eauto.
    + destruct (clear_items_keeps_dir d es lg name es0 Hchild) as [lg0 H0].
      simpl. rewrite H0. now apply (IH _ (Dir es0) lg0 c).
Qed.

End KeepsDirectories.

(** X2. Without [delete_subdirectories], [clear_directory] removes no
    directory: every directory below the cleared one is still there
    afterwards, whatever calls fail. *)
Theorem clear_directory_keeps_directories (fails : syscall -> string -> bool)
    (directory : string) (es : entries) (lg : list log_entry)
    (ns : list string) (c : node)
    (Hthere : descend ns (Dir es) = Some c)
    (Hdir : is_dir c = true) :
  exists n' c',
    (clear_directory fails directory false (Some (Dir es)) lg).2.1 = Some n' /\
    descend ns n' = Some c' /\ is_dir c' = true.
Proof.
  destruct (clear_keeps_directories fails ns directory (Dir es) lg c eq_refl Hthere Hdir)
    as (c' & Hc' & Hd').
  exists (clear_directory_node fails directory false (Dir es) lg).2.1, c'.
  split; [|auto]. unfold clear_directory.
  now destruct (clear_directory_node fails directory false (Dir es) lg) as [r [n' lg']].
Qed.

Lemma clear_directory_keeps_directories_witness :
  exists n' c',
    (clear_directory locked_file "/cache_A" false (Some cache_A) []).2.1 = Some n' /\
    descend ["figures"] n' = Some c' /\ is_dir c' = true.
Proof.
  apply (clear_directory_keeps_directories locked_file "/cache_A"
           (Entry "sources" (Dir (Entry "doc1.txt" File Nil))
              (Entry "figures" (Dir (Entry "chart.png" File Nil)) Nil))
           [] ["figures"] (Dir (Entry "chart.png" File Nil))).
  - reflexivity.
  - reflexivity.
Defined.

(** A directory without regular files is left as it is by a clearing that
    keeps the subdirectories, when nothing fails. *)
Lemma clear_nothing_to_do :
  (forall n d lg, is_dir n = true -> has_file n = false ->
     clear_directory_node no_failure d false n lg = (Ok tt, (n, lg))) /\
  (forall es d lg, has_file_entries es = false ->
     clear_items no_failure d false es lg = (Ok tt, (es, lg))).
Proof.
  apply node_entries_ind.
  - discriminate.
  - intros es IH d lg _ Hf. simpl in *. now rewrite (IH d lg Hf).
  - reflexivity.
  - intros name c IHc rest IHrest d lg Hf. simpl in Hf.
    apply orb_false_elim in Hf as [Hc Hrest].
    destruct c as [|es0]; [discriminate|].
    pose proof (IHc (os_path_join d name) lg eq_refl Hc) as H1.
    cbn [clear_items]. simpl in H1. simpl. rewrite H1. simpl.
    now rewrite (IHrest d lg Hrest).
Qed.

(** X3. When nothing fails, clearing a directory a second time changes
    nothing, in the file system or in the log, and the first clearing logged
    nothing either. *)
Theorem clear_directory_twice (directory : string) (delete_subdirectories : bool)
    (es : entries) (lg : list log_entry) :
  let first := clear_directory no_failure directory delete_subdirectories
                 (Some (Dir es)) lg in
  first.2.2 = lg /\
  clear_directory no_failure directory delete_subdirectories first.2.1 first.2.2 = first.
Proof.
  destruct delete_subdirectories; unfold clear_directory.
  - rewrite (proj1 clear_all_no_failure (Dir es) directory lg eq_refl).
    split; reflexivity.
  - destruct (proj1 clear_files_no_failure (Dir es) directory lg eq_refl) as (es' & -> & Hf).
    cbn [fst snd]. split; [reflexivity|].
    now rewrite (proj1 clear_nothing_to_do (Dir es') directory lg eq_refl Hf).
Qed.

(** X4. [delete_temp_dir] returns [None] in every case; it does nothing at
    all when the path does not exist, logs nothing without [verbose], removes
    a directory whole when nothing fails, and leaves a regular file that sits
    at the path where it is. *)
Theorem delete_temp_dir_cases (fails : syscall -> string -> bool) (temp_dir : string)
    (verbose : bool) (o : option node) (lg : list log_entry) :
  (delete_temp_dir fails temp_dir verbose o lg).1 = ReturnsNone /\
  delete_temp_dir fails temp_dir verbose None lg = (ReturnsNone, (None, lg)) /\
  (delete_temp_dir fails temp_dir false o lg).2.2 = lg /\
  (forall es,
     delete_temp_dir no_failure temp_dir verbose (Some (Dir es)) lg
     = (ReturnsNone,
        (None, if verbose then logger_info (Temporary_directory_deleted temp_dir) lg else lg))) /\
  (delete_temp_dir fails temp_dir verbose (Some File) lg).2.1 = Some File.
Proof.
  split; [|split; [reflexivity|split; [|split]]].
  - unfold delete_temp_dir. destruct o as [n|]; [|reflexivity].
    destruct (rmtree fails temp_dir n) as [[u|e] remains]; reflexivity.
  - unfold delete_temp_dir. destruct o as [n|]; [|reflexivity].
    destruct (rmtree fails temp_dir n) as [[u|e] remains]; reflexivity.
  - intros es. unfold delete_temp_dir.
    now rewrite (proj1 rmtree_no_failure (Dir es) temp_dir eq_refl).
  - reflexivity.
Qed.

Section WalkKeepsFiles.

Variable fails : syscall -> string -> bool.
Variable exclude : list string.
Variable verbose : bool.

(** A regular file reached through excluded directories only is not touched
    by the walk. *)
Lemma walk_keeps_files (ns : list string) :
  forall fuel directory n lg name,
    excluded_along directory exclude ns = true ->
    descend (ns ++ [name]) n = Some File ->
    descend (ns ++ [name]) (walk fails fuel exclude verbose directory n lg).1 = Some File.
Proof.
  induction ns as [|dir ns' IH]; intros fuel directory n lg name Hex Hd.
  - destruct fuel as [|k]; [exact Hd|].
    destruct n as [|es]; [discriminate|].
    simpl in Hd. destruct (child name es) as [c0|] eqn:Hchild; [|discriminate].
    injection Hd as ->.
    simpl. destruct (fails Scandir directory); [simpl; now rewrite Hchild|].
    pose proof (delete_dirs_child_excluded fails exclude verbose directory es lg name File
                  Hchild) as H1.
    destruct (delete_dirs fails directory exclude verbose es lg) as [es1 lg1].
    destruct (walk_dirs_child (walk fails k exclude verbose) directory es1 lg1 name)
      as [lg_i H2].
    destruct (walk_dirs _ directory es1 lg1) as [es2 lg2]. simpl in *.
    rewrite H2, H1 by discriminate. reflexivity.
  - destruct fuel as [|k]; [exact Hd|].
    destruct n as [|es]; [discriminate|].
    simpl in Hd. destruct (child dir es) as [c0|] eqn:Hchild; [|discriminate].
    simpl in Hex. apply andb_prop in Hex as [Hin Hex'].
    apply bool_decide_eq_true in Hin.
    simpl. destruct (fails Scandir directory); [simpl; now rewrite Hchild|].
    pose proof (delete_dirs_child_excluded fails exclude verbose directory es lg dir c0
                  Hchild (fun _ => Hin)) as H1.
    destruct (delete_dirs fails directory exclude verbose es lg) as [es1 lg1].
    destruct (walk_dirs_child (walk fails k exclude verbose) directory es1 lg1 dir)
      as [lg_i H2].
    destruct (walk_dirs _ directory es1 lg1) as [es2 lg2]. simpl in *.
    rewrite H2, H1.
    destruct c0 as [|es0].
    + destruct ns'; discriminate.
    + now apply IH.
Qed.

Lemma delete_dirs_quiet (root : string) (es : entries) :
  forall lg, (delete_dirs fails root exclude false es lg).2 = lg.
Proof.
  induction es as [|item c rest IH]; intros lg; [reflexivity|].
  cbn [delete_dirs].
  set (step := match c with File => _ | Dir _ => _ end).
  assert (Hstep : step.2 = lg).
  { subst step. destruct c as [|es0]; [reflexivity|].
    case_bool_decide; [|reflexivity].
    destruct (rmtree fails (os_path_join root item) (Dir es0)) as [[u|e] remains];
      reflexivity. }
  destruct step as [remains lg1]. simpl in Hstep. subst lg1.
  specialize (IH lg).
  destruct (delete_dirs fails root exclude false rest lg) as [rest' lg2]. exact IH.
Qed.

Lemma walk_dirs_quiet
    (walk_sub : string -> node -> list log_entry -> node * list log_entry)
    (top : string) (es : entries) :
  (forall p n lg, (walk_sub p n lg).2 = lg) ->
  forall lg, (walk_dirs walk_sub top es lg).2 = lg.
Proof.
  intros Hsub. induction es as [|name c rest IH]; intros lg; [reflexivity|].
  cbn [walk_dirs].
  destruct c as [|es0].
  - specialize (IH lg). destruct (walk_dirs walk_sub top rest lg) as [rest' lg2]. exact IH.
  - pose proof (Hsub (os_path_join top name) (Dir es0) lg) as H1.
    destruct (walk_sub (os_path_join top name) (Dir es0) lg) as [c' lg1].
    simpl in H1. subst lg1.
    specialize (IH lg). destruct (walk_dirs walk_sub top rest lg) as [rest' lg2]. exact IH.
Qed.

Lemma walk_quiet (fuel : nat) :
  forall top n lg, (walk fails fuel exclude false top n lg).2 = lg.
Proof.
  induction fuel as [|k IH]; intros top n lg; [reflexivity|].
  destruct n as [|es]; [reflexivity|]. simpl.
  destruct (fails Scandir top); [reflexivity|].
  pose proof (delete_dirs_quiet top es lg) as H1.
  destruct (delete_dirs fails top exclude false es lg) as [es1 lg1].
  simpl in H1. subst lg1.
  pose proof (walk_dirs_quiet (walk fails k exclude false) top es1 IH lg) as H2.
  destruct (walk_dirs _ top es1 lg) as [es2 lg2]. exact H2.
Qed.

End WalkKeepsFiles.

(** X5. [delete_all_subdirectories] removes directories only: a regular file
    in the directory itself, or in a directory that is excluded together with
    every directory above it, is still there afterwards, whatever calls
    fail. *)
Theorem delete_all_subdirectories_keeps_files (fails : syscall -> string -> bool)
    (fuel : nat) (directory : string) (exclude : list string) (verbose : bool)
    (n : node) (lg : list log_entry) (ns : list string) (name : string)
    (Hexcluded : excluded_along directory exclude ns = true)
    (Hfile : descend (ns ++ [name]) n = Some File) :
  exists n',
    (delete_all_subdirectories fails fuel directory exclude verbose (Some n) lg).1 = Some n' /\
    descend (ns ++ [name]) n' = Some File.
Proof.
  exists (walk fails fuel exclude verbose directory n lg).1. split.
  - simpl. now destruct (walk fails fuel exclude verbose directory n lg).
  - now apply walk_keeps_files.
Qed.

Lemma delete_all_subdirectories_keeps_files_witness :
  exists n',
    (delete_all_subdirectories locked_file 3 "/cache_A" ["/cache_A/sources"] true
       (Some cache_A) []).1 = Some n' /\
    descend (["sources"] ++ ["doc1.txt"]) n' = Some File.
Proof.
  apply (delete_all_subdirectories_keeps_files locked_file 3 "/cache_A"
           ["/cache_A/sources"] true cache_A [] ["sources"] "doc1.txt").
  - reflexivity.
  - reflexivity.
Defined.

(** X6. Without [verbose], [delete_all_subdirectories] logs nothing, whether
    the removals succeed or fail. *)
Theorem delete_all_subdirectories_quiet (fails : syscall -> string -> bool)
    (fuel : nat) (directory : string) (exclude : list string) (o : option node)
    (lg : list log_entry) :
  (delete_all_subdirectories fails fuel directory exclude false o lg).2 = lg.
Proof.
  destruct o as [n|]; [|reflexivity]. simpl.
  pose proof (walk_quiet fails exclude fuel directory n lg) as H.
  now destruct (walk fails fuel exclude false directory n lg).
Qed.

(** X7. With nothing excluded and nothing failing, [delete_all_subdirectories]
    leaves no directory below the one it was given: whatever is still found
    there is a regular file. *)
Theorem delete_all_subdirectories_thorough (fuel : nat) (directory : string)
    (verbose : bool) (n : node) (lg : list log_entry) (ns : list string) (c' : node)
    (Hfuel : height n <= fuel)
    (Hbelow : ns <> [])
    (Hfound : (delete_all_subdirectories no_failure fuel directory [] verbose (Some n) lg).1
                ≫= descend ns = Some c') :
  is_dir c' = false.
Proof.
  destruct (is_dir c') eqn:Hc; [|reflexivity].
  assert (Hd' : descend ns (walk no_failure fuel [] verbose directory n lg).1 = Some c').
  { simpl in Hfound. now destruct (walk no_failure fuel [] verbose directory n lg). }
  pose proof (walk_leaves_excluded [] verbose fuel directory n lg ns c' Hfuel Hbelow Hd' Hc)
    as Hex.
  destruct ns as [|name ns']; [congruence|]. cbn [excluded_along] in Hex.
  apply andb_prop in Hex as [Hin _]. apply bool_decide_eq_true in Hin.
  now apply elem_of_nil in Hin.
Qed.

Lemma delete_all_subdirectories_thorough_witness :
  is_dir File = false.
Proof.
  apply (delete_all_subdirectories_thorough 4 "/r" false files_and_dirs [] ["g.txt"] File).
  - vm_compute. lia.
  - discriminate.
  - reflexivity.
Defined.

(** * Further properties of the scheduled deletion *)

Module ScheduleMore.
Import Schedule.

Section Idle.

Variable fails : syscall -> string -> bool.





End Idle.

End ScheduleMore.



(** X9. Scheduling the deletion of one path leaves the jobs registered for
    every other path as they were. *)
Theorem schedule_leaves_other_paths (temp_dir other : string) (delay_minutes : Z)
    (st : Schedule.state)
    (Hdelay : (0 < delay_minutes)%Z)
    (Hwf : Schedule.well_formed st)
    (Hother : temp_dir <> other) :
  Schedule.get_jobs other (Schedule.schedule_temp_dir_deletion temp_dir delay_minutes st)
  = Schedule.get_jobs other st.
Proof.
  unfold Schedule.well_formed, Schedule.schedule_temp_dir_deletion,
    Schedule.every_minutes_do, Schedule.tag, Schedule.get_jobs in *.
  cbn [Schedule.jobs Schedule.fresh_id].
  rewrite map_app, List.filter_app.
  cbn [map List.filter Schedule.job_id].
  rewrite (bool_decide_eq_true_2 (Schedule.fresh_id st = Schedule.fresh_id st)) by reflexivity.
  cbn [Schedule.tags].
  rewrite (bool_decide_eq_false_2 (other ∈ {[temp_dir]} ∪ ∅)).
  - rewrite List.app_nil_r.
    induction Hwf as [|j l Hj Hl IH]; [reflexivity|].
    cbn [map List.filter].
    rewrite (bool_decide_eq_false_2 (Schedule.job_id j = Schedule.fresh_id st)) by lia.
    now rewrite IH.
  - intros Hin. apply elem_of_union in Hin as [Hin|Hin].
    + apply elem_of_singleton in Hin. congruence.
    + now apply elem_of_empty in Hin.
Qed.

Lemma schedule_leaves_other_paths_witness :
  Schedule.get_jobs "/tmp/Q"
    (Schedule.schedule_temp_dir_deletion "/tmp/P" 5
       (Schedule.schedule_temp_dir_deletion "/tmp/Q" 2 Schedule.idle))
  = Schedule.get_jobs "/tmp/Q" (Schedule.schedule_temp_dir_deletion "/tmp/Q" 2 Schedule.idle).
Proof.
  apply (schedule_leaves_other_paths "/tmp/P" "/tmp/Q" 5
           (Schedule.schedule_temp_dir_deletion "/tmp/Q" 2 Schedule.idle)).
  - lia.
  - repeat constructor.
  - discriminate.
Defined.

(** * Further properties of the output-saving helper *)

Module OutputMore.
Import Output.


Section Writes.

Variable fails : syscall -> string -> bool.
Variable str_other : pyval -> string.
Variable frame_plus : pyval -> string -> result pyval.

Lemma append_text_ok (filename text : string) (st : state) :
  fails Open filename = false ->
  append_text fails filename text st = (Ok tt, appended filename text st).
Proof. intros Hopen. unfold append_text. now rewrite Hopen. Qed.

Lemma appended_appended (filename a b : string) (st : state) :
  appended filename b (appended filename a st) = appended filename (a +:+ b) st.
Proof.
  unfold appended. cbn [files shown]. rewrite lookup_insert_eq, insert_insert_eq.
  cbn [default from_option id]. now rewrite StrFacts.app_assoc.
Qed.

Lemma appended_nothing (filename a : string) (st : state) :
  appended filename EmptyString (appended filename a st) = appended filename a st.
Proof. now rewrite appended_appended, StrFacts.app_nil_r. Qed.

Lemma preamble_appended (filename : string) (user_request : option string) (st : state) :
  preamble filename user_request st
  = appended filename (blank_line +:+ request_text user_request) st.
Proof.
  unfold preamble, appended, request_text. destruct user_request as [req|].
  - now rewrite !StrFacts.app_assoc.
  - now rewrite StrFacts.app_nil_r.
Qed.

(** The part of [save_output_callback] before the response is looked at. *)
Lemma opening_written (response : pyval) (filename : string)
    (user_request : option string) (st : state) (k : M unit) :
  fails Open filename = false ->
  isinstance response accepted = true ->
  (check_inputs response (PStr filename) (to_pyval user_request) ;;;
   append_text fails filename blank_line ;;;
   (if negb (isinstance (to_pyval user_request) [NoneType])
    then append_text fails filename (py_str str_other (to_pyval user_request)) ;;;
         append_text fails filename blank_line
    else ret tt) ;;;
   k) st
  = k (appended filename (blank_line +:+ request_text user_request) st).
Proof.
  intros Hopen Hacc. unfold bind, check_inputs. fold accepted. rewrite Hacc.
  assert (Hreq : isinstance (to_pyval user_request) [str; NoneType] = true)
    by now destruct user_request.
  rewrite Hreq. cbn [negb isinstance type bool_decide].
  change (isinstance (PStr filename) [str]) with true. cbn [negb ret].
  rewrite (append_text_ok _ _ _ Hopen).
  destruct user_request as [req|]; cbn [to_pyval].
  - change (isinstance (PStr req) [NoneType]) with false. cbn [negb].
    rewrite !(append_text_ok _ _ _ Hopen). cbn [py_str].
    rewrite !appended_appended. unfold request_text.
    now rewrite ?StrFacts.app_assoc.
  - change (isinstance PNone [NoneType]) with true. cbn [negb ret].
    unfold request_text. now rewrite StrFacts.app_nil_r.
Qed.

Lemma save_string (x filename a : string) (st : state) :
  fails Open filename = false ->
  save_simple_output fails str_other (PStr x) filename (appended filename a st)
  = (Ok tt, appended filename (a +:+ x +:+ blank_line) st).
Proof.
  intros Hopen. unfold save_simple_output, bind.
  change (isinstance (PStr x) [str; float; int]) with true. cbn iota.
  rewrite !(append_text_ok _ _ _ Hopen). cbn [py_str].
  now rewrite !appended_appended, ?StrFacts.app_assoc.
Qed.

Lemma save_frame (response : pyval) (json filename a : string) (st : state) :
  fails Open filename = false ->
  response = PSeries json \/ response = PDataFrame json ->
  save_simple_output fails str_other response filename (appended filename a st)
  = (Ok tt, appended filename (a +:+ json +:+ blank_line) st).
Proof.
  intros Hopen [-> | ->]; unfold save_simple_output, bind.
  - change (isinstance (PSeries json) [str; float; int]) with false.
    change (isinstance (PSeries json) [Series; DataFrame]) with true. cbn iota.
    rewrite !(append_text_ok _ _ _ Hopen).
    now rewrite !appended_appended, ?StrFacts.app_assoc.
  - change (isinstance (PDataFrame json) [str; float; int]) with false.
    change (isinstance (PDataFrame json) [Series; DataFrame]) with true. cbn iota.
    rewrite !(append_text_ok _ _ _ Hopen).
    now rewrite !appended_appended, ?StrFacts.app_assoc.
Qed.

Lemma closing_written (filename a : string) (st : state) (m : M unit) :
  fails Open filename = false ->
  m (appended filename EmptyString st) = (Ok tt, appended filename a st) ->
  (m ;;; append_text fails filename blank_line) (appended filename EmptyString st)
  = (Ok tt, appended filename (a +:+ blank_line) st).
Proof.
  intros Hopen Hm. unfold bind. rewrite Hm, (append_text_ok _ _ _ Hopen).
  now rewrite appended_appended.
Qed.

(** The elements of a list response that are strings, as the loop of
    [save_output_callback] writes them. *)
Lemma strings_written (texts : list string) (filename a : string) (st : state) :
  fails Open filename = false ->
  for_each (map PStr texts)
    (fun elem => v <- plus_str frame_plus elem newline ;;
                 save_simple_output fails str_other v filename)
    (appended filename a st)
  = (Ok tt, appended filename (a +:+ lines_of texts) st).
Proof.
  intros Hopen. revert a. induction texts as [|t texts IH]; intros a.
  - cbn [map for_each lines_of ret]. now rewrite StrFacts.app_nil_r.
  - cbn [map for_each lines_of]. unfold bind at 1. unfold bind at 1.
    cbn [plus_str ret]. rewrite (save_string _ _ _ _ Hopen), IH.
    now rewrite ?StrFacts.app_assoc.
Qed.

(** The loop over a list response up to an element [e] of a built-in type
    that has no [+] with a string: a number, [None], or a container. *)
Lemma strings_then_other (texts : list string) (e : pyval) (rest : list pyval)
    (filename a : string) (st : state) :
  fails Open filename = false ->
  isinstance e [str; Series; DataFrame; object] = false ->
  for_each (map PStr texts ++ e :: rest)
    (fun elem => v <- plus_str frame_plus elem newline ;;
                 save_simple_output fails str_other v filename)
    (appended filename a st)
  = (Raise TypeError, appended filename (a +:+ lines_of texts) st).
Proof.
  intros Hopen Hbad. revert a. induction texts as [|t texts IH]; intros a.
  - cbn [map app for_each lines_of]. rewrite StrFacts.app_nil_r.
    unfold bind. destruct e; try discriminate Hbad; reflexivity.
  - cbn [map app for_each lines_of]. unfold bind at 1. unfold bind at 1.
    cbn [plus_str ret]. rewrite (save_string _ _ _ _ Hopen), IH.
    now rewrite ?StrFacts.app_assoc.
Qed.

(** A dictionary value that is a string is written like a list element. *)
Lemma save_dict_string (x filename a : string) (st : state) :
  fails Open filename = false ->
  save_dict_value fails str_other frame_plus (PStr x) filename (appended filename a st)
  = (Ok tt, appended filename (a +:+ x +:+ newline +:+ blank_line) st).
Proof.
  intros Hopen. unfold save_dict_value, open_append, bind.
  rewrite (append_text_ok _ _ _ Hopen), appended_nothing.
  change (isinstance (PStr x) [str; float; int]) with true. cbn iota.
  cbn [plus_str ret]. rewrite (save_string _ _ _ _ Hopen).
  now rewrite ?StrFacts.app_assoc.
Qed.

Lemma save_dict_number (v : pyval) (filename a : string) (st : state) :
  fails Open filename = false ->
  isinstance v [float; int] = true ->
  save_dict_value fails str_other frame_plus v filename (appended filename a st)
  = (Raise TypeError, appended filename a st).
Proof.
  intros Hopen Hnum. unfold save_dict_value, open_append, bind.
  rewrite (append_text_ok _ _ _ Hopen), appended_nothing.
  destruct v; try discriminate Hnum; reflexivity.
Qed.

Lemma dict_strings_written (items : list (pyval * string)) (filename a : string)
    (st : state) :
  fails Open filename = false ->
  for_each (map (fun kv => (kv.1, PStr kv.2)) items)
    (fun '(key, value) => save_dict_value fails str_other frame_plus value filename)
    (appended filename a st)
  = (Ok tt, appended filename (a +:+ lines_of (map snd items)) st).
Proof.
  intros Hopen. revert a. induction items as [|[k t] items IH]; intros a.
  - cbn [map for_each lines_of ret]. now rewrite StrFacts.app_nil_r.
  - cbn [map for_each lines_of fst snd]. unfold bind at 1.
    rewrite (save_dict_string _ _ _ _ Hopen), IH.
    now rewrite ?StrFacts.app_assoc.
Qed.

Lemma dict_strings_then_number (items : list (pyval * string)) (k v : pyval)
    (rest : list (pyval * pyval)) (filename a : string) (st : state) :
  fails Open filename = false ->
  isinstance v [float; int] = true ->
  for_each (map (fun kv => (kv.1, PStr kv.2)) items ++ (k, v) :: rest)
    (fun '(key, value) => save_dict_value fails str_other frame_plus value filename)
    (appended filename a st)
  = (Raise TypeError, appended filename (a +:+ lines_of (map snd items)) st).
Proof.
  intros Hopen Hnum. revert a. induction items as [|[k' t] items IH]; intros a.
  - cbn [map app for_each lines_of]. rewrite StrFacts.app_nil_r.
    unfold bind at 1. now rewrite (save_dict_number _ _ _ _ Hopen Hnum).
  - cbn [map app for_each lines_of fst snd]. unfold bind at 1.
    rewrite (save_dict_string _ _ _ _ Hopen), IH.
    now rewrite ?StrFacts.app_assoc.
Qed.

(** X10. When the file can be opened, [save_output_callback] on a string
    response returns normally and appends to the file, in this order: a
    blank line, the user request followed by a blank line when there is one,
    the response, a blank line, and the closing blank line.  A series or a
    dataframe is saved in the same way, with its JSON text in the place of
    the string.  Everything else in the state is as before. *)
Theorem simple_response_saved (response : pyval) (text filename : string)
    (user_request : option string) (st : state)
    (Hopen : fails Open filename = false)
    (Hsimple : response = PStr text \/ response = PSeries text
               \/ response = PDataFrame text) :
  save_output_callback fails str_other frame_plus
    response (PStr filename) (to_pyval user_request) st
  = (Ok tt,
     appended filename
       (blank_line +:+ request_text user_request +:+ text +:+ blank_line +:+ blank_line)
       st).
Proof.
  unfold save_output_callback. cbn [py_str].
  rewrite (opening_written response filename user_request st _ Hopen)
    by (destruct Hsimple as [-> | [-> | ->]]; reflexivity).
  unfold bind.
  destruct Hsimple as [-> | [-> | ->]].
  - change (isinstance (PStr text) [set]) with false. cbn iota.
    change (isinstance (PStr text) [str; float; int; Series; DataFrame]) with true.
    cbn iota. rewrite (save_string _ _ _ _ Hopen), (append_text_ok _ _ _ Hopen).
    now rewrite appended_appended, ?StrFacts.app_assoc.
  - change (isinstance (PSeries text) [set]) with false. cbn iota.
    change (isinstance (PSeries text) [str; float; int; Series; DataFrame]) with true.
    cbn iota. rewrite (save_frame _ text _ _ _ Hopen) by now left.
    rewrite (append_text_ok _ _ _ Hopen).
    now rewrite appended_appended, ?StrFacts.app_assoc.
  - change (isinstance (PDataFrame text) [set]) with false. cbn iota.
    change (isinstance (PDataFrame text) [str; float; int; Series; DataFrame]) with true.
    cbn iota. rewrite (save_frame _ text _ _ _ Hopen) by now right.
    rewrite (append_text_ok _ _ _ Hopen).
    now rewrite appended_appended, ?StrFacts.app_assoc.
Qed.

(** X11. When the file can be opened, [save_output_callback] on a list of
    strings returns normally and appends the opening blank line, the user
    request, every element followed by a newline and a blank line, in the
    order of the list, and the closing blank line. *)
Theorem list_of_strings_saved (texts : list string) (filename : string)
    (user_request : option string) (st : state)
    (Hopen : fails Open filename = false) :
  save_output_callback fails str_other frame_plus
    (PList (map PStr texts)) (PStr filename) (to_pyval user_request) st
  = (Ok tt,
     appended filename
       (blank_line +:+ request_text user_request +:+ lines_of texts +:+ blank_line)
       st).
Proof.
  unfold save_output_callback. cbn [py_str].
  rewrite (opening_written _ filename user_request st _ Hopen) by reflexivity.
  unfold bind.
  change (isinstance (PList (map PStr texts)) [set]) with false. cbn iota.
  change (isinstance (PList (map PStr texts)) [str; float; int; Series; DataFrame])
    with false.
  change (isinstance (PList (map PStr texts)) [list_]) with true. cbn iota.
  rewrite (strings_written _ _ _ _ Hopen), (append_text_ok _ _ _ Hopen).
  now rewrite appended_appended, ?StrFacts.app_assoc.
Qed.

(** X12. A list response is written element by element, with no check
    ahead: at the first element that is a number, [None], or a list, tuple,
    dictionary or set, [save_output_callback] raises [TypeError], and the
    file then holds the opening blank line, the user request and the
    elements before that one, without the closing blank line. *)
Theorem list_stops_at_first_non_string (texts : list string) (e : pyval)
    (rest : list pyval) (filename : string) (user_request : option string) (st : state)
    (Hopen : fails Open filename = false)
    (Hbad : isinstance e [str; Series; DataFrame; object] = false) :
  save_output_callback fails str_other frame_plus
    (PList (map PStr texts ++ e :: rest)) (PStr filename) (to_pyval user_request) st
  = (Raise TypeError,
     appended filename (blank_line +:+ request_text user_request +:+ lines_of texts) st).
Proof.
  unfold save_output_callback. cbn [py_str].
  rewrite (opening_written _ filename user_request st _ Hopen) by reflexivity.
  unfold bind.
  change (isinstance (PList (map PStr texts ++ e :: rest)) [set]) with false. cbn iota.
  change (isinstance (PList (map PStr texts ++ e :: rest))
            [str; float; int; Series; DataFrame]) with false.
  change (isinstance (PList (map PStr texts ++ e :: rest)) [list_]) with true. cbn iota.
  rewrite (strings_then_other _ _ _ _ _ _ Hopen Hbad).
  now rewrite ?StrFacts.app_assoc.
Qed.

(** X13. [save_output_callback] checks its arguments before it touches the
    file: when the response is not a string, list, dictionary, tuple, series
    or dataframe, or the save path is not a string, or the user request is
    neither a string nor [None], it raises [TypeError] and the files and the
    shown warnings are as before.  This does not depend on whether the file
    could be opened. *)
Theorem invalid_inputs_write_nothing (response save_path user_request : pyval)
    (st : state)
    (Hbad : isinstance response accepted
            && isinstance save_path [str]
            && isinstance user_request [str; NoneType] = false) :
  save_output_callback fails str_other frame_plus response save_path user_request st
  = (Raise TypeError, st).
Proof.
  unfold save_output_callback, bind, check_inputs. fold accepted.
  destruct (isinstance response accepted); [|reflexivity].
  destruct (isinstance save_path [str]); [|reflexivity].
  destruct (isinstance user_request [str; NoneType]); [discriminate Hbad|reflexivity].
Qed.

(** X14. The keys of a dictionary response are not written.  When the file
    can be opened and every value is a string, [save_output_callback]
    appends exactly what it appends for the list of the values. *)
Theorem dict_keys_are_not_written (items : list (pyval * string)) (filename : string)
    (user_request : option string) (st : state)
    (Hopen : fails Open filename = false) :
  save_output_callback fails str_other frame_plus
    (PDict (map (fun kv => (kv.1, PStr kv.2)) items))
    (PStr filename) (to_pyval user_request) st
  = (Ok tt,
     appended filename
       (blank_line +:+ request_text user_request +:+ lines_of (map snd items)
        +:+ blank_line) st)
  /\ save_output_callback fails str_other frame_plus
       (PDict (map (fun kv => (kv.1, PStr kv.2)) items))
       (PStr filename) (to_pyval user_request) st
     = save_output_callback fails str_other frame_plus
         (PList (map PStr (map snd items)))
         (PStr filename) (to_pyval user_request) st.
Proof.
  assert (Hdict :
    save_output_callback fails str_other frame_plus
      (PDict (map (fun kv => (kv.1, PStr kv.2)) items))
      (PStr filename) (to_pyval user_request) st
    = (Ok tt,
       appended filename
         (blank_line +:+ request_text user_request +:+ lines_of (map snd items)
          +:+ blank_line) st)).
  { unfold save_output_callback. cbn [py_str].
    rewrite (opening_written _ filename user_request st _ Hopen) by reflexivity.
    unfold bind.
    set (d := PDict _).
    change (isinstance d [set]) with false. cbn iota.
    change (isinstance d [str; float; int; Series; DataFrame]) with false.
    change (isinstance d [list_]) with false.
    change (isinstance d [dict]) with true. cbn iota. subst d. cbn iota.
    rewrite (dict_strings_written _ _ _ _ Hopen), (append_text_ok _ _ _ Hopen).
    now rewrite appended_appended, ?StrFacts.app_assoc. }
  split; [exact Hdict|].
  rewrite Hdict. symmetry.
  unfold save_output_callback. cbn [py_str].
  rewrite (opening_written _ filename user_request st _ Hopen) by reflexivity.
  unfold bind.
  set (l := PList _).
  change (isinstance l [set]) with false. cbn iota.
  change (isinstance l [str; float; int; Series; DataFrame]) with false.
  change (isinstance l [list_]) with true. cbn iota. subst l. cbn iota.
  rewrite (strings_written _ _ _ _ Hopen), (append_text_ok _ _ _ Hopen).
  now rewrite appended_appended, ?StrFacts.app_assoc.
Qed.

(** X15. A dictionary response with a number as a value is not saved: the
    value is added to a newline, which raises [TypeError].  The string values
    before it have been written by then, and the closing blank line is not
    written. *)
Theorem dict_number_value_raises (items : list (pyval * string)) (k v : pyval)
    (rest : list (pyval * pyval)) (filename : string) (user_request : option string)
    (st : state)
    (Hopen : fails Open filename = false)
    (Hnumber : isinstance v [float; int] = true) :
  save_output_callback fails str_other frame_plus
    (PDict (map (fun kv => (kv.1, PStr kv.2)) items ++ (k, v) :: rest))
    (PStr filename) (to_pyval user_request) st
  = (Raise TypeError,
     appended filename
       (blank_line +:+ request_text user_request +:+ lines_of (map snd items)) st).
Proof.
  unfold save_output_callback. cbn [py_str].
  rewrite (opening_written _ filename user_request st _ Hopen) by reflexivity.
  unfold bind.
  set (d := PDict _).
  change (isinstance d [set]) with false. cbn iota.
  change (isinstance d [str; float; int; Series; DataFrame]) with false.
  change (isinstance d [list_]) with false.
  change (isinstance d [dict]) with true. cbn iota. subst d. cbn iota.
  rewrite (dict_strings_then_number _ _ _ _ _ _ _ Hopen Hnumber).
  now rewrite ?StrFacts.app_assoc.
Qed.


(** X17. When the file cannot be opened and the arguments pass the checks,
    [save_output_callback] raises the error of [open] at its first write and
    changes nothing. *)
Theorem unopenable_file_raises (response : pyval) (filename : string)
    (user_request : option string) (st : state)
    (Hopen : fails Open filename = true)
    (Haccepted : isinstance response accepted = true) :
  save_output_callback fails str_other frame_plus
    response (PStr filename) (to_pyval user_request) st
  = (Raise (OSError Open filename), st).
Proof.
  unfold save_output_callback, bind, check_inputs. fold accepted. rewrite Haccepted.
  assert (Hreq : isinstance (to_pyval user_request) [str; NoneType] = true)
    by now destruct user_request.
  rewrite Hreq. change (isinstance (PStr filename) [str]) with true.
  cbn [negb ret py_str]. unfold append_text at 1. now rewrite Hopen.
Qed.

End Writes.

Lemma simple_response_saved_witness :
  save_output_callback no_failure no_text same_frame
    (PStr "answer") (PStr "out.txt") (to_pyval (Some "question")) (State ∅ [])
  = (Ok tt,
     appended "out.txt"
       (blank_line +:+ request_text (Some "question") +:+ "answer" +:+ blank_line
        +:+ blank_line) (State ∅ [])).
Proof.
  apply (simple_response_saved no_failure no_text same_frame
           (PStr "answer") "answer" "out.txt" (Some "question") (State ∅ [])).
  - reflexivity.
  - left. reflexivity.
Defined.

Lemma list_of_strings_saved_witness :
  save_output_callback no_failure no_text same_frame
    (PList (map PStr ["a"; "b"])) (PStr "out.txt") (to_pyval None) (State ∅ [])
  = (Ok tt,
     appended "out.txt"
       (blank_line +:+ request_text None +:+ lines_of ["a"; "b"] +:+ blank_line)
       (State ∅ [])).
Proof.
  apply (list_of_strings_saved no_failure no_text same_frame
           ["a"; "b"] "out.txt" None (State ∅ [])).
  reflexivity.
Defined.

Lemma list_stops_at_first_non_string_witness :
  save_output_callback no_failure no_text same_frame
    (PList (map PStr ["a"] ++ PInt 3 :: [PStr "b"])) (PStr "out.txt")
    (to_pyval None) (State ∅ [])
  = (Raise TypeError,
     appended "out.txt" (blank_line +:+ request_text None +:+ lines_of ["a"])
       (State ∅ [])).
Proof.
  apply (list_stops_at_first_non_string no_failure no_text same_frame
           ["a"] (PInt 3) [PStr "b"] "out.txt" None (State ∅ [])).
  - reflexivity.
  - reflexivity.
Defined.

Lemma invalid_inputs_write_nothing_witness :
  save_output_callback no_failure no_text same_frame
    (PInt 42) (PStr "out.txt") PNone (State ∅ [])
  = (Raise TypeError, State ∅ []).
Proof.
  apply (invalid_inputs_write_nothing no_failure no_text same_frame
           (PInt 42) (PStr "out.txt") PNone (State ∅ [])).
  reflexivity.
Defined.

Lemma dict_keys_are_not_written_witness :
  let items := [(PStr "ticker", "AAPL"); (PInt 2, "MSFT")] in
  save_output_callback no_failure no_text same_frame
    (PDict (map (fun kv => (kv.1, PStr kv.2)) items))
    (PStr "out.txt") (to_pyval None) (State ∅ [])
  = (Ok tt,
     appended "out.txt"
       (blank_line +:+ request_text None +:+ lines_of (map snd items)
        +:+ blank_line) (State ∅ []))
  /\ save_output_callback no_failure no_text same_frame
       (PDict (map (fun kv => (kv.1, PStr kv.2)) items))
       (PStr "out.txt") (to_pyval None) (State ∅ [])
     = save_output_callback no_failure no_text same_frame
         (PList (map PStr (map snd items)))
         (PStr "out.txt") (to_pyval None) (State ∅ []).
Proof.
  exact (dict_keys_are_not_written no_failure no_text same_frame
           [(PStr "ticker", "AAPL"); (PInt 2, "MSFT")] "out.txt" None (State ∅ [])
           eq_refl).
Defined.

Lemma dict_number_value_raises_witness :
  save_output_callback no_failure no_text same_frame
    (PDict (map (fun kv => (kv.1, PStr kv.2)) [(PStr "name", "Apple")]
            ++ (PStr "price", PFloat "187.3") :: []))
    (PStr "out.txt") (to_pyval None) (State ∅ [])
  = (Raise TypeError,
     appended "out.txt"
       (blank_line +:+ request_text None +:+ lines_of (map snd [(PStr "name", "Apple")]))
       (State ∅ [])).
Proof.
  apply (dict_number_value_raises no_failure no_text same_frame
           [(PStr "name", "Apple")] (PStr "price") (PFloat "187.3") []
           "out.txt" None (State ∅ [])).
  - reflexivity.
  - reflexivity.
Defined.


Lemma unopenable_file_raises_witness :
  save_output_callback read_only no_text same_frame
    (PStr "answer") (PStr "/proc/out.txt") (to_pyval None) (State ∅ [])
  = (Raise (OSError Open "/proc/out.txt"), State ∅ []).
Proof.
  apply (unopenable_file_raises read_only no_text same_frame
           (PStr "answer") "/proc/out.txt" None (State ∅ [])).
  - reflexivity.
  - reflexivity.
Defined.

End OutputMore.

(** * Properties of the stripped JSON dump *)

Module StripFacts.
Import Strip.

Lemma re_sub_removes (cs : list ascii) (c : ascii) (s : string) :
  c ∈ cs -> Str.contains c (re_sub_chars cs s) = false.
Proof.
  intros Hc. induction s as [|a s IH]; [reflexivity|].
  cbn [re_sub_chars]. case_bool_decide as Ha; [exact IH|].
  cbn [Str.contains]. rewrite IH, orb_false_r.
  apply bool_decide_eq_false_2. intros ->. contradiction.
Qed.

Lemma re_sub_clean (cs : list ascii) (s : string) :
  (forall c, c ∈ cs -> Str.contains c s = false) -> re_sub_chars cs s = s.
Proof.
  induction s as [|a s IH]; intros Hclean; [reflexivity|].
  cbn [re_sub_chars]. case_bool_decide as Ha.
  - specialize (Hclean a Ha). cbn [Str.contains] in Hclean.
    rewrite bool_decide_eq_true_2 in Hclean by reflexivity. discriminate.
  - f_equal. apply IH. intros c Hc. specialize (Hclean c Hc).
    cbn [Str.contains] in Hclean. now apply orb_false_elim in Hclean as [_ ?].
Qed.

(** The parts of a split hold only characters of the string. *)
Lemma split_parts_without (c sep : ascii) (s : string) :
  Str.contains c s = false ->
  Forall (fun w => Str.contains c w = false) (Str.split sep s).
Proof.
  induction s as [|a s IH]; intros Hs.
  - repeat constructor.
  - cbn [Str.contains] in Hs. apply orb_false_elim in Hs as [Ha Hs].
    specialize (IH Hs). cbn [Str.split].
    destruct (bool_decide (a = sep)) eqn:Hsep.
    + constructor; [reflexivity|exact IH].
    + destruct (Str.split sep s) as [|w ws].
      * constructor; [|constructor]. cbn [Str.contains]. now rewrite Ha.
      * inversion IH as [|? ? Hw Hws]; subst. constructor; [|exact Hws].
        cbn [Str.contains]. now rewrite Ha, Hw.
Qed.

(** No part of a split holds the separator. *)
Lemma split_parts_no_sep (sep : ascii) (s : string) :
  Forall (fun w => Str.contains sep w = false) (Str.split sep s).
Proof.
  induction s as [|a s IH].
  - repeat constructor.
  - cbn [Str.split]. case_bool_decide as Hsep.
    + constructor; [reflexivity|exact IH].
    + assert (Ha : bool_decide (a = sep) = false) by now apply bool_decide_eq_false_2.
      destruct (Str.split sep s) as [|w ws].
      * constructor; [|constructor]. cbn [Str.contains]. now rewrite Ha.
      * inversion IH as [|? ? Hw Hws]; subst. constructor; [|exact Hws].
        cbn [Str.contains]. now rewrite Ha, Hw.
Qed.

Lemma join_cons (sep w w' : string) (ws : list string) :
  Str.join sep (w :: w' :: ws) = w +:+ sep +:+ Str.join sep (w' :: ws).
Proof. reflexivity. Qed.

Lemma contains_join (c sep : ascii) (ws : list string) :
  c <> sep ->
  Forall (fun w => Str.contains c w = false) ws ->
  Str.contains c (Str.join (String sep EmptyString) ws) = false.
Proof.
  intros Hc. induction ws as [|w ws IH]; intros Hws; [reflexivity|].
  inversion Hws as [|? ? Hw Hrest]; subst.
  destruct ws as [|w' ws]; [exact Hw|].
  rewrite join_cons, !StrFacts.contains_app, Hw, (IH Hrest), orb_false_r.
  cbn [Str.contains orb]. rewrite orb_false_r.
  apply bool_decide_eq_false_2. congruence.
Qed.

(** [sep.join(parts).split(sep) = parts] for parts without the separator. *)
Lemma split_join (sep : ascii) (ws : list string) :
  ws <> [] ->
  Forall (fun w => Str.contains sep w = false) ws ->
  Str.split sep (Str.join (String sep EmptyString) ws) = ws.
Proof.
  induction ws as [|w ws IH]; intros Hne Hws; [congruence|].
  inversion Hws as [|? ? Hw Hrest]; subst.
  destruct ws as [|w' ws]; [exact (StrFacts.split_no_sep sep w Hw)|].
  rewrite join_cons. change (String sep EmptyString +:+ ?x) with (String sep x).
  rewrite StrFacts.split_app_sep, (StrFacts.split_no_sep sep w Hw), IH by (congruence || assumption).
  reflexivity.
Qed.

(** [sep.join(s.split(sep)) = s]. *)
Lemma join_split (sep : ascii) (s : string) :
  Str.join (String sep EmptyString) (Str.split sep s) = s.
Proof.
  induction s as [|a s IH]; [reflexivity|].
  cbn [Str.split]. case_bool_decide as Hsep.
  - subst a. pose proof (StrFacts.split_nonempty sep s) as Hne.
    destruct (Str.split sep s) as [|w ws]; [congruence|].
    rewrite join_cons, StrFacts.app_nil_l, IH. reflexivity.
  - pose proof (StrFacts.split_nonempty sep s) as Hne.
    destruct (Str.split sep s) as [|w ws]; [congruence|].
    destruct ws as [|w' ws].
    + cbn [Str.join] in *. now rewrite IH.
    + rewrite join_cons in *. rewrite StrFacts.app_cons. now rewrite IH.
Qed.

Lemma filter_Forall_id {A} (P : A -> Prop) `{!forall x, Decision (P x)} (l : list A) :
  Forall P l -> filter P l = l.
Proof.
  induction 1 as [|x l Hx Hl IH]; [reflexivity|].
  rewrite filter_cons_True by exact Hx. now rewrite IH.
Qed.

Lemma filter_Forall_sub {A} (P Q : A -> Prop) `{!forall x, Decision (P x)} (l : list A) :
  Forall Q l -> Forall Q (filter P l).
Proof.
  induction 1 as [|x l Hx Hl IH]; [constructor|].
  destruct (decide (P x)) as [HP|HP].
  - rewrite filter_cons_True by exact HP. now constructor.
  - rewrite filter_cons_False by exact HP. exact IH.
Qed.

Lemma filter_Forall_kept {A} (P : A -> Prop) `{!forall x, Decision (P x)} (l : list A) :
  Forall P (filter P l).
Proof.
  induction l as [|x l IH]; [constructor|].
  destruct (decide (P x)) as [HP|HP].
  - rewrite filter_cons_True by exact HP. now constructor.
  - rewrite filter_cons_False by exact HP. exact IH.
Qed.

Lemma newline_not_stripped (c : ascii) : c ∈ stripped_chars -> c <> newline_char.
Proof.
  intros Hc ->. unfold stripped_chars, newline_char in Hc. cbn [map] in Hc.
  repeat (apply elem_of_cons in Hc as [Hc|Hc]; [discriminate Hc|]).
  now apply elem_of_nil in Hc.
Qed.

End StripFacts.

(** X18. The text [dump_stripped_json] returns holds no double quote, no
    apostrophe and no brace, whatever [json.dumps] produced. *)
Theorem stripped_json_has_no_quotes_or_braces {data : Type}
    (json_dumps : data -> Z -> string) (d : data) (indent : Z) (c : ascii) :
  c ∈ Strip.stripped_chars ->
  Str.contains c (Strip.dump_stripped_json json_dumps d indent) = false.
Proof.
  intros Hc. unfold Strip.dump_stripped_json, Strip.strip_json.
  apply StripFacts.contains_join; [now apply StripFacts.newline_not_stripped|].
  apply StripFacts.filter_Forall_sub.
  apply StripFacts.split_parts_without.
  now apply StripFacts.re_sub_removes.
Qed.

Lemma stripped_json_has_no_quotes_or_braces_witness :
  Str.contains "{"%char
    (Strip.dump_stripped_json
       (fun (_ : unit) (_ : Z) => "{" +:+ Output.newline +:+ "  'a': 1" +:+ Output.newline +:+ "}")
       tt 2)
  = false.
Proof.
  apply (stripped_json_has_no_quotes_or_braces
           (fun (_ : unit) (_ : Z) =>
              "{" +:+ Output.newline +:+ "  'a': 1" +:+ Output.newline +:+ "}")
           tt 2 "{"%char).
  unfold Strip.stripped_chars. cbn [map].
  do 2 apply list_elem_of_further. apply list_elem_of_here.
Defined.

(** X19. The text [dump_stripped_json] returns has no blank line: either it
    is empty, or each of its lines holds a character that is not white
    space. *)
Theorem stripped_json_has_no_blank_line {data : Type}
    (json_dumps : data -> Z -> string) (d : data) (indent : Z) :
  let out := Strip.dump_stripped_json json_dumps d indent in
  out = EmptyString
  \/ Forall (fun line => Strip.strip_is_empty line = false)
       (Str.split Strip.newline_char out).
Proof.
  cbn zeta. unfold Strip.dump_stripped_json, Strip.strip_json.
  set (lines := Str.split _ _).
  pose proof (StripFacts.filter_Forall_kept
                (fun line => Strip.strip_is_empty line = false) lines) as Hkept.
  pose proof (StripFacts.filter_Forall_sub
                (fun line => Strip.strip_is_empty line = false)
                (fun w => Str.contains Strip.newline_char w = false) lines
                (StripFacts.split_parts_no_sep _ _)) as Hparts.
  destruct (filter _ lines) as [|w ws] eqn:Hf; [now left|].
  right. rewrite StripFacts.split_join by (congruence || assumption).
  exact Hkept.
Qed.

(** X20. [dump_stripped_json] removes nothing else: a dump without quotes,
    apostrophes and braces, and without a blank line, is returned as it
    is. *)
Theorem clean_json_unchanged {data : Type}
    (json_dumps : data -> Z -> string) (d : data) (indent : Z)
    (Hclean : forall c, c ∈ Strip.stripped_chars ->
                Str.contains c (json_dumps d indent) = false)
    (Hlines : Forall (fun line => Strip.strip_is_empty line = false)
                (Str.split Strip.newline_char (json_dumps d indent))) :
  Strip.dump_stripped_json json_dumps d indent = json_dumps d indent.
Proof.
  unfold Strip.dump_stripped_json, Strip.strip_json.
  rewrite (StripFacts.re_sub_clean _ _ Hclean).
  rewrite (StripFacts.filter_Forall_id _ _ Hlines).
  apply StripFacts.join_split.
Qed.

Lemma clean_json_unchanged_witness :
  Strip.dump_stripped_json
    (fun (_ : unit) (_ : Z) => "[" +:+ Output.newline +:+ "  1," +:+ Output.newline +:+ "  2" +:+ Output.newline +:+ "]")
    tt 2
  = "[" +:+ Output.newline +:+ "  1," +:+ Output.newline +:+ "  2" +:+ Output.newline +:+ "]".
Proof.
  apply (clean_json_unchanged
           (fun (_ : unit) (_ : Z) =>
              "[" +:+ Output.newline +:+ "  1," +:+ Output.newline +:+ "  2"
              +:+ Output.newline +:+ "]") tt 2).
  - intros c Hc. unfold Strip.stripped_chars in Hc. cbn [map] in Hc.
    repeat (apply elem_of_cons in Hc as [->|Hc]; [vm_compute; reflexivity|]).
    now apply elem_of_nil in Hc.
  - vm_compute. repeat constructor.
Defined.

(** * Further properties of the session initialisation *)

Module SessionMore.
Import Session Layout.

Ltac derived_here :=
  unfold derive at 1; rewrite lookup_insert_eq; unfold item;
  rewrite ?SessionFacts.derive_lookup_other by discriminate;
  try (unfold derive at 1; rewrite lookup_insert_eq; unfold item;
       rewrite ?SessionFacts.derive_lookup_other by discriminate);
  reflexivity.

Ltac derived_step :=
  match goal with
  | |- derive ?key ?b ?n ?s !! ?k = _ =>
      destruct (decide (k = key)) as [->|?];
      [derived_here|rewrite (SessionFacts.derive_lookup_other key b n k s) by congruence]
  end.

(** Every entry of the initialised session, read off the session state in
    which the cache root has been chosen. *)
Lemma initialize_session_lookup (kit_dir cwd new_uuid : string) (prod_mode : bool)
    (cache_dir : option string) (s : gmap string string) (k : string) :
  initialize_session kit_dir cwd new_uuid prod_mode cache_dir s !! k
  = layout cwd (set_cache_dir kit_dir cwd new_uuid prod_mode cache_dir s) k.
Proof.
  unfold initialize_session.
  set (c := set_cache_dir kit_dir cwd new_uuid prod_mode cache_dir s).
  destruct (decide (k = "PANDASAI_CACHE")) as [->|H0].
  { rewrite lookup_insert_eq. reflexivity. }
  rewrite lookup_insert_ne by congruence.
  do 17 derived_step.
  unfold layout. cbn [assoc cache_entries source_entries].
  repeat (destruct (decide (k = _)) as [?|_]; [congruence|]).
  reflexivity.
Qed.

Section Chosen.

Variables kit_dir cwd : string.

(** Once the cache root is chosen the session has an identifier and a
    root. *)
Lemma set_cache_dir_present (new_uuid : string) (prod_mode : bool)
    (cache_dir : option string) (s : gmap string string) :
  is_Some (set_cache_dir kit_dir cwd new_uuid prod_mode cache_dir s !! "SESSION_ID")
  /\ is_Some (set_cache_dir kit_dir cwd new_uuid prod_mode cache_dir s !! "CACHE_DIR").
Proof.
  unfold set_cache_dir.
  set (s0 := match s !! "SESSION_ID" with
             | Some _ => s
             | None => <["SESSION_ID" := new_uuid]> s
             end).
  assert (Hsid : is_Some (s0 !! "SESSION_ID")).
  { subst s0. destruct (s !! "SESSION_ID") eqn:E.
    - rewrite E. eauto.
    - rewrite lookup_insert_eq. eauto. }
  destruct (s0 !! "CACHE_DIR") eqn:Ecd.
  - split; [exact Hsid|]. rewrite Ecd. eauto.
  - destruct cache_dir as [dir|]; [|destruct prod_mode];
      rewrite ?lookup_insert_eq, ?(lookup_insert_ne _ "CACHE_DIR" "SESSION_ID") by discriminate;
      (split; [exact Hsid|eauto]).
Qed.

(** A session that has an identifier and a root keeps both. *)
Lemma set_cache_dir_chosen (new_uuid : string) (prod_mode : bool)
    (cache_dir : option string) (s : gmap string string) :
  is_Some (s !! "SESSION_ID") -> is_Some (s !! "CACHE_DIR") ->
  set_cache_dir kit_dir cwd new_uuid prod_mode cache_dir s = s.
Proof.
  intros [id Hid] [root Hroot]. unfold set_cache_dir. now rewrite Hid, Hroot.
Qed.

(** A root that is there is kept, with or without an identifier. *)
Lemma set_cache_dir_root (new_uuid : string) (prod_mode : bool)
    (cache_dir : option string) (s : gmap string string) (root : string) :
  s !! "CACHE_DIR" = Some root ->
  set_cache_dir kit_dir cwd new_uuid prod_mode cache_dir s !! "CACHE_DIR" = Some root.
Proof.
  intros Hroot. unfold set_cache_dir. destruct (s !! "SESSION_ID") eqn:E.
  - now rewrite Hroot.
  - rewrite (lookup_insert_ne _ "SESSION_ID" "CACHE_DIR") by discriminate.
    rewrite Hroot. rewrite lookup_insert_ne by discriminate. exact Hroot.
Qed.

Lemma layout_same_root (c c' : gmap string string) (k : string) :
  c' !! "CACHE_DIR" = c !! "CACHE_DIR" ->
  (assoc k cache_entries = None -> assoc k source_entries = None ->
   k <> "PANDASAI_CACHE" -> c' !! k = c !! k) ->
  layout cwd c' k = layout cwd c k.
Proof.
  intros Hroot Hother. unfold layout, item. rewrite Hroot.
  destruct (assoc k cache_entries); [reflexivity|].
  destruct (assoc k source_entries); [reflexivity|].
  destruct (decide (k = "PANDASAI_CACHE")); [reflexivity|].
  now apply Hother.
Qed.

Lemma layout_other (c : gmap string string) (k : string) :
  assoc k cache_entries = None -> assoc k source_entries = None ->
  k <> "PANDASAI_CACHE" -> layout cwd c k = c !! k.
Proof.
  intros H1 H2 H3. unfold layout. rewrite H1, H2.
  now destruct (decide (k = "PANDASAI_CACHE")).
Qed.

(** The entry under a path key depends on the session state through its
    cache root only. *)
Lemma layout_path_key (c c' : gmap string string) (key : string) :
  key ∈ path_keys ->
  c' !! "CACHE_DIR" = c !! "CACHE_DIR" ->
  layout cwd c' key = layout cwd c key.
Proof.
  intros Hkey Hroot. apply layout_same_root; [exact Hroot|].
  intros H1 H2 _. unfold path_keys, derived_keys in Hkey.
  cbn [cache_entries source_entries app map fst] in Hkey.
  repeat (apply elem_of_cons in Hkey as [->|Hkey];
    [solve [exact Hroot
           |vm_compute in H1; discriminate H1
           |vm_compute in H2; discriminate H2]|]).
  now apply elem_of_nil in Hkey.
Qed.

(** X21. A second initialisation reproduces the cache root and the seventeen
    paths derived from it, whatever its arguments are. The session state [t]
    it runs on need only hold these entries as the first call left them: the
    other entries may have changed in between, as the credentials that
    [initialize_env_variables] writes, which is outside the model. A call
    with any identifier, mode and cache directory then leaves under each of
    these keys what the first call put there (with the same [kit_dir] and
    working directory). *)
Theorem initialize_session_twice (uuid1 uuid2 : string) (prod1 prod2 : bool)
    (dir1 dir2 : option string) (s t : gmap string string) (key : string)
    (Hkept : forall k, k ∈ path_keys ->
               t !! k = initialize_session kit_dir cwd uuid1 prod1 dir1 s !! k)
    (Hkey : key ∈ path_keys) :
  initialize_session kit_dir cwd uuid2 prod2 dir2 t !! key
  = initialize_session kit_dir cwd uuid1 prod1 dir1 s !! key.
Proof.
  destruct (set_cache_dir_present uuid1 prod1 dir1 s) as [_ [root Hroot]].
  assert (Hfirst : initialize_session kit_dir cwd uuid1 prod1 dir1 s !! "CACHE_DIR"
                   = Some root).
  { rewrite initialize_session_lookup.
    change (layout cwd ?c "CACHE_DIR") with (c !! "CACHE_DIR"). exact Hroot. }
  assert (Ht : t !! "CACHE_DIR" = Some root).
  { rewrite (Hkept "CACHE_DIR") by (unfold path_keys; apply list_elem_of_here).
    exact Hfirst. }
  rewrite !initialize_session_lookup.
  apply layout_path_key; [exact Hkey|].
  rewrite (set_cache_dir_root uuid2 prod2 dir2 t root Ht). now rewrite Hroot.
Qed.

(** X22. A cache root that is in the session state already is kept by
    [initialize_session]: the [cache_dir] and [prod_mode] arguments are not
    looked at. *)
Theorem initialize_session_keeps_root (new_uuid : string) (prod_mode : bool)
    (cache_dir : option string) (s : gmap string string) (root : string)
    (Hroot : s !! "CACHE_DIR" = Some root) :
  initialize_session kit_dir cwd new_uuid prod_mode cache_dir s !! "CACHE_DIR"
  = Some root.
Proof.
  rewrite initialize_session_lookup.
  change (layout cwd ?c "CACHE_DIR") with (c !! "CACHE_DIR").
  now apply set_cache_dir_root.
Qed.

(** X23. With a [cache_dir] argument, [prod_mode] has no effect on the cache
    root and on the seventeen paths derived from it, and the cache root is
    the argument unless the session had a root before. The statement is
    about these path entries only: [prod_mode] is also passed on to
    [initialize_env_variables], which is outside the model. *)
Theorem explicit_cache_dir_wins (new_uuid dir : string) (prod_mode : bool)
    (s : gmap string string) (key : string)
    (Hkey : key ∈ path_keys) :
  initialize_session kit_dir cwd new_uuid prod_mode (Some dir) s !! key
  = initialize_session kit_dir cwd new_uuid (negb prod_mode) (Some dir) s !! key
  /\ initialize_session kit_dir cwd new_uuid prod_mode (Some dir) s !! "CACHE_DIR"
     = Some (default dir (s !! "CACHE_DIR")).
Proof.
  split.
  { rewrite !initialize_session_lookup.
    apply layout_path_key; [exact Hkey|reflexivity]. }
  destruct (s !! "CACHE_DIR") as [root|] eqn:Hroot.
  - rewrite initialize_session_lookup.
    change (layout cwd ?c "CACHE_DIR") with (c !! "CACHE_DIR").
    now apply set_cache_dir_root.
  - rewrite initialize_session_lookup.
    change (layout cwd ?c "CACHE_DIR") with (c !! "CACHE_DIR").
    unfold set_cache_dir. destruct (s !! "SESSION_ID") eqn:E.
    + rewrite Hroot. now rewrite lookup_insert_eq.
    + rewrite (lookup_insert_ne _ "SESSION_ID" "CACHE_DIR") by discriminate.
      rewrite Hroot. cbn [default]. now rewrite lookup_insert_eq.
Qed.

(** X24. After [initialize_session] each of the seventeen derived paths is
    set and lies lexically under the cache root of the session, whatever the
    session state held under these keys before. *)
Theorem derived_paths_under_cache_root (new_uuid : string) (prod_mode : bool)
    (cache_dir : option string) (s : gmap string string) (key : string)
    (Hkey : key ∈ derived_keys) :
  exists root p : string,
    initialize_session kit_dir cwd new_uuid prod_mode cache_dir s !! "CACHE_DIR"
    = Some root
    /\ initialize_session kit_dir cwd new_uuid prod_mode cache_dir s !! key = Some p
    /\ is_relative_to p root = true.
Proof.
  destruct (set_cache_dir_present new_uuid prod_mode cache_dir s) as [_ [root Hroot]].
  assert (Hitem : item "CACHE_DIR"
                    (set_cache_dir kit_dir cwd new_uuid prod_mode cache_dir s) = root)
    by (unfold item; now rewrite Hroot).
  exists root. rewrite !initialize_session_lookup.
  change (layout cwd ?c "CACHE_DIR") with (c !! "CACHE_DIR").
  unfold derived_keys in Hkey. cbn [cache_entries source_entries app map fst] in Hkey.
  repeat (apply elem_of_cons in Hkey as [->|Hkey];
    [eexists; split; [exact Hroot|]; split;
       [unfold layout; cbn [assoc cache_entries source_entries];
        repeat (destruct (decide _) as [?|?]; [discriminate|]);
        destruct (decide _) as [?|?]; [|congruence];
        rewrite Hitem; reflexivity
       |repeat apply PathFacts.is_relative_to_join;
        solve [apply PathFacts.is_relative_to_refl|reflexivity]]|]).
  now apply elem_of_nil in Hkey.
Qed.

End Chosen.

Lemma initialize_session_keeps_root_witness :
  initialize_session "/kit" "/work" session_1 true (Some "/elsewhere")
    {[ "CACHE_DIR" := "/cache_A" ]} !! "CACHE_DIR"
  = Some "/cache_A".
Proof.
  apply (initialize_session_keeps_root "/kit" "/work" session_1 true (Some "/elsewhere")
           {[ "CACHE_DIR" := "/cache_A" ]} "/cache_A").
  reflexivity.
Defined.

Lemma initialize_session_twice_witness :
  initialize_session "/kit" "/work" session_2 true (Some "/elsewhere")
    (<["API_KEY" := "secret"]>
       (initialize_session "/kit" "/work" session_1 false None ∅)) !! "DB_PATH"
  = initialize_session "/kit" "/work" session_1 false None ∅ !! "DB_PATH".
Proof.
  apply (initialize_session_twice "/kit" "/work" session_1 session_2 false true
           None (Some "/elsewhere") ∅
           (<["API_KEY" := "secret"]>
              (initialize_session "/kit" "/work" session_1 false None ∅))
           "DB_PATH").
  - intros k Hk. apply lookup_insert_ne. intros <-.
    unfold path_keys, derived_keys in Hk.
    cbn [cache_entries source_entries app map fst] in Hk.
    repeat (apply elem_of_cons in Hk as [Hk|Hk]; [discriminate Hk|]).
    now apply elem_of_nil in Hk.
  - unfold path_keys, derived_keys. cbn [cache_entries source_entries app map fst].
    do 14 apply list_elem_of_further. apply list_elem_of_here.
Defined.

Lemma explicit_cache_dir_wins_witness :
  initialize_session "/kit" "/work" session_1 true (Some "/elsewhere") ∅
    !! "HISTORY_PATH"
  = initialize_session "/kit" "/work" session_1 (negb true) (Some "/elsewhere") ∅
      !! "HISTORY_PATH"
  /\ initialize_session "/kit" "/work" session_1 true (Some "/elsewhere") ∅
       !! "CACHE_DIR"
     = Some (default "/elsewhere" ((∅ : gmap string string) !! "CACHE_DIR")).
Proof.
  apply (explicit_cache_dir_wins "/kit" "/work" session_1 "/elsewhere" true ∅
           "HISTORY_PATH").
  unfold path_keys, derived_keys. cbn [cache_entries source_entries app map fst].
  apply list_elem_of_further. apply list_elem_of_here.
Defined.

Lemma derived_paths_under_cache_root_witness :
  exists root p : string,
    initialize_session "/kit" "/work" session_1 false None ∅ !! "CACHE_DIR" = Some root
    /\ initialize_session "/kit" "/work" session_1 false None ∅ !! "DB_PATH" = Some p
    /\ is_relative_to p root = true.
Proof.
  apply (derived_paths_under_cache_root "/kit" "/work" session_1 false None ∅ "DB_PATH").
  unfold derived_keys. cbn [cache_entries source_entries app map fst].
  do 13 apply list_elem_of_further. apply list_elem_of_here.
Defined.

End SessionMore.

(** * Further properties of the directory browser *)

Module BrowseMore.
Import Browse.

Lemma names_of_length (l : list (string * kind)) :
  length (names_of is_directory l) + length (names_of (fun k => negb (is_directory k)) l)
  = length l.
Proof.
  unfold names_of. induction l as [|[name k] l IH]; [reflexivity|].
  cbn [List.filter snd]. destruct (is_directory k); cbn [negb map length]; lia.
Qed.

Lemma names_of_elem (f : kind -> bool) (l : list (string * kind)) (name : string) :
  name ∈ names_of f l <-> exists k, (name, k) ∈ l /\ f k = true.
Proof.
  unfold names_of. induction l as [|[n k] l IH].
  - split; [intros H; now apply elem_of_nil in H|].
    intros (k & H & _). now apply elem_of_nil in H.
  - cbn [List.filter snd]. destruct (f k) eqn:Hk; cbn [map fst].
    + rewrite elem_of_cons, IH. split.
      * intros [-> | (k' & Hin & Hf)].
        -- exists k. split; [apply list_elem_of_here|exact Hk].
        -- exists k'. split; [now apply list_elem_of_further|exact Hf].
      * intros (k' & Hin & Hf). apply elem_of_cons in Hin as [[= -> ->]|Hin].
        -- now left.
        -- right. now exists k'.
    + rewrite IH. split.
      * intros (k' & Hin & Hf). exists k'. split; [now apply list_elem_of_further|exact Hf].
      * intros (k' & Hin & Hf). apply elem_of_cons in Hin as [[= -> ->]|Hin].
        -- congruence.
        -- now exists k'.
Qed.

Lemma names_of_none (f : kind -> bool) (l : list (string * kind)) :
  Forall (fun e => f e.2 = false) l -> names_of f l = [].
Proof.
  unfold names_of. induction 1 as [|[n k] l Hk Hl IH]; [reflexivity|].
  cbn [List.filter snd] in *. now rewrite Hk.
Qed.

Lemma names_of_all (f : kind -> bool) (l : list (string * kind)) :
  Forall (fun e => f e.2 = true) l -> names_of f l = map fst l.
Proof.
  unfold names_of. induction 1 as [|[n k] l Hk Hl IH]; [reflexivity|].
  cbn [List.filter snd] in *. rewrite Hk. cbn [map]. now rewrite IH.
Qed.

Lemma names_of_ext (f g : kind -> bool) (l : list (string * kind)) :
  Forall (fun e => f e.2 = g e.2) l -> names_of f l = names_of g l.
Proof.
  unfold names_of. induction 1 as [|[n k] l Hk Hl IH]; [reflexivity|].
  cbn [List.filter snd] in *. rewrite Hk. destruct (g k); cbn [map]; now rewrite IH.
Qed.

Section Display.

Variable listdir : string -> result (list (string * kind)).
Variable readable : string -> bool.
Variable pressed : string -> bool.

Lemma list_directory_ok (directory : string) (l : list (string * kind)) (st : state) :
  listdir directory = Ok l ->
  list_directory listdir directory st
  = (Ok (names_of is_directory l, names_of (fun k => negb (is_directory k)) l),
     recorded [Listed directory] st).
Proof.
  intros Hl. unfold list_directory. rewrite Hl. unfold bind, record, ret, recorded.
  f_equal. f_equal. f_equal. apply names_of_ext.
  apply Forall_forall. intros [n k] _. now destruct k.
Qed.

Lemma list_files_in_directory_ok (directory : string) (l : list (string * kind))
    (st : state) :
  listdir directory = Ok l ->
  list_files_in_directory listdir directory st
  = (Ok (names_of is_regular l), recorded [Files_listed directory] st).
Proof.
  intros Hl. unfold list_files_in_directory. rewrite Hl. reflexivity.
Qed.

(** The head of [display_directory_contents]: the check and the listing. *)
Lemma display_head (depth : nat) (default_path path : string) (st : state) :
  display_directory_contents listdir readable pressed (S depth) default_path path st
  = (listing <- list_directory listdir (checked_path default_path path) ;;
     let '(subdirectories, files) := listing in
     let dir_name := Path_name (checked_path default_path path) in
     let dir_name := if starts_with "cache" dir_name then "cache" else dir_name in
     browse_subdirectories listdir readable pressed
       (display_directory_contents listdir readable pressed depth default_path)
       (checked_path default_path path) 0 subdirectories ;;;
     (if negb (bool_decide (files = [])) && starts_with "cache" dir_name
      then for_each files
             (fun file => download_file readable
                            (os_path_join (checked_path default_path path) file))
      else ret tt) ;;;
     (if bool_decide (length (subdirectories ++ files) = 0)
      then record (Wrote "No files found")
      else ret tt)) (checked_state default_path path st).
Proof.
  cbn [display_directory_contents]. unfold checked_path, checked_state, bind at 1.
  destruct (is_relative_to path default_path); reflexivity.
Qed.

(** X25. [list_directory] puts every entry of the directory in exactly one
    of its two lists, and whatever is not a directory counts as a file; the
    files [list_files_in_directory] returns are among them, and the two
    agree unless the directory holds an entry that is neither a regular
    file nor a directory. *)
Theorem list_directory_partitions (directory : string) (l : list (string * kind))
    (st : state)
    (Hlist : listdir directory = Ok l) :
  exists subdirectories files regular : list string,
    (list_directory listdir directory st).1 = Ok (subdirectories, files)
    /\ (list_files_in_directory listdir directory st).1 = Ok regular
    /\ length subdirectories + length files = length l
    /\ (forall name k, (name, k) ∈ l ->
         if is_directory k then name ∈ subdirectories else name ∈ files)
    /\ (forall name, name ∈ regular -> name ∈ files)
    /\ (Forall (fun e => e.2 <> Other) l -> regular = files).
Proof.
  exists (names_of is_directory l), (names_of (fun k => negb (is_directory k)) l),
    (names_of is_regular l).
  rewrite (list_directory_ok _ _ _ Hlist), (list_files_in_directory_ok _ _ _ Hlist).
  split; [reflexivity|]. split; [reflexivity|].
  split; [apply names_of_length|]. split; [|split].
  - intros name k Hin. destruct (is_directory k) eqn:Hk.
    + apply names_of_elem. now exists k.
    + apply names_of_elem. exists k. now rewrite Hk.
  - intros name Hin. apply names_of_elem in Hin as (k & Hin & Hk).
    apply names_of_elem. exists k. split; [exact Hin|]. now destruct k.
  - intros Hno. apply names_of_ext. eapply Forall_impl; [exact Hno|].
    intros [n k] Hk. cbn [snd] in *. now destruct k.
Qed.

(** [download_file] raises nothing: for a name whose suffix is not
    [txt], [csv], [png] or [pdf] it does nothing at all, and for a file that
    cannot be read it logs a warning and offers nothing. It never moves
    [current_path]. *)
Lemma download_file_never_raises (filename : string) (st : state) :
  let res := download_file readable filename st in
  res.1 = Ok tt
  /\ current_path res.2 = current_path st
  /\ (format_of filename ∉ ["txt"; "csv"; "png"; "pdf"] -> res.2 = st)
  /\ (readable filename = false -> trace res.2 = trace st)
  /\ (trace res.2 = trace st \/ trace res.2 = trace st ++ [Downloaded filename]).
Proof.
  cbn zeta. unfold download_file. case_bool_decide as Hf.
  - destruct (readable filename) eqn:Hr; cbn [record warn fst snd current_path trace].
    + repeat split; [contradiction|discriminate|now right].
    + repeat split; [contradiction|now left].
  - cbn [ret fst snd]. repeat split. now left.
Qed.

(** X26. [display_directory_contents] does not handle a failing listing:
    when [os.listdir] raises on the path it settles on, the error reaches
    the caller and nothing has been listed, offered or written. *)
Theorem listing_failure_propagates (depth : nat) (default_path path : string)
    (e : exn) (st : state)
    (Hlist : listdir (checked_path default_path path) = Raise e) :
  display_directory_contents listdir readable pressed (S depth) default_path path st
  = (Raise e, checked_state default_path path st).
Proof.
  rewrite display_head. unfold bind, list_directory. now rewrite Hlist.
Qed.

(** X27. For an empty directory [display_directory_contents] lists it and
    writes the line [No files found]; nothing else happens. *)
Theorem empty_directory_message (depth : nat) (default_path path : string) (st : state)
    (Hlist : listdir (checked_path default_path path) = Ok []) :
  display_directory_contents listdir readable pressed (S depth) default_path path st
  = (Ok tt,
     recorded [Listed (checked_path default_path path); Wrote "No files found"]
       (checked_state default_path path st)).
Proof.
  rewrite display_head. unfold bind at 1.
  rewrite (list_directory_ok _ _ _ Hlist). cbn [names_of List.filter map].
  cbn [browse_subdirectories]. unfold bind, ret, record, recorded.
  cbn [negb andb bool_decide app length current_path trace blog].
  rewrite !bool_decide_eq_true_2 by reflexivity.
  cbn [negb andb current_path trace blog]. now rewrite <- List.app_assoc.
Qed.

(** X28. The files of a directory are offered at its own level only when
    its name starts with [cache]: for a directory with another name that
    holds files and no subdirectory, [display_directory_contents] lists it
    and offers nothing, and writes no message either. *)
Theorem files_offered_in_cache_directories_only (depth : nat)
    (default_path path : string) (l : list (string * kind)) (st : state)
    (Hlist : listdir (checked_path default_path path) = Ok l)
    (Hfiles : Forall (fun e => is_directory e.2 = false) l)
    (Hsome : l <> [])
    (Hname : starts_with "cache" (Path_name (checked_path default_path path)) = false) :
  display_directory_contents listdir readable pressed (S depth) default_path path st
  = (Ok tt,
     recorded [Listed (checked_path default_path path)]
       (checked_state default_path path st)).
Proof.
  rewrite display_head. unfold bind at 1.
  rewrite (list_directory_ok _ _ _ Hlist).
  rewrite (names_of_none _ _ Hfiles).
  rewrite (names_of_all (fun k => negb (is_directory k)) l)
    by (eapply Forall_impl; [exact Hfiles|]; intros x Hx; cbn beta in *; now rewrite Hx).
  cbn [browse_subdirectories]. rewrite Hname, Hname, andb_false_r.
  cbn [app]. unfold bind, ret.
  rewrite bool_decide_eq_false_2; [reflexivity|].
  rewrite length_map. destruct l; [congruence|discriminate].
Qed.

End Display.

Lemma list_directory_partitions_witness :
  exists subdirectories files regular : list string,
    (list_directory small_cache "/cache" (State "/cache" [] [])).1
    = Ok (subdirectories, files)
    /\ (list_files_in_directory small_cache "/cache" (State "/cache" [] [])).1
       = Ok regular
    /\ length subdirectories + length files
       = length [("sources", Directory); ("empty", Directory);
                 ("notes.txt", Regular); ("socket", Other)]
    /\ (forall name k,
         (name, k) ∈ [("sources", Directory); ("empty", Directory);
                      ("notes.txt", Regular); ("socket", Other)] ->
         if is_directory k then name ∈ subdirectories else name ∈ files)
    /\ (forall name, name ∈ regular -> name ∈ files)
    /\ (Forall (fun e => e.2 <> Other)
          [("sources", Directory); ("empty", Directory);
           ("notes.txt", Regular); ("socket", Other)] -> regular = files).
Proof.
  apply (list_directory_partitions small_cache "/cache" _ (State "/cache" [] [])).
  reflexivity.
Defined.

Lemma listing_failure_propagates_witness :
  display_directory_contents small_cache always always 3 "/cache" "/cache/missing"
    (State "/cache" [] [])
  = (Raise (FileNotFoundError "/cache/missing"),
     checked_state "/cache" "/cache/missing" (State "/cache" [] [])).
Proof.
  apply (listing_failure_propagates small_cache always always 2 "/cache" "/cache/missing"
           (FileNotFoundError "/cache/missing") (State "/cache" [] [])).
  reflexivity.
Defined.

Lemma empty_directory_message_witness :
  display_directory_contents small_cache always always 3 "/cache" "/cache/empty"
    (State "/cache" [] [])
  = (Ok tt,
     recorded [Listed (checked_path "/cache" "/cache/empty"); Wrote "No files found"]
       (checked_state "/cache" "/cache/empty" (State "/cache" [] []))).
Proof.
  apply (empty_directory_message small_cache always always 2 "/cache" "/cache/empty"
           (State "/cache" [] [])).
  reflexivity.
Defined.

Lemma files_offered_in_cache_directories_only_witness :
  display_directory_contents small_cache always always 3 "/cache" "/cache/sources"
    (State "/cache" [] [])
  = (Ok tt,
     recorded [Listed (checked_path "/cache" "/cache/sources")]
       (checked_state "/cache" "/cache/sources" (State "/cache" [] []))).
Proof.
  apply (files_offered_in_cache_directories_only small_cache always always 2 "/cache"
           "/cache/sources" [("doc1.txt", Regular)] (State "/cache" [] [])).
  - reflexivity.
  - repeat constructor.
  - discriminate.
  - reflexivity.
Defined.

End BrowseMore.

(** * The SEC-EDGAR details *)

Module SecFacts.
Import Sec.

Section Submit.

Variable text_input : string -> option string.
Variable button : string -> bool.

(** The run of [submit_sec_edgar_details] in each of the cases of the
    environment and of the organization typed in. *)
Lemma submit_cases (st : state) :
  submit_sec_edgar_details text_input button st
  = match environ st !! "SEC_API_ORGANIZATION", environ st !! "SEC_API_EMAIL" with
    | Some _, Some _ => (Ok tt, st)
    | Some _, None =>
        (Raise (KeyError "SEC_API_EMAIL"), State (environ st) (shown st ++ [Markdown]))
    | None, email =>
        let page := (shown st ++ [Markdown]) ++ [Text_input (key +:+ "-organization")] in
        match text_input (key +:+ "-organization") with
        | None => (Raise TypeError, State (environ st) page)
        | Some organization =>
            (match email with
             | Some _ => Ok tt
             | None => Raise (KeyError "SEC_API_EMAIL")
             end,
             State (<["SEC_API_ORGANIZATION" := organization]> (environ st)) page)
        end
    end.
Proof.
  unfold submit_sec_edgar_details, bind, getenv, environ_getitem.
  destruct (environ st !! "SEC_API_ORGANIZATION") as [org|] eqn:Horg;
    destruct (environ st !! "SEC_API_EMAIL") as [email|] eqn:Hemail;
    destruct (text_input (key +:+ "-organization")) as [organization|];
    repeat progress
      (cbn -[key];
       rewrite ?Horg, ?Hemail, ?lookup_insert_eq,
         ?(lookup_insert_ne (environ st) "SEC_API_ORGANIZATION" "SEC_API_EMAIL")
         by discriminate);
    reflexivity.
Qed.

(** X29. [submit_sec_edgar_details] cannot supply the email address: when
    the variable [SEC_API_EMAIL] is not in the environment the call raises,
    [KeyError] where it reads [os.environ] or before that [TypeError] when
    no organization was typed in, and the variable is still unset. *)
Theorem sec_details_need_the_email_variable (st : state)
    (Hemail : environ st !! "SEC_API_EMAIL" = None) :
  let res := submit_sec_edgar_details text_input button st in
  (res.1 = Raise (KeyError "SEC_API_EMAIL") \/ res.1 = Raise TypeError)
  /\ environ res.2 !! "SEC_API_EMAIL" = None.
Proof.
  cbn zeta. rewrite submit_cases, Hemail.
  destruct (environ st !! "SEC_API_ORGANIZATION") as [org|].
  - cbn [fst snd environ]. split; [now left|exact Hemail].
  - cbn zeta. destruct (text_input (key +:+ "-organization")) as [organization|];
      cbn [fst snd environ].
    + split; [now left|].
      now rewrite (lookup_insert_ne _ "SEC_API_ORGANIZATION" "SEC_API_EMAIL") by discriminate.
    + split; [now right|exact Hemail].
Qed.

(** X30. [submit_sec_edgar_details] never shows the email field, the save
    button, the success message or the warning: with both variables in the
    environment it does nothing, and otherwise the page gains the help text,
    and the organization field when the organization is missing.  It returns
    normally exactly when the email variable is set and the organization is
    set or was typed in. *)
Theorem sec_details_page (st : state) :
  let res := submit_sec_edgar_details text_input button st in
  (shown res.2 = shown st
   \/ shown res.2 = shown st ++ [Markdown]
   \/ shown res.2 = shown st ++ [Markdown; Text_input (key +:+ "-organization")])
  /\ (is_Some (environ st !! "SEC_API_ORGANIZATION") ->
      is_Some (environ st !! "SEC_API_EMAIL") -> res = (Ok tt, st))
  /\ (res.1 = Ok tt <->
      is_Some (environ st !! "SEC_API_EMAIL")
      /\ (is_Some (environ st !! "SEC_API_ORGANIZATION")
          \/ is_Some (text_input (key +:+ "-organization")))).
Proof.
  cbn zeta. rewrite submit_cases.
  destruct (environ st !! "SEC_API_ORGANIZATION") as [org|];
    destruct (environ st !! "SEC_API_EMAIL") as [email|]; cbn zeta;
    try destruct (text_input (key +:+ "-organization")) as [organization|];
    cbn [fst snd shown]; rewrite <- ?List.app_assoc; cbn [app];
    (split; [auto|split]);
    try (intros [? ?] [? ?]; congruence);
    try reflexivity;
    (split; [intros H; try discriminate H; split; eauto
            |intros [[? ?] [[? ?]|[? ?]]]; congruence]).
Qed.

End Submit.

Lemma sec_details_need_the_email_variable_witness :
  let res := submit_sec_edgar_details typed_details always
               (State {[ "SEC_API_ORGANIZATION" := "ACME" ]} []) in
  (res.1 = Raise (KeyError "SEC_API_EMAIL") \/ res.1 = Raise TypeError)
  /\ environ res.2 !! "SEC_API_EMAIL" = None.
Proof.
  apply (sec_details_need_the_email_variable typed_details always
           (State {[ "SEC_API_ORGANIZATION" := "ACME" ]} [])).
  reflexivity.
Defined.

End SecFacts.
